(** * Loan cash flows and internal rate of return

    A shallow embedding of [loan_amort.py] and [irr.py]: the scheduled
    amortization, the default/prepay adjustment recurrence, the lookup
    accessors, the payment-date generator and the IRR wrapper, followed by
    the properties of the specification that they satisfy or break. *)

From Stdlib Require Import ZArith QArith Qabs Qfield Lqa Lia PrimFloat.
From stdpp Require Import base list strings pretty.

Close Scope Q_scope.
Open Scope nat_scope.

(** ** Arithmetic

    Every quantity of the program is a numpy [float64].  The operations the
    source applies to them are collected in an interface, so that each
    definition below keeps the operation order of the source and each
    structural property holds for any interpretation of the operations:
    binary64 ([float_arith]) as well as exact rationals ([Q_arith]). *)

Class Arith (A : Type) := {
  of_Z : Z -> A;              (* an [int] used where a float is expected *)
  add : A -> A -> A;
  sub : A -> A -> A;
  mul : A -> A -> A;
  div : A -> A -> A;
  neg : A -> A;
  pow : A -> nat -> A;        (* [x ** n] for an integer [n >= 0] *)
  is_zero : A -> bool;        (* [x == 0] *)
  is_nan : A -> bool;         (* what [dropna] drops *)
  absv : A -> A;
  leb : A -> A -> bool;       (* [x <= y] *)
  f_tol : A                   (* the literal [1e-10] *)
}.

Declare Scope arith_scope.
Delimit Scope arith_scope with ar.
Infix "+" := add : arith_scope.
Infix "-" := sub : arith_scope.
Infix "*" := mul : arith_scope.
Infix "/" := div : arith_scope.
Notation "- x" := (neg x) : arith_scope.
Infix "**" := pow (at level 30, right associativity) : arith_scope.

Fixpoint Qpow_nat (q : Q) (n : nat) : Q :=
  match n with
  | O => 1%Q
  | S n' => (q * Qpow_nat q n')%Q
  end.

#[export] Instance Q_arith : Arith Q := {
  of_Z := inject_Z;
  add := Qplus;
  sub := Qminus;
  mul := Qmult;
  div := Qdiv;
  neg := Qopp;
  pow := Qpow_nat;
  is_zero := fun q => Qeq_bool q 0%Q;
  is_nan := fun _ => false;
  absv := Qabs;
  leb := Qle_bool;
  f_tol := (1 # 10000000000)%Q
}.

Fixpoint float_pow_nat (x : float) (n : nat) : float :=
  match n with
  | O => 1%float
  | S n' => (x * float_pow_nat x n')%float
  end.

(** [float(n)] for a Python [int]: exact below 2^53, which covers every
    integer literal of the program. *)
Fixpoint float_of_pos (p : positive) : float :=
  match p with
  | xH => 1%float
  | xO p' => (2 * float_of_pos p')%float
  | xI p' => (2 * float_of_pos p' + 1)%float
  end.

Definition float_of_Z (z : Z) : float :=
  match z with
  | Z0 => 0%float
  | Zpos p => float_of_pos p
  | Zneg p => PrimFloat.opp (float_of_pos p)
  end.

#[export] Instance float_arith : Arith float := {
  of_Z := float_of_Z;
  add := PrimFloat.add;
  sub := PrimFloat.sub;
  mul := PrimFloat.mul;
  div := PrimFloat.div;
  neg := PrimFloat.opp;
  pow := float_pow_nat;
  is_zero := fun x => PrimFloat.eqb x 0%float;
  is_nan := PrimFloat.is_nan;
  absv := PrimFloat.abs;
  leb := PrimFloat.leb;
  f_tol := 0x1.b7cdfd9d7bdbbp-34%float
}.

(** ** Exceptions

    A Python exception is its class and its message.  [raise("...")] of a
    plain string is itself a [TypeError]. *)

Inductive exn : Type :=
| KeyError (msg : string)
| ValueError (msg : string)
| IndexError (msg : string)
| TypeError (msg : string)
| OutOfBoundsDatetime (msg : string).

Inductive result (T : Type) : Type :=
| Ok (v : T)
| Raise (e : exn).
Arguments Ok {T} v.
Arguments Raise {T} e.

Definition is_ok {T} (r : result T) : bool :=
  match r with Ok _ => true | Raise _ => false end.

Definition rbind {T U} (r : result T) (k : T -> result U) : result U :=
  match r with
  | Ok v => k v
  | Raise e => Raise e
  end.

(** ** Calendar dates

    A [Timestamp] restricted to its calendar date, at midnight, as
    [pd.to_datetime] makes it from a date string; the time of day is
    carried along unchanged by every operation used here. *)

Record date : Type := mkDate { year : nat; month : nat; day : nat }.

#[export] Instance date_eq_dec : EqDecision date.
Proof. solve_decision. Defined.

Definition is_leap (y : nat) : bool :=
  (y mod 4 =? 0) && (negb (y mod 100 =? 0) || (y mod 400 =? 0)).

Definition days_in_month (y m : nat) : nat :=
  match m with
  | 2 => if is_leap y then 29 else 28
  | 4 | 6 | 9 | 11 => 30
  | _ => 31
  end.

Definition next_day (d : date) : date :=
  if day d <? days_in_month (year d) (month d)
  then mkDate (year d) (month d) (S (day d))
  else if month d <? 12
       then mkDate (year d) (S (month d)) 1
       else mkDate (S (year d)) 1 1.

Definition is_month_end (d : date) : bool :=
  day d =? days_in_month (year d) (month d).

(** The last day of the month that lies [k] months after the month of [d]. *)
Definition month_end_after (d : date) (k : nat) : date :=
  let total := year d * 12 + (month d - 1) + k in
  let y := total / 12 in
  let m := S (total mod 12) in
  mkDate y m (days_in_month y m).

(** [Timestamp.replace(day=...)]: refused when the month has no such day. *)
Definition replace_day (dd : nat) (t : date) : result date :=
  if (1 <=? dd) && (dd <=? days_in_month (year t) (month t))
  then Ok (mkDate (year t) (month t) dd)
  else Raise (ValueError "day is out of range for month").

(** ** Amortization frequencies *)

Inductive freq : Type := FreqD | FreqM | Freq3M | Freq6M | FreqY.

Definition FREQ_PERIOD_MAP (f : freq) : Z :=
  match f with
  | FreqD => 365
  | FreqM => 12
  | Freq3M => 4
  | Freq6M => 2
  | FreqY => 1
  end%Z.

(** The months between two dates of a month-end frequency. *)
Definition freq_months (f : freq) : option nat :=
  match f with
  | FreqM => Some 1
  | Freq3M => Some 3
  | Freq6M => Some 6
  | FreqD | FreqY => None
  end.

(** The dates of a frequency from [start] on.  ['D'] steps by calendar
    days from [start]; ['M'], ['3M'] and ['6M'] are month-end offsets and
    ['Y'] is the year-end offset: the first date is [start] rolled forward
    to the next date on the offset, the following ones are one step apart. *)
Definition offset_dates (start : date) (nper : nat) (f : freq) : list date :=
  match f with
  | FreqD => (fun k => Nat.iter k next_day start) <$> seq 0 nper
  | FreqM => (fun k => month_end_after start k) <$> seq 0 nper
  | Freq3M => (fun k => month_end_after start (3 * k)) <$> seq 0 nper
  | Freq6M => (fun k => month_end_after start (6 * k)) <$> seq 0 nper
  | FreqY => (fun k => mkDate (year start + k) 12 31) <$> seq 0 nper
  end.

(** A [Timestamp] counts nanoseconds in 64 bits: at midnight it holds the
    dates from 1677-09-22 to 2262-04-11. *)
Definition Timestamp_min : date := mkDate 1677 9 22.
Definition Timestamp_max : date := mkDate 2262 4 11.

Definition date_le (a b : date) : bool :=
  (year a <? year b) ||
  ((year a =? year b) &&
   ((month a <? month b) || ((month a =? month b) && (day a <=? day b)))).

Definition in_bounds (d : date) : bool :=
  date_le Timestamp_min d && date_le d Timestamp_max.

(** The endpoint [pd.date_range] computes before it generates any date:
    for the fixed step ['D'] the exclusive end [start + nper] days, for
    the calendar offsets the last date [start + (nper - 1) * offset]. *)
Definition range_end (start : date) (nper : nat) (f : freq) : date :=
  match f with
  | FreqD => Nat.iter nper next_day start
  | FreqM => month_end_after start (nper - 1)
  | Freq3M => month_end_after start (3 * (nper - 1))
  | Freq6M => month_end_after start (6 * (nper - 1))
  | FreqY => mkDate (year start + (nper - 1)) 12 31
  end.

(** [pd.date_range(start, periods=nper, freq=f)] for a start at midnight:
    the dates of the frequency, unless the endpoint leaves the range of a
    [Timestamp], which raises [OutOfBoundsDatetime] (a [ValueError] of
    pandas) before any date is produced.  A start outside the range is no
    [Timestamp] at all. *)
Definition date_range (start : date) (nper : nat) (f : freq)
  : result (list date) :=
  if in_bounds start && in_bounds (range_end start nper f)
  then Ok (offset_dates start nper f)
  else Raise (OutOfBoundsDatetime "Out of bounds nanosecond timestamp").

(** ** Lookup tables

    A [DataFrame] as its columns in order, each with its label.  Labels
    read from a sheet are integers or strings. *)

Inductive label : Type := LInt (z : Z) | LStr (s : string).

#[export] Instance label_eq_dec : EqDecision label.
Proof. solve_decision. Defined.

Definition table (A : Type) : Type := list (label * list A).

(** [key in df] *)
Definition has_column {A} (k : label) (t : table A) : bool :=
  bool_decide (k ∈ t.*1).

(** [df[key]] for a key that is present *)
Definition column {A} (k : label) (t : table A) : option (list A) :=
  snd <$> find (fun c => bool_decide (c.1 = k)) t.

(** [df.iloc[:, c]]: position [c], counted from the end when negative. *)
Definition iloc_column {A} (c : Z) (t : table A) : result (list A) :=
  let n := Z.of_nat (length t) in
  let pos := (if c <? 0 then n + c else c)%Z in
  if ((0 <=? pos) && (pos <? n))%Z
  then match t !! Z.to_nat pos with
       | Some col => Ok col.2
       | None => Raise (IndexError "single positional indexer is out-of-bounds")
       end
  else Raise (IndexError "single positional indexer is out-of-bounds").

(** ** The loan descriptor *)

(** What [charge_off_col_num] can hold besides [None]: an [int], or a
    [bool], which Python counts among the [int]s. *)
Inductive col_num : Type :=
| NumInt (c : Z)
| NumBool (b : bool).

Record Loan (A : Type) : Type := mkLoan {
  grade : string;
  issue_date : date;
  term : nat;
  coupon : A;
  invested : A;
  outstanding_balance : A;
  recovery_rate : A;
  premium : A;
  servicing_fee : A;
  earnout_fee : A;
  amort_freq : freq;
  charge_off_lookup_key : string;
  charge_off_col_num : option col_num
}.
Arguments mkLoan {A}.
Arguments grade {A} _.
Arguments issue_date {A} _.
Arguments term {A} _.
Arguments coupon {A} _.
Arguments invested {A} _.
Arguments outstanding_balance {A} _.
Arguments recovery_rate {A} _.
Arguments premium {A} _.
Arguments servicing_fee {A} _.
Arguments earnout_fee {A} _.
Arguments amort_freq {A} _.
Arguments charge_off_lookup_key {A} _.
Arguments charge_off_col_num {A} _.

(** [Loan.__init__]: the lookup key is ['-'.join([str(term), grade])]. *)
Definition new_Loan {A} (grade : string) (issue_date : date) (term : nat)
    (coupon invested outstanding_bal recov_rate premium serv_fee earnout_fee : A)
    (amort_freq : freq) (charge_off_col_num : option col_num) : Loan A :=
  mkLoan grade issue_date term coupon invested outstanding_bal recov_rate
         premium serv_fee earnout_fee amort_freq
         (pretty term +:+ "-" +:+ grade) charge_off_col_num.

(** ** The amortization object

    Every attribute starts as [None]; the two multipliers start at 1.0. *)

Record Amortization (A : Type) : Type := mkAmortization {
  pmt_cnt : option (list nat);
  pmt_date : option (list date);
  scheduled_principal : option (list A);
  scheduled_interest : option (list A);
  scheduled_balance : option (list A);
  prepay_speed : option (list A);
  default_rate : option (list A);
  recovery : option (list A);
  servicing_cf : option (list A);
  earout_cf : option (list A);
  balance : option (list A);
  principle : option (list A);
  default : option (list A);
  prepay : option (list A);
  interest : option (list A);
  total_cf : option (list A);
  _default_multiplier : A;
  _prepay_multiplier : A
}.
Arguments mkAmortization {A}.
Arguments pmt_cnt {A} _.
Arguments pmt_date {A} _.
Arguments scheduled_principal {A} _.
Arguments scheduled_interest {A} _.
Arguments scheduled_balance {A} _.
Arguments prepay_speed {A} _.
Arguments default_rate {A} _.
Arguments recovery {A} _.
Arguments servicing_cf {A} _.
Arguments earout_cf {A} _.
Arguments balance {A} _.
Arguments principle {A} _.
Arguments default {A} _.
Arguments prepay {A} _.
Arguments interest {A} _.
Arguments total_cf {A} _.
Arguments _default_multiplier {A} _.
Arguments _prepay_multiplier {A} _.

Definition set_pmt_cnt {A} (v : option (list nat)) (st : Amortization A) : Amortization A :=
  {| pmt_cnt := v;
     pmt_date := pmt_date st;
     scheduled_principal := scheduled_principal st;
     scheduled_interest := scheduled_interest st;
     scheduled_balance := scheduled_balance st;
     prepay_speed := prepay_speed st;
     default_rate := default_rate st;
     recovery := recovery st;
     servicing_cf := servicing_cf st;
     earout_cf := earout_cf st;
     balance := balance st;
     principle := principle st;
     default := default st;
     prepay := prepay st;
     interest := interest st;
     total_cf := total_cf st;
     _default_multiplier := _default_multiplier st;
     _prepay_multiplier := _prepay_multiplier st |}.

Definition set_pmt_date {A} (v : option (list date)) (st : Amortization A) : Amortization A :=
  {| pmt_cnt := pmt_cnt st;
     pmt_date := v;
     scheduled_principal := scheduled_principal st;
     scheduled_interest := scheduled_interest st;
     scheduled_balance := scheduled_balance st;
     prepay_speed := prepay_speed st;
     default_rate := default_rate st;
     recovery := recovery st;
     servicing_cf := servicing_cf st;
     earout_cf := earout_cf st;
     balance := balance st;
     principle := principle st;
     default := default st;
     prepay := prepay st;
     interest := interest st;
     total_cf := total_cf st;
     _default_multiplier := _default_multiplier st;
     _prepay_multiplier := _prepay_multiplier st |}.

Definition set_scheduled_principal {A} (v : option (list A)) (st : Amortization A) : Amortization A :=
  {| pmt_cnt := pmt_cnt st;
     pmt_date := pmt_date st;
     scheduled_principal := v;
     scheduled_interest := scheduled_interest st;
     scheduled_balance := scheduled_balance st;
     prepay_speed := prepay_speed st;
     default_rate := default_rate st;
     recovery := recovery st;
     servicing_cf := servicing_cf st;
     earout_cf := earout_cf st;
     balance := balance st;
     principle := principle st;
     default := default st;
     prepay := prepay st;
     interest := interest st;
     total_cf := total_cf st;
     _default_multiplier := _default_multiplier st;
     _prepay_multiplier := _prepay_multiplier st |}.

Definition set_scheduled_interest {A} (v : option (list A)) (st : Amortization A) : Amortization A :=
  {| pmt_cnt := pmt_cnt st;
     pmt_date := pmt_date st;
     scheduled_principal := scheduled_principal st;
     scheduled_interest := v;
     scheduled_balance := scheduled_balance st;
     prepay_speed := prepay_speed st;
     default_rate := default_rate st;
     recovery := recovery st;
     servicing_cf := servicing_cf st;
     earout_cf := earout_cf st;
     balance := balance st;
     principle := principle st;
     default := default st;
     prepay := prepay st;
     interest := interest st;
     total_cf := total_cf st;
     _default_multiplier := _default_multiplier st;
     _prepay_multiplier := _prepay_multiplier st |}.

Definition set_scheduled_balance {A} (v : option (list A)) (st : Amortization A) : Amortization A :=
  {| pmt_cnt := pmt_cnt st;
     pmt_date := pmt_date st;
     scheduled_principal := scheduled_principal st;
     scheduled_interest := scheduled_interest st;
     scheduled_balance := v;
     prepay_speed := prepay_speed st;
     default_rate := default_rate st;
     recovery := recovery st;
     servicing_cf := servicing_cf st;
     earout_cf := earout_cf st;
     balance := balance st;
     principle := principle st;
     default := default st;
     prepay := prepay st;
     interest := interest st;
     total_cf := total_cf st;
     _default_multiplier := _default_multiplier st;
     _prepay_multiplier := _prepay_multiplier st |}.

Definition set_prepay_speed {A} (v : option (list A)) (st : Amortization A) : Amortization A :=
  {| pmt_cnt := pmt_cnt st;
     pmt_date := pmt_date st;
     scheduled_principal := scheduled_principal st;
     scheduled_interest := scheduled_interest st;
     scheduled_balance := scheduled_balance st;
     prepay_speed := v;
     default_rate := default_rate st;
     recovery := recovery st;
     servicing_cf := servicing_cf st;
     earout_cf := earout_cf st;
     balance := balance st;
     principle := principle st;
     default := default st;
     prepay := prepay st;
     interest := interest st;
     total_cf := total_cf st;
     _default_multiplier := _default_multiplier st;
     _prepay_multiplier := _prepay_multiplier st |}.

Definition set_default_rate {A} (v : option (list A)) (st : Amortization A) : Amortization A :=
  {| pmt_cnt := pmt_cnt st;
     pmt_date := pmt_date st;
     scheduled_principal := scheduled_principal st;
     scheduled_interest := scheduled_interest st;
     scheduled_balance := scheduled_balance st;
     prepay_speed := prepay_speed st;
     default_rate := v;
     recovery := recovery st;
     servicing_cf := servicing_cf st;
     earout_cf := earout_cf st;
     balance := balance st;
     principle := principle st;
     default := default st;
     prepay := prepay st;
     interest := interest st;
     total_cf := total_cf st;
     _default_multiplier := _default_multiplier st;
     _prepay_multiplier := _prepay_multiplier st |}.

Definition set_recovery {A} (v : option (list A)) (st : Amortization A) : Amortization A :=
  {| pmt_cnt := pmt_cnt st;
     pmt_date := pmt_date st;
     scheduled_principal := scheduled_principal st;
     scheduled_interest := scheduled_interest st;
     scheduled_balance := scheduled_balance st;
     prepay_speed := prepay_speed st;
     default_rate := default_rate st;
     recovery := v;
     servicing_cf := servicing_cf st;
     earout_cf := earout_cf st;
     balance := balance st;
     principle := principle st;
     default := default st;
     prepay := prepay st;
     interest := interest st;
     total_cf := total_cf st;
     _default_multiplier := _default_multiplier st;
     _prepay_multiplier := _prepay_multiplier st |}.

Definition set_servicing_cf {A} (v : option (list A)) (st : Amortization A) : Amortization A :=
  {| pmt_cnt := pmt_cnt st;
     pmt_date := pmt_date st;
     scheduled_principal := scheduled_principal st;
     scheduled_interest := scheduled_interest st;
     scheduled_balance := scheduled_balance st;
     prepay_speed := prepay_speed st;
     default_rate := default_rate st;
     recovery := recovery st;
     servicing_cf := v;
     earout_cf := earout_cf st;
     balance := balance st;
     principle := principle st;
     default := default st;
     prepay := prepay st;
     interest := interest st;
     total_cf := total_cf st;
     _default_multiplier := _default_multiplier st;
     _prepay_multiplier := _prepay_multiplier st |}.

Definition set_earout_cf {A} (v : option (list A)) (st : Amortization A) : Amortization A :=
  {| pmt_cnt := pmt_cnt st;
     pmt_date := pmt_date st;
     scheduled_principal := scheduled_principal st;
     scheduled_interest := scheduled_interest st;
     scheduled_balance := scheduled_balance st;
     prepay_speed := prepay_speed st;
     default_rate := default_rate st;
     recovery := recovery st;
     servicing_cf := servicing_cf st;
     earout_cf := v;
     balance := balance st;
     principle := principle st;
     default := default st;
     prepay := prepay st;
     interest := interest st;
     total_cf := total_cf st;
     _default_multiplier := _default_multiplier st;
     _prepay_multiplier := _prepay_multiplier st |}.

Definition set_balance {A} (v : option (list A)) (st : Amortization A) : Amortization A :=
  {| pmt_cnt := pmt_cnt st;
     pmt_date := pmt_date st;
     scheduled_principal := scheduled_principal st;
     scheduled_interest := scheduled_interest st;
     scheduled_balance := scheduled_balance st;
     prepay_speed := prepay_speed st;
     default_rate := default_rate st;
     recovery := recovery st;
     servicing_cf := servicing_cf st;
     earout_cf := earout_cf st;
     balance := v;
     principle := principle st;
     default := default st;
     prepay := prepay st;
     interest := interest st;
     total_cf := total_cf st;
     _default_multiplier := _default_multiplier st;
     _prepay_multiplier := _prepay_multiplier st |}.

Definition set_principle {A} (v : option (list A)) (st : Amortization A) : Amortization A :=
  {| pmt_cnt := pmt_cnt st;
     pmt_date := pmt_date st;
     scheduled_principal := scheduled_principal st;
     scheduled_interest := scheduled_interest st;
     scheduled_balance := scheduled_balance st;
     prepay_speed := prepay_speed st;
     default_rate := default_rate st;
     recovery := recovery st;
     servicing_cf := servicing_cf st;
     earout_cf := earout_cf st;
     balance := balance st;
     principle := v;
     default := default st;
     prepay := prepay st;
     interest := interest st;
     total_cf := total_cf st;
     _default_multiplier := _default_multiplier st;
     _prepay_multiplier := _prepay_multiplier st |}.

Definition set_default {A} (v : option (list A)) (st : Amortization A) : Amortization A :=
  {| pmt_cnt := pmt_cnt st;
     pmt_date := pmt_date st;
     scheduled_principal := scheduled_principal st;
     scheduled_interest := scheduled_interest st;
     scheduled_balance := scheduled_balance st;
     prepay_speed := prepay_speed st;
     default_rate := default_rate st;
     recovery := recovery st;
     servicing_cf := servicing_cf st;
     earout_cf := earout_cf st;
     balance := balance st;
     principle := principle st;
     default := v;
     prepay := prepay st;
     interest := interest st;
     total_cf := total_cf st;
     _default_multiplier := _default_multiplier st;
     _prepay_multiplier := _prepay_multiplier st |}.

Definition set_prepay {A} (v : option (list A)) (st : Amortization A) : Amortization A :=
  {| pmt_cnt := pmt_cnt st;
     pmt_date := pmt_date st;
     scheduled_principal := scheduled_principal st;
     scheduled_interest := scheduled_interest st;
     scheduled_balance := scheduled_balance st;
     prepay_speed := prepay_speed st;
     default_rate := default_rate st;
     recovery := recovery st;
     servicing_cf := servicing_cf st;
     earout_cf := earout_cf st;
     balance := balance st;
     principle := principle st;
     default := default st;
     prepay := v;
     interest := interest st;
     total_cf := total_cf st;
     _default_multiplier := _default_multiplier st;
     _prepay_multiplier := _prepay_multiplier st |}.

Definition set_interest {A} (v : option (list A)) (st : Amortization A) : Amortization A :=
  {| pmt_cnt := pmt_cnt st;
     pmt_date := pmt_date st;
     scheduled_principal := scheduled_principal st;
     scheduled_interest := scheduled_interest st;
     scheduled_balance := scheduled_balance st;
     prepay_speed := prepay_speed st;
     default_rate := default_rate st;
     recovery := recovery st;
     servicing_cf := servicing_cf st;
     earout_cf := earout_cf st;
     balance := balance st;
     principle := principle st;
     default := default st;
     prepay := prepay st;
     interest := v;
     total_cf := total_cf st;
     _default_multiplier := _default_multiplier st;
     _prepay_multiplier := _prepay_multiplier st |}.

Definition set_total_cf {A} (v : option (list A)) (st : Amortization A) : Amortization A :=
  {| pmt_cnt := pmt_cnt st;
     pmt_date := pmt_date st;
     scheduled_principal := scheduled_principal st;
     scheduled_interest := scheduled_interest st;
     scheduled_balance := scheduled_balance st;
     prepay_speed := prepay_speed st;
     default_rate := default_rate st;
     recovery := recovery st;
     servicing_cf := servicing_cf st;
     earout_cf := earout_cf st;
     balance := balance st;
     principle := principle st;
     default := default st;
     prepay := prepay st;
     interest := interest st;
     total_cf := v;
     _default_multiplier := _default_multiplier st;
     _prepay_multiplier := _prepay_multiplier st |}.

Definition set_default_multiplier {A} (v : A) (st : Amortization A) : Amortization A :=
  {| pmt_cnt := pmt_cnt st;
     pmt_date := pmt_date st;
     scheduled_principal := scheduled_principal st;
     scheduled_interest := scheduled_interest st;
     scheduled_balance := scheduled_balance st;
     prepay_speed := prepay_speed st;
     default_rate := default_rate st;
     recovery := recovery st;
     servicing_cf := servicing_cf st;
     earout_cf := earout_cf st;
     balance := balance st;
     principle := principle st;
     default := default st;
     prepay := prepay st;
     interest := interest st;
     total_cf := total_cf st;
     _default_multiplier := v;
     _prepay_multiplier := _prepay_multiplier st |}.

Definition set_prepay_multiplier {A} (v : A) (st : Amortization A) : Amortization A :=
  {| pmt_cnt := pmt_cnt st;
     pmt_date := pmt_date st;
     scheduled_principal := scheduled_principal st;
     scheduled_interest := scheduled_interest st;
     scheduled_balance := scheduled_balance st;
     prepay_speed := prepay_speed st;
     default_rate := default_rate st;
     recovery := recovery st;
     servicing_cf := servicing_cf st;
     earout_cf := earout_cf st;
     balance := balance st;
     principle := principle st;
     default := default st;
     prepay := prepay st;
     interest := interest st;
     total_cf := total_cf st;
     _default_multiplier := _default_multiplier st;
     _prepay_multiplier := v |}.

Definition new_Amortization {A} `{Arith A} : Amortization A :=
  {| pmt_cnt := None;
     pmt_date := None;
     scheduled_principal := None;
     scheduled_interest := None;
     scheduled_balance := None;
     prepay_speed := None;
     default_rate := None;
     recovery := None;
     servicing_cf := None;
     earout_cf := None;
     balance := None;
     principle := None;
     default := None;
     prepay := None;
     interest := None;
     total_cf := None;
     _default_multiplier := of_Z 1;
     _prepay_multiplier := of_Z 1 |}.

(** ** Methods as state transformers

    A method runs on the object and either returns or raises; what it
    assigned to the object before raising stays assigned. *)

Definition M (A T : Type) : Type := Amortization A -> Amortization A * result T.

Definition ret {A T} (v : T) : M A T := fun st => (st, Ok v).

Definition raise {A T} (e : exn) : M A T := fun st => (st, Raise e).

Definition bind {A T U} (c : M A T) (k : T -> M A U) : M A U :=
  fun st =>
    match c st with
    | (st', Ok v) => k v st'
    | (st', Raise e) => (st', Raise e)
    end.

Definition lift {A T} (r : result T) : M A T := fun st => (st, r).

Declare Scope method_scope.
Delimit Scope method_scope with method.
Notation "'let*' x ':=' c 'in' k" := (bind c (fun x => k))
  (at level 10, x name, c at level 100, k at level 200) : method_scope.
Notation "c ';;' k" := (bind c (fun _ => k))
  (at level 100, k at level 200, right associativity) : method_scope.

(** [self.f = v] *)
Definition assign {A T} (set : T -> Amortization A -> Amortization A) (v : T)
  : M A unit := fun st => (set v st, Ok tt).

(** Reading [self.f] where the code needs an array. *)
Definition attr {A T} (get : Amortization A -> option T) : M A T :=
  fun st =>
    match get st with
    | Some v => (st, Ok v)
    | None => (st, Raise (TypeError "'NoneType' object is not subscriptable"))
    end.

(** [a[i]] for an index [i >= 0] *)
Definition getitem {T} (a : list T) (i : nat) : result T :=
  match a !! i with
  | Some v => Ok v
  | None => Raise (IndexError "index is out of bounds")
  end.

(** [self.f[i] = v] for an index [i >= 0] *)
Definition setitem {A T} (get : Amortization A -> option (list T))
    (set : option (list T) -> Amortization A -> Amortization A)
    (i : nat) (v : T) : M A unit :=
  fun st =>
    match get st with
    | None => (st, Raise (TypeError "'NoneType' object does not support item assignment"))
    | Some a =>
        if i <? length a
        then (set (Some (<[i:=v]> a)) st, Ok tt)
        else (st, Raise (IndexError "index is out of bounds"))
    end.

(** Reading a scalar attribute [self.f] *)
Definition field {A T} (get : Amortization A -> T) : M A T :=
  fun st => (st, Ok (get st)).

(** Reading [self.f[i]] for an index [i >= 0] *)
Definition rd {A T} (get : Amortization A -> option (list T)) (i : nat)
  : M A T :=
  bind (attr get) (fun a => lift (getitem a i)).

(** [for i in ...: body] *)
Fixpoint for_each {A} (l : list nat) (body : nat -> M A unit) : M A unit :=
  match l with
  | [] => ret tt
  | i :: l' => bind (body i) (fun _ => for_each l' body)
  end.

Fixpoint result_mapM {T U} (f : T -> result U) (l : list T) : result (list U) :=
  match l with
  | [] => Ok []
  | x :: l' =>
      rbind (f x) (fun y => rbind (result_mapM f l') (fun ys => Ok (y :: ys)))
  end.

(** The selector of [fetch_default_rate]: an [int], a [bool] (which
    [isinstance(_, int)] accepts), a [str], or a value of any other type
    ([None], a float, ...). *)
Inductive selector : Type :=
| SelInt (c : Z)
| SelBool (b : bool)
| SelStr (s : string)
| SelOther.

(** [str(b)] *)
Definition bool_str (b : bool) : string :=
  if b then "True" else "False".

(** One column of the data frame: an array of its element type, or a
    [None] attribute, which [pd.DataFrame] repeats down the column. *)
Inductive df_column (A : Type) : Type :=
| ColNat (l : list nat)
| ColDate (l : list date)
| ColFloat (l : list A)
| ColNone.
Arguments ColNat {A} l.
Arguments ColDate {A} l.
Arguments ColFloat {A} l.
Arguments ColNone {A}.

Definition DataFrame (A : Type) : Type := list (string * df_column A).

Definition col_length {A} (c : df_column A) : option nat :=
  match c with
  | ColNat l => Some (length l)
  | ColDate l => Some (length l)
  | ColFloat l => Some (length l)
  | ColNone => None
  end.

Definition col_fits {A} (n : nat) (c : df_column A) : bool :=
  match col_length c with
  | Some k => k =? n
  | None => true
  end.

Definition col_nat {A} (o : option (list nat)) : df_column A :=
  match o with Some l => ColNat l | None => ColNone end.

Definition col_float {A} (o : option (list A)) : df_column A :=
  match o with Some l => ColFloat l | None => ColNone end.

(** ** numpy_financial

    [pmt], [fv], [ipmt] and [ppmt] of numpy_financial 1.0 at the arguments
    the program passes: [fv = 0] and [when = 'end'] (that is, [0]), a
    period [per >= 1]. *)

Section NumpyFinancial.
Context {A : Type} `{Arith A}.
Local Open Scope arith_scope.

Definition npf_pmt (rate : A) (nper : nat) (pv : A) : A :=
  let fv := of_Z 0 in
  let when := of_Z 0 in
  let temp := (of_Z 1 + rate) ** nper in
  let fact := if is_zero rate
              then of_Z (Z.of_nat nper)
              else (of_Z 1 + rate * when) * (temp - of_Z 1) / rate in
  - (fv + pv * temp) / fact.

Definition npf_fv (rate : A) (nper : nat) (pmt pv : A) : A :=
  let when := of_Z 0 in
  let temp := (of_Z 1 + rate) ** nper in
  let fact := if is_zero rate
              then of_Z (Z.of_nat nper)
              else (of_Z 1 + rate * when) * (temp - of_Z 1) / rate in
  - (pv * temp + pmt * fact).

(** The remaining balance before period [per]: [_rbl]. *)
Definition npf_rbl (rate : A) (per : nat) (pmt pv : A) : A :=
  npf_fv rate (per - 1) pmt pv.

Definition npf_ipmt (rate : A) (per nper : nat) (pv : A) : A :=
  let total_pmt := npf_pmt rate nper pv in
  npf_rbl rate per total_pmt pv * rate.

Definition npf_ppmt (rate : A) (per nper : nat) (pv : A) : A :=
  let total := npf_pmt rate nper pv in
  total - npf_ipmt rate per nper pv.
End NumpyFinancial.

(** ** The methods of [Amortization] *)

Section Methods.
Context {A : Type} `{Arith A}.
(** The two module-level tables of [input.py]. *)
Variables CHARGED_OFF PREPAY : table A.
Local Open Scope arith_scope.
Local Open Scope method_scope.

Definition zeros (n : nat) : list A := replicate n (of_Z 0).

Definition payment_date (start_date : date) (periods : nat) (f : freq)
  : M A unit :=
  let nper := (periods + 1)%nat in
  let* raw := lift (date_range start_date nper f) in
  assign set_pmt_date (Some raw) ;;
  let* d0 := lift (getitem raw 0) in
  if negb (day start_date =? day d0)%nat
  then let* fixed := lift (result_mapM (replace_day (day start_date)) raw) in
       assign set_pmt_date (Some fixed)
  else ret tt.

Definition fetch_prepay_speed (nper : nat) : M A unit :=
  if negb (has_column (LInt (Z.of_nat nper)) PREPAY)
  then raise (KeyError (pretty nper +:+ " cannot be found in the Prepay table"))
  else
    assign set_prepay_speed (Some (zeros (nper + 1))) ;;
    match column (LInt (Z.of_nat nper)) PREPAY with
    | None => raise (KeyError (pretty nper))
    | Some col =>
        let vals := List.filter (fun x => negb (is_nan x)) col in
        if (length vals =? nper)%nat
        then assign set_prepay_speed (Some (of_Z 0 :: vals))
        else match vals with
             | [v] => assign set_prepay_speed (Some (of_Z 0 :: replicate nper v))
             | _ => raise (ValueError "could not broadcast input array")
             end
    end.

Definition fetch_default_rate (chargeoff_col : selector) : M A unit :=
  match chargeoff_col with
  | SelInt c =>
      if (c >=? Z.of_nat (length CHARGED_OFF))%Z
      then raise (ValueError (pretty c +:+ " exceeds Charge Off table's column index."))
      else let* col := lift (iloc_column c CHARGED_OFF) in
           assign set_default_rate (Some col)
  | SelBool b =>
      if (Z.b2z b >=? Z.of_nat (length CHARGED_OFF))%Z
      then raise (ValueError (bool_str b +:+ " exceeds Charge Off table's column index."))
      else raise (ValueError "Can only index by location with a [integer, integer slice (START point is INCLUDED, END point is EXCLUDED), listlike of integers, boolean array]")
  | SelStr s =>
      if negb (has_column (LStr s) CHARGED_OFF)
      then raise (KeyError (s +:+ " cannot be found in the Charge Off table"))
      else match column (LStr s) CHARGED_OFF with
           | Some col => assign set_default_rate (Some col)
           | None => raise (KeyError s)
           end
  | SelOther =>
      raise (KeyError "chargeoff_col argument must be either a str or an int")
  end.

Definition calc_scheduled_cashflow (loan : Loan A) : M A unit :=
  let rate := coupon loan / of_Z (FREQ_PERIOD_MAP (amort_freq loan)) in
  let nper := term loan in
  let pv := - invested loan in
  let nper_1 := (nper + 1)%nat in
  let cnt := seq 0 nper_1 in
  assign set_pmt_cnt (Some cnt) ;;
  assign set_scheduled_principal
    (Some (of_Z 0 :: ((fun per => npf_ppmt rate per nper pv) <$> drop 1 cnt))) ;;
  assign set_scheduled_interest
    (Some (of_Z 0 :: ((fun per => npf_ipmt rate per nper pv) <$> drop 1 cnt))) ;;
  assign set_scheduled_balance (Some (zeros nper_1)) ;;
  setitem scheduled_balance set_scheduled_balance 0 (invested loan) ;;
  for_each (seq 1 (nper_1 - 1)) (fun i =>
    let* b := rd scheduled_balance (i - 1) in
    let* p := rd scheduled_principal i in
    setitem scheduled_balance set_scheduled_balance i (b - p)).

(** One pass of the loop body of the adjustment recurrence; operands are
    read in the order Python evaluates them. *)
Definition adjust_period (rate : A) (i : nat) : M A unit :=
  let* b1 := rd balance (i - 1) in
  let* r1 := rd default_rate (i - 1) in
  let* dm := field _default_multiplier in
  setitem default set_default i (b1 * r1 * dm) ;;
  let* b1 := rd balance (i - 1) in
  let* b1' := rd balance (i - 1) in
  let* si_i := rd scheduled_interest i in
  let* sb_1 := rd scheduled_balance (i - 1) in
  let* sp_i := rd scheduled_principal i in
  let* ps_i := rd prepay_speed i in
  let* pm := field _prepay_multiplier in
  setitem prepay set_prepay i
    ((b1 - (b1' - si_i) / sb_1 * sp_i) * ps_i * pm) ;;
  let* b1 := rd balance (i - 1) in
  let* d_i := rd default i in
  let* sp_i := rd scheduled_principal i in
  let* sb_1 := rd scheduled_balance (i - 1) in
  let* pre_i := rd prepay i in
  setitem principle set_principle i
    ((b1 - d_i) * sp_i / sb_1 + pre_i) ;;
  let* b1 := rd balance (i - 1) in
  let* pr_i := rd principle i in
  let* d_i := rd default i in
  setitem balance set_balance i (b1 - pr_i - d_i) ;;
  let* b1 := rd balance (i - 1) in
  let* d_i := rd default i in
  setitem interest set_interest i ((b1 - d_i) * rate).

Definition calc_default_prepay_adjust_cashflow (loan : Loan A) : M A unit :=
  fun st0 =>
  match pmt_cnt st0 with
  | None => (st0, Raise (TypeError "exceptions must derive from BaseException"))
  | Some cnt =>
    (let nper := length cnt in
     assign set_balance (Some (zeros nper)) ;;
     assign set_default (Some (zeros nper)) ;;
     assign set_prepay (Some (zeros nper)) ;;
     assign set_principle (Some (zeros nper)) ;;
     assign set_interest (Some (zeros nper)) ;;
     let nper_per_year := of_Z (FREQ_PERIOD_MAP (amort_freq loan)) in
     let rate := coupon loan / nper_per_year in
     let* sb0 := rd scheduled_balance 0 in
     setitem balance set_balance 0 sb0 ;;
     for_each (seq 1 (nper - 1)) (adjust_period rate) ;;
     let* dflt := attr default in
     assign set_recovery (Some ((fun d => d * recovery_rate loan) <$> dflt)) ;;
     assign set_servicing_cf (Some (zeros nper)) ;;
     let* bal := attr balance in
     let* dflt := attr default in
     assign set_servicing_cf
       (Some (of_Z 0 ::
              ((fun x => x * servicing_fee loan / nper_per_year) <$>
               zip_with sub (take (length bal - 1) bal) (drop 1 dflt)))) ;;
     assign set_earout_cf (Some (zeros nper)) ;;
     let fee := earnout_fee loan / of_Z 2 * invested loan in
     setitem earout_cf set_earout_cf 12 fee ;;
     setitem earout_cf set_earout_cf 18 fee ;;
     let* pr := attr principle in
     let* int := attr interest in
     let* rec := attr recovery in
     let* srv := attr servicing_cf in
     let* ear := attr earout_cf in
     assign set_total_cf
       (Some (zip_with sub
                (zip_with sub
                   (zip_with add (zip_with add pr int) rec) srv) ear)) ;;
     setitem total_cf set_total_cf 0
       (- invested loan * (of_Z 1 + premium loan))) st0
  end.

Definition to_dataframe : M A (DataFrame A) :=
  fun st =>
  match pmt_date st with
  | None => (st, Raise (TypeError "object of type 'NoneType' has no len()"))
  | Some dates =>
    let months := seq 1 (length dates) in
    match default_rate st with
    | None => (st, Raise (TypeError "'NoneType' object is not subscriptable"))
    | Some dr =>
      let field_dict : DataFrame A :=
        [ ("Months", ColNat months);
          ("Paymnt_Count", col_nat (pmt_cnt st));
          ("Payment_Date", ColDate dates);
          ("Scheduled_Principal", col_float (scheduled_principal st));
          ("Scheduled_Interest", col_float (scheduled_interest st));
          ("Scheduled_Balance", col_float (scheduled_balance st));
          ("Prepay_Speed", col_float (prepay_speed st));
          ("Default_Rate", ColFloat (take (length months) dr));
          ("Recovery", col_float (recovery st));
          ("Servicing_CF", col_float (servicing_cf st));
          ("Earnout_CF", col_float (earout_cf st));
          ("Balance", col_float (balance st));
          ("Principal", col_float (principle st));
          ("Default", col_float (default st));
          ("Prepay", col_float (prepay st));
          ("Interest_Amount", col_float (interest st));
          ("Total_CF", col_float (total_cf st)) ] in
      if forallb (fun c => col_fits (length months) c.2) field_dict
      then (st, Ok field_dict)
      else (st, Raise (ValueError "All arrays must be of the same length"))
    end
  end.

(** The argument [calc_cashflows] passes to [fetch_default_rate]: the
    column number when it is truthy, the lookup key otherwise. *)
Definition default_rate_selector (loan : Loan A) : selector :=
  match charge_off_col_num loan with
  | Some (NumInt c) => if (c =? 0)%Z then SelStr (charge_off_lookup_key loan)
                       else SelInt c
  | Some (NumBool b) => if b then SelBool true
                        else SelStr (charge_off_lookup_key loan)
  | None => SelStr (charge_off_lookup_key loan)
  end.

Definition calc_cashflows (loan : Loan A) : M A (DataFrame A) :=
  fetch_prepay_speed (term loan) ;;
  fetch_default_rate (default_rate_selector loan) ;;
  payment_date (issue_date loan) (term loan) (amort_freq loan) ;;
  calc_scheduled_cashflow loan ;;
  calc_default_prepay_adjust_cashflow loan ;;
  to_dataframe.
End Methods.

(** ** The IRR solver

    [scipy.optimize.broyden1(F, x0, f_tol=...)] runs at most [maxiter]
    iterations.  Each one first tests the residual of the current iterate
    against the absolute tolerance and stops when it is met; otherwise it
    moves to the next iterate.  When the iterations are used up it raises
    [NoConvergence] carrying the last iterate.  How the next iterate is
    found (the Jacobian approximation and the line search) is a parameter:
    [update], which may itself raise.

    Two details of the library's first pass are not modelled: before any
    step is taken it stops only on a residual that is exactly zero, and it
    raises [ValueError] when the residual of the initial guess is not
    finite.  A residual of zero meets every tolerance that is not negative,
    so the tolerance test below holds of every iterate the library returns,
    and neither detail touches what [NoConvergence] carries. *)

Inductive solver_exn (A : Type) : Type :=
| NoConvergence (x : A)
| OtherError (e : exn).
Arguments NoConvergence {A} x.
Arguments OtherError {A} e.

Section Solver.
Context {A : Type} `{Arith A}.
Local Open Scope arith_scope.

(** Iterates carry the solver's private state [S]; [current] is the
    point [x] of an iterate. *)
Context {S : Type}.
Variable setup : (A -> A) -> A -> S.
Variable current : S -> A.
Variable update : (A -> A) -> S -> result S.

Fixpoint nonlin_solve (F : A -> A) (tol : A) (maxiter : nat) (s : S)
  : A + solver_exn A :=
  match maxiter with
  | O => inr (NoConvergence (current s))
  | Datatypes.S n =>
      if leb (absv (F (current s))) tol
      then inl (current s)
      else match update F s with
           | Ok s' => nonlin_solve F tol n s'
           | Raise e => inr (OtherError e)
           end
  end.

(** The iterate after [n] updates. *)
Fixpoint iterate (F : A -> A) (n : nat) (s : S) : result S :=
  match n with
  | O => Ok s
  | Datatypes.S n' => rbind (update F s) (iterate F n')
  end.

(** The default budget for a scalar unknown: [100 * (x.size + 1)]. *)
Definition default_maxiter : nat := 200.

Definition broyden1 (F : A -> A) (x0 : A) (tol : A) : A + solver_exn A :=
  nonlin_solve F tol default_maxiter (setup F x0).

(** [sum(cashflow / (1+r)**periods)] with [periods = arange(len(cashflow))];
    [sum] adds from the left, starting at [0]. *)
Definition npv (cashflow : list A) (r : A) : A :=
  let periods := seq 0 (length cashflow) in
  foldl add (of_Z 0)
    (zip_with (fun c t => c / (of_Z 1 + r) ** t) cashflow periods).

(** [irr] returns its result, or raises, together with the warnings it
    logged. *)
Definition irr (cashflow : list A) (guess : A) : result A * list string :=
  match broyden1 (npv cashflow) guess f_tol with
  | inl r => (Ok r, [])
  | inr (NoConvergence x) => (Ok x, ["IRR solver doesn't converge!"])
  | inr (OtherError e) => (Raise e, [])
  end.
End Solver.

(** [a[i]] of an attribute that may still be [None] *)
Definition elem {T} (a : option (list T)) (i : nat) : option T :=
  match a with
  | Some l => l !! i
  | None => None
  end.

(** ** The recurrence as the specification words it

    What period [i] of the adjustment recurrence must satisfy, read off
    the attributes of the object: every operand is an entry of a series,
    and each realized quantity is the stated expression of them. *)

Section Recurrence.
Context {A : Type} `{Arith A}.
Local Open Scope arith_scope.

Definition recurrence_at (rate : A) (st : Amortization A) (i : nat) : Prop :=
  exists b1 r1 si_i sb_1 sp_i ps_i d_i pre_i pr_i,
    elem (balance st) (i - 1) = Some b1 /\
    elem (default_rate st) (i - 1) = Some r1 /\
    elem (scheduled_interest st) i = Some si_i /\
    elem (scheduled_balance st) (i - 1) = Some sb_1 /\
    elem (scheduled_principal st) i = Some sp_i /\
    elem (prepay_speed st) i = Some ps_i /\
    elem (default st) i = Some d_i /\
    d_i = b1 * r1 * _default_multiplier st /\
    elem (prepay st) i = Some pre_i /\
    pre_i = (b1 - (b1 - si_i) / sb_1 * sp_i) * ps_i * _prepay_multiplier st /\
    elem (principle st) i = Some pr_i /\
    pr_i = (b1 - d_i) * sp_i / sb_1 + pre_i /\
    elem (balance st) i = Some (b1 - pr_i - d_i) /\
    elem (interest st) i = Some ((b1 - d_i) * rate).

(** The series the recurrence reads but never writes. *)
Definition same_inputs (st st' : Amortization A) : Prop :=
  pmt_cnt st' = pmt_cnt st /\
  pmt_date st' = pmt_date st /\
  scheduled_principal st' = scheduled_principal st /\
  scheduled_interest st' = scheduled_interest st /\
  scheduled_balance st' = scheduled_balance st /\
  prepay_speed st' = prepay_speed st /\
  default_rate st' = default_rate st /\
  _default_multiplier st' = _default_multiplier st /\
  _prepay_multiplier st' = _prepay_multiplier st.

(** [a'] is [a] with entry [j] overwritten. *)
Definition upd_at (j : nat) (a a' : option (list A)) : Prop :=
  exists l v, a = Some l /\ j < length l /\ a' = Some (<[j:=v]> l).

Definition flows_upd_at (j : nat) (st st' : Amortization A) : Prop :=
  upd_at j (balance st) (balance st') /\
  upd_at j (default st) (default st') /\
  upd_at j (prepay st) (prepay st') /\
  upd_at j (principle st) (principle st') /\
  upd_at j (interest st) (interest st').

(** The five realized series all have [n] entries. *)
Definition flows_length (n : nat) (st : Amortization A) : Prop :=
  length <$> balance st = Some n /\
  length <$> default st = Some n /\
  length <$> prepay st = Some n /\
  length <$> principle st = Some n /\
  length <$> interest st = Some n.

(** The five realized series keep their lengths and their entry 0. *)
Definition flows_frame (st st' : Amortization A) : Prop :=
  (elem (balance st') 0 = elem (balance st) 0 /\
   length <$> balance st' = length <$> balance st) /\
  (elem (default st') 0 = elem (default st) 0 /\
   length <$> default st' = length <$> default st) /\
  (elem (prepay st') 0 = elem (prepay st) 0 /\
   length <$> prepay st' = length <$> prepay st) /\
  (elem (principle st') 0 = elem (principle st) 0 /\
   length <$> principle st' = length <$> principle st) /\
  (elem (interest st') 0 = elem (interest st) 0 /\
   length <$> interest st' = length <$> interest st).

(** What period [i] of the total cash flow must satisfy. *)
Definition total_cf_at (loan : Loan A) (st : Amortization A) (i : nat) : Prop :=
  exists p int r s e d b1,
    elem (principle st) i = Some p /\
    elem (interest st) i = Some int /\
    elem (recovery st) i = Some r /\
    elem (servicing_cf st) i = Some s /\
    elem (earout_cf st) i = Some e /\
    elem (default st) i = Some d /\
    elem (balance st) (i - 1) = Some b1 /\
    elem (total_cf st) i = Some (p + int + r - s - e) /\
    r = d * recovery_rate loan /\
    s = (b1 - d) * servicing_fee loan /
        of_Z (FREQ_PERIOD_MAP (amort_freq loan)).

(** The periodic coupon rate of a loan. *)
Definition periodic_rate (loan : Loan A) : A :=
  coupon loan / of_Z (FREQ_PERIOD_MAP (amort_freq loan)).

(** The inputs of the recurrence reach far enough for [n] periods. *)
Definition inputs_cover (n : nat) (st : Amortization A) : Prop :=
  exists dr si sb sp ps,
    default_rate st = Some dr /\ scheduled_interest st = Some si /\
    scheduled_balance st = Some sb /\ scheduled_principal st = Some sp /\
    prepay_speed st = Some ps /\
    n - 1 <= length dr /\ n <= length si /\ n <= length sb /\
    n <= length sp /\ n <= length ps.

(** The earnout fee paid at each of the two fixed periods. *)
Definition earnout_amount (loan : Loan A) : A :=
  earnout_fee loan / of_Z 2 * invested loan.

(** The scheduled amortization followed by the adjustment recurrence,
    steps 4 and 5 of the orchestration. *)
Definition run_recurrence (loan : Loan A) (st0 : Amortization A)
  : Amortization A * result unit :=
  calc_default_prepay_adjust_cashflow loan (calc_scheduled_cashflow loan st0).1.

(** Every series of the object other than the default-rate series has [n]
    entries. *)
Definition series_lengths (n : nat) (st : Amortization A) : Prop :=
  length <$> pmt_cnt st = Some n /\
  length <$> pmt_date st = Some n /\
  length <$> scheduled_principal st = Some n /\
  length <$> scheduled_interest st = Some n /\
  length <$> scheduled_balance st = Some n /\
  length <$> prepay_speed st = Some n /\
  length <$> recovery st = Some n /\
  length <$> servicing_cf st = Some n /\
  length <$> earout_cf st = Some n /\
  length <$> balance st = Some n /\
  length <$> principle st = Some n /\
  length <$> default st = Some n /\
  length <$> prepay st = Some n /\
  length <$> interest st = Some n /\
  length <$> total_cf st = Some n.

(** What index 0 of each series holds after a computation. *)
Definition initial_values (loan : Loan A) (st : Amortization A) : Prop :=
  elem (pmt_cnt st) 0 = Some 0%nat /\
  elem (pmt_date st) 0 <> None /\
  elem (scheduled_principal st) 0 = Some (of_Z 0) /\
  elem (scheduled_interest st) 0 = Some (of_Z 0) /\
  elem (scheduled_balance st) 0 = Some (invested loan) /\
  elem (prepay_speed st) 0 = Some (of_Z 0) /\
  elem (recovery st) 0 = Some (of_Z 0 * recovery_rate loan) /\
  elem (servicing_cf st) 0 = Some (of_Z 0) /\
  elem (earout_cf st) 0 = Some (of_Z 0) /\
  elem (balance st) 0 = Some (invested loan) /\
  elem (principle st) 0 = Some (of_Z 0) /\
  elem (default st) 0 = Some (of_Z 0) /\
  elem (prepay st) 0 = Some (of_Z 0) /\
  elem (interest st) 0 = Some (of_Z 0) /\
  elem (total_cf st) 0 = Some (- invested loan * (of_Z 1 + premium loan)).

(** The inputs of the recurrence and its five realized series are as
    before. *)
Definition keeps_flows (st st' : Amortization A) : Prop :=
  same_inputs st st' /\
  balance st' = balance st /\ default st' = default st /\
  prepay st' = prepay st /\ principle st' = principle st /\
  interest st' = interest st.

(** A computation that relates the object it starts from to the object it
    leaves, whether it returns or raises. *)
Definition preserves {T} (R : Amortization A -> Amortization A -> Prop)
    (c : M A T) : Prop :=
  forall st, R st (c st).1.
End Recurrence.

(** ** A worked loan in binary64

    An 18-period loan with a charge-off table of 24 rows and a prepayment
    table whose columns are padded with missing entries. *)

#[local] Set Warnings "-inexact-float".

Definition ex_CHARGED_OFF : table float :=
  [ (LStr "18-B2", replicate 24 0.005%float);
    (LStr "18-C4", replicate 24 0.01%float);
    (LStr "36-C4", replicate 24 0.0125%float) ].

Definition ex_PREPAY : table float :=
  [ (LInt 18, replicate 18 0.02%float ++ replicate 6 nan);
    (LInt 24, replicate 24 0.015%float) ].

Definition ex_loan : Loan float :=
  new_Loan "C4" (mkDate 2015 8 24) 18 0.28%float 7500%float 3228.61%float
           0.08%float 0.0514%float 0.025%float 0.025%float FreqM None.

(** The object after the two lookups and the payment dates. *)
Definition ex_st0 : Amortization float :=
  (bind (fetch_prepay_speed ex_PREPAY (term ex_loan)) (fun _ =>
   bind (fetch_default_rate ex_CHARGED_OFF (SelStr (charge_off_lookup_key ex_loan)))
        (fun _ =>
   payment_date (issue_date ex_loan) (term ex_loan) (amort_freq ex_loan)))
     new_Amortization).1.

(** The object after the scheduled amortization and the recurrence. *)
Definition ex_st2 : Amortization float :=
  (calc_default_prepay_adjust_cashflow ex_loan
     (calc_scheduled_cashflow ex_loan ex_st0).1).1.



(** ** Solvers used to run [irr] in binary64

    The iterate is the point itself.  [fixed_slope] moves along a line of
    slope -100 through the residual; [drift] walks away by one each time. *)

Definition fixed_slope (F : float -> float) (x : float) : result float :=
  Ok (x + F x / 100)%float.

Definition drift (F : float -> float) (x : float) : result float :=
  Ok (x + 1)%float.

Definition ex_cashflow : list float := [(-100)%float; 110%float].

Definition ex_flat_cashflow : list float := [(-100)%float; 0%float; 0%float].

(** The whole orchestration on the worked loan, and the frame it returns. *)
Definition ex_run : Amortization float * result (DataFrame float) :=
  calc_cashflows ex_CHARGED_OFF ex_PREPAY ex_loan new_Amortization.

Definition ex_df : DataFrame float :=
  match ex_run.2 with
  | Ok df => df
  | Raise _ => []
  end.

(** ** A loan whose scheduled balance vanishes before the final period

    A coupon of -100% per yearly period over two periods, in exact
    rationals and in binary64. *)

Definition ex_negative_loan_Q : Loan Q :=
  new_Loan "C4" (mkDate 2015 8 24) 2 (-1)%Q 100%Q 50%Q (8 # 100)%Q
           (5 # 100)%Q (25 # 1000)%Q (25 # 1000)%Q FreqY None.

Definition ex_negative_loan : Loan float :=
  new_Loan "C4" (mkDate 2015 8 24) 2 (-1)%float 100%float 50%float
           0.08%float 0.05%float 0.025%float 0.025%float FreqY None.

(** A coupon of 100% per yearly period over sixty periods, in binary64:
    every power of two is exact, and [2 ** 60 - 1] rounds to [2 ** 60]. *)
Definition ex_doubling_loan : Loan float :=
  new_Loan "C4" (mkDate 2015 8 24) 60 1%float 8192%float 8192%float
           0.08%float 0.05%float 0.025%float 0.025%float FreqY None.

(** A six-period loan, too short for the earnout periods, on an object
    that already holds its default rates and prepay speeds. *)
Definition ex_short_loan : Loan float :=
  new_Loan "B2" (mkDate 2015 8 24) 6 0.12%float 1000%float 1000%float
           0.08%float 0.05%float 0.025%float 0.025%float FreqM None.

Definition ex_short_st0 : Amortization float :=
  set_default_rate (Some (replicate 6 0.01%float))
    (set_prepay_speed (Some (0%float :: replicate 6 0.02%float))
       new_Amortization).

(** ** Exact arithmetic and worked inputs for it *)

(** Python's [sum] over rationals: from the left, starting at 0. *)
Definition Qsum (l : list Q) : Q := foldl Qplus 0%Q l.

(** A three-period loan at 12% a year, in exact rationals. *)
Definition ex_loan_Q : Loan Q :=
  new_Loan "B2" (mkDate 2015 8 24) 3 (12 # 100)%Q 1000%Q 1000%Q (8 # 100)%Q
           (5 # 100)%Q (25 # 1000)%Q (25 # 1000)%Q FreqM None.

(** An object holding default rates and prepay speeds that are all zero. *)
Definition ex_quiet_st0 : Amortization Q :=
  set_default_rate (Some [0%Q; 0%Q; 0%Q])
    (set_prepay_speed (Some [0%Q; 0%Q; 0%Q; 0%Q]) new_Amortization).

(** An object holding a 1% default rate and a 2% prepay speed. *)
Definition ex_st0_Q : Amortization Q :=
  set_default_rate (Some (replicate 3 (1 # 100)%Q))
    (set_prepay_speed (Some (0%Q :: replicate 3 (2 # 100)%Q)) new_Amortization).

(** A loan of a grade the charge-off table does not list. *)
Definition ex_unlisted_loan : Loan float :=
  new_Loan "Z9" (mkDate 2015 8 24) 18 0.28%float 7500%float 3228.61%float
           0.08%float 0.0514%float 0.025%float 0.025%float FreqM None.

(** An eighteen-period loan bought at par and free of fees, in exact
    rationals, and an object holding default rates that are all zero and a
    2% prepay speed that stops before the final period. *)
Definition ex_par_loan_Q : Loan Q :=
  new_Loan "B2" (mkDate 2015 8 24) 18 (12 # 100)%Q 1000%Q 1000%Q (8 # 100)%Q
           0%Q 0%Q 0%Q FreqM None.

Definition ex_par_st0_Q : Amortization Q :=
  set_default_rate (Some (replicate 18 0%Q))
    (set_prepay_speed (Some (0%Q :: replicate 17 (2 # 100)%Q ++ [0%Q]))
       new_Amortization).

(** The object of [ex_st0_Q] under a default multiplier of 2 and a prepay
    multiplier of 3, and the object with multipliers of 1 whose rates and
    speeds are scaled instead. *)
Definition ex_stressed_Q : Amortization Q :=
  set_prepay_multiplier 3%Q (set_default_multiplier 2%Q ex_st0_Q).

Definition ex_scaled_Q : Amortization Q :=
  set_prepay_speed (Some (Qmult 3 <$> (0%Q :: replicate 3 (2 # 100)%Q)))
    (set_default_rate (Some (Qmult 2 <$> replicate 3 (1 # 100)%Q))
       (set_prepay_multiplier 1%Q (set_default_multiplier 1%Q ex_st0_Q))).

(** An object that already holds series left by another computation. *)
Definition ex_used_st : Amortization float :=
  set_total_cf (Some [1%float; 2%float])
    (set_balance (Some [7500%float])
       (set_prepay_speed (Some []) new_Amortization)).

(** A charge-off table whose columns have one row too few for an
    eighteen-period loan, and a prepayment table whose column for the term
    holds ten values. *)
Definition ex_short_CHARGED_OFF : table float :=
  [ (LStr "18-C4", replicate 18 0.01%float) ].

Definition ex_ragged_PREPAY : table float :=
  [ (LInt 18, replicate 10 0.02%float ++ replicate 14 nan) ].

(** The two multipliers are as before. *)
Definition same_multipliers {A} (st st' : Amortization A) : Prop :=
  _default_multiplier st' = _default_multiplier st /\
  _prepay_multiplier st' = _prepay_multiplier st.

(** The four series the adjustment method assigns after its loop are as
    before. *)
Definition same_cash_flows {A} (st st' : Amortization A) : Prop :=
  recovery st' = recovery st /\ servicing_cf st' = servicing_cf st /\
  earout_cf st' = earout_cf st /\ total_cf st' = total_cf st.

(** Period [t] of the five realized series still holds the zero it was
    allocated with. *)
Definition unwritten_at {A} `{Arith A} (st : Amortization A) (t : nat) : Prop :=
  elem (balance st) t = Some (of_Z 0) /\
  elem (default st) t = Some (of_Z 0) /\
  elem (prepay st) t = Some (of_Z 0) /\
  elem (principle st) t = Some (of_Z 0) /\
  elem (interest st) t = Some (of_Z 0).


(** An object holding default rates for two periods only, prepay speeds
    for the eighteen periods of the worked loan, and a total cash flow
    left by an earlier computation. *)
Definition ex_few_rates_st0 : Amortization float :=
  set_default_rate (Some (replicate 2 0.01%float))
    (set_prepay_speed (Some (0%float :: replicate 18 0.02%float))
       (set_total_cf (Some [1%float]) new_Amortization)).

(** * Properties *)

(** ** Reasoning about methods *)

Section MethodLemmas.
Context {A : Type}.

Lemma bind_ok {T U} (c : M A T) (k : T -> M A U) st st' v :
  bind c k st = (st', Ok v) ->
  exists s u, c st = (s, Ok u) /\ k u s = (st', Ok v).
Proof.
  unfold bind. destruct (c st) as [s [u|e]]; [eauto | discriminate].
Qed.

Lemma bind_intro {T U} (c : M A T) (k : T -> M A U) st s u :
  c st = (s, Ok u) -> bind c k st = k u s.
Proof. unfold bind. intros ->. reflexivity. Qed.

Lemma bind_raise {T U} (c : M A T) (k : T -> M A U) st s e :
  c st = (s, Raise e) -> bind c k st = (s, Raise e).
Proof. unfold bind. intros ->. reflexivity. Qed.

Lemma attr_ok {T} (get : Amortization A -> option T) st st' v :
  attr get st = (st', Ok v) -> st' = st /\ get st = Some v.
Proof.
  unfold attr. destruct (get st); intros E; inversion E; subst; auto.
Qed.

Lemma rd_ok {T} (get : Amortization A -> option (list T)) i st st' v :
  rd get i st = (st', Ok v) -> st' = st /\ elem (get st) i = Some v.
Proof.
  unfold rd, bind, attr, lift, getitem, elem.
  destruct (get st) as [l|]; [|discriminate].
  destruct (l !! i); intros E; inversion E; subst; auto.
Qed.

Lemma rd_intro {T} (get : Amortization A -> option (list T)) i st v :
  elem (get st) i = Some v -> rd get i st = (st, Ok v).
Proof.
  unfold rd, bind, attr, lift, getitem, elem.
  destruct (get st) as [l|]; [|discriminate]. intros ->. reflexivity.
Qed.

Lemma setitem_ok {T} (get : Amortization A -> option (list T)) set i v st st' u :
  setitem get set i v st = (st', Ok u) ->
  exists a, get st = Some a /\ i < length a /\ st' = set (Some (<[i:=v]> a)) st.
Proof.
  unfold setitem. destruct (get st) as [a|]; [|discriminate].
  destruct (i <? length a) eqn:E; [|discriminate].
  apply Nat.ltb_lt in E. intros X; inversion X; subst. eauto.
Qed.

Lemma setitem_intro {T} (get : Amortization A -> option (list T)) set i v st a :
  get st = Some a -> i < length a ->
  setitem get set i v st = (set (Some (<[i:=v]> a)) st, Ok tt).
Proof.
  unfold setitem. intros -> Hi. apply Nat.ltb_lt in Hi. rewrite Hi. reflexivity.
Qed.

Lemma setitem_short {T} (get : Amortization A -> option (list T)) set i v st a :
  get st = Some a -> length a <= i ->
  setitem get set i v st = (st, Raise (IndexError "index is out of bounds")).
Proof.
  unfold setitem. intros -> Hi. apply Nat.ltb_ge in Hi. rewrite Hi. reflexivity.
Qed.

(** A loop that runs to its end establishes what each pass preserves. *)
Lemma for_each_ok (P : nat -> Amortization A -> Prop) body n :
  forall start st st',
    P start st ->
    (forall i s s', start <= i < start + n -> P i s ->
                    body i s = (s', Ok tt) -> P (S i) s') ->
    for_each (seq start n) body st = (st', Ok tt) ->
    P (start + n) st'.
Proof.
  induction n as [|n IH]; intros start st st' HP Hstep Hrun; simpl in Hrun.
  - inversion Hrun; subst. rewrite Nat.add_0_r. exact HP.
  - apply bind_ok in Hrun as (s & [] & Hb & Hrest).
    replace (start + S n) with (S start + n) by lia.
    apply (IH (S start) s st'); [| |exact Hrest].
    + apply (Hstep start st s); [lia | exact HP | exact Hb].
    + intros i s0 s1 Hi. apply Hstep. lia.
Qed.

(** A loop whose every pass returns runs to its end. *)
Lemma for_each_total (P : nat -> Amortization A -> Prop) body n :
  forall start st,
    P start st ->
    (forall i s, start <= i < start + n -> P i s ->
                 exists s', body i s = (s', Ok tt) /\ P (S i) s') ->
    exists st', for_each (seq start n) body st = (st', Ok tt) /\
                P (start + n) st'.
Proof.
  induction n as [|n IH]; intros start st HP Hstep; simpl.
  - exists st. rewrite Nat.add_0_r. auto.
  - destruct (Hstep start st) as (s & Hb & HP'); [lia | exact HP |].
    destruct (IH (S start) s HP') as (st' & Hrun & HQ).
    + intros i s0 Hi. apply Hstep. lia.
    + exists st'. rewrite (bind_intro _ _ _ _ _ Hb).
      replace (start + S n) with (S start + n) by lia. auto.
Qed.

(** *** Frames: what a computation leaves alone *)

Section Frames.
Variable R : Amortization A -> Amortization A -> Prop.
Hypothesis R_refl : forall st, R st st.
Hypothesis R_trans : forall s1 s2 s3, R s1 s2 -> R s2 s3 -> R s1 s3.

Lemma preserves_bind {T U} (c : M A T) (k : T -> M A U) :
  preserves R c -> (forall v, preserves R (k v)) -> preserves R (bind c k).
Proof.
  intros Hc Hk st. unfold bind. specialize (Hc st).
  destruct (c st) as [s [v|e]]; simpl in *; [|exact Hc].
  eapply R_trans; [exact Hc | apply Hk].
Qed.

Lemma preserves_ret {T} (v : T) : preserves R (ret v).
Proof. intros st. apply R_refl. Qed.

Lemma preserves_raise {T} e : preserves R (raise (T:=T) e).
Proof. intros st. apply R_refl. Qed.

Lemma preserves_lift {T} (r : result T) : preserves R (lift r).
Proof. intros st. apply R_refl. Qed.

Lemma preserves_field {T} (g : Amortization A -> T) : preserves R (field g).
Proof. intros st. apply R_refl. Qed.

Lemma preserves_attr {T} (get : Amortization A -> option T) :
  preserves R (attr get).
Proof. intros st. unfold attr. destruct (get st); apply R_refl. Qed.

Lemma preserves_rd {T} (get : Amortization A -> option (list T)) i :
  preserves R (rd get i).
Proof.
  apply preserves_bind; [apply preserves_attr | intros; apply preserves_lift].
Qed.

Lemma preserves_assign {T} (set : T -> Amortization A -> Amortization A) v :
  (forall st, R st (set v st)) -> preserves R (assign set v).
Proof. intros Hset st. apply Hset. Qed.

Lemma preserves_setitem {T} (get : Amortization A -> option (list T)) set i v :
  (forall w st, R st (set w st)) -> preserves R (setitem get set i v).
Proof.
  intros Hset st. unfold setitem. destruct (get st) as [a|]; [|apply R_refl].
  destruct (i <? length a); [apply Hset | apply R_refl].
Qed.

Lemma preserves_for_each l (body : nat -> M A unit) :
  (forall i, preserves R (body i)) -> preserves R (for_each l body).
Proof.
  intros Hb. induction l as [|i l IH]; simpl.
  - apply preserves_ret.
  - apply preserves_bind; [apply Hb | intros; exact IH].
Qed.
End Frames.
End MethodLemmas.

(** Establishing that a method built from the primitives relates the
    object it starts from to the object it leaves by [R], for a reflexive
    and transitive [R] that every assignment in the method respects. *)
Ltac keeps R Hrefl Htrans :=
  repeat first
    [ apply (preserves_bind R Htrans); [|intros ?]
    | apply (preserves_rd R Hrefl Htrans)
    | apply (preserves_attr R Hrefl)
    | apply (preserves_field R Hrefl)
    | apply (preserves_lift R Hrefl)
    | apply (preserves_ret R Hrefl)
    | apply (preserves_raise R Hrefl)
    | apply (preserves_assign R); intros; repeat split; reflexivity
    | apply (preserves_setitem R Hrefl); intros; repeat split; reflexivity
    | apply (preserves_for_each R Hrefl Htrans); intros ? ].

Section DefaultRateFrame.
Context {A : Type} `{Arith A}.


End DefaultRateFrame.

Ltac proj_simpl_in H :=
  cbn [pmt_cnt pmt_date scheduled_principal scheduled_interest
       scheduled_balance prepay_speed default_rate recovery servicing_cf
       earout_cf balance principle default prepay interest total_cf
       _default_multiplier _prepay_multiplier
       set_pmt_cnt set_pmt_date set_scheduled_principal
       set_scheduled_interest set_scheduled_balance set_prepay_speed
       set_default_rate set_recovery set_servicing_cf set_earout_cf
       set_balance set_principle set_default set_prepay set_interest
       set_total_cf set_default_multiplier set_prepay_multiplier] in H.

Ltac proj_simpl :=
  cbn [pmt_cnt pmt_date scheduled_principal scheduled_interest
       scheduled_balance prepay_speed default_rate recovery servicing_cf
       earout_cf balance principle default prepay interest total_cf
       _default_multiplier _prepay_multiplier
       set_pmt_cnt set_pmt_date set_scheduled_principal
       set_scheduled_interest set_scheduled_balance set_prepay_speed
       set_default_rate set_recovery set_servicing_cf set_earout_cf
       set_balance set_principle set_default set_prepay set_interest
       set_total_cf set_default_multiplier set_prepay_multiplier].

(** Taking a successful run apart, statement by statement. *)
Ltac minv1 H :=
  lazymatch type of H with
  | rd _ _ _ = (_, Ok _) => apply rd_ok in H as [-> H]; proj_simpl_in H
  | attr _ _ = (_, Ok _) => apply attr_ok in H as [-> H]; proj_simpl_in H
  | field _ _ = (_, Ok _) => unfold field in H; inversion H; subst; clear H
  | ret _ _ = (_, Ok _) => unfold ret in H; inversion H; subst; clear H
  | setitem _ _ _ _ _ = (_, Ok _) =>
      let a := fresh "a" in
      let Ha := fresh "Ha" in
      let Hl := fresh "Hl" in
      apply setitem_ok in H as (a & Ha & Hl & ->); proj_simpl_in Ha
  | assign _ _ _ = (_, Ok _) => unfold assign in H; inversion H; subst; clear H
  | _ => idtac
  end.

Ltac minv H :=
  lazymatch type of H with
  | bind _ _ _ = (_, Ok _) =>
      let s := fresh "s" in
      let u := fresh "u" in
      let H1 := fresh "H" in
      apply bind_ok in H as (s & u & H1 & H); minv1 H1; minv H
  | _ => minv1 H
  end.

(** Two reads of one entry return one value. *)
Ltac same_reads :=
  repeat match goal with
         | H1 : ?x = Some ?u, H2 : ?x = Some ?v |- _ =>
             rewrite H1 in H2; injection H2 as <-
         end.

Section RecurrenceLemmas.
Context {A : Type} `{Arith A}.
Local Open Scope arith_scope.

Lemma elem_insert_eq (l : list A) j v :
  j < length l -> elem (Some (<[j:=v]> l)) j = Some v.
Proof. intros Hj. simpl. by apply list_lookup_insert_eq. Qed.

Lemma elem_insert_ne (l : list A) j i v :
  j <> i -> elem (Some (<[j:=v]> l)) i = elem (Some l) i.
Proof. intros Hj. simpl. by apply list_lookup_insert_ne. Qed.

Lemma upd_at_elem j (a a' : option (list A)) i :
  upd_at j a a' -> i <> j -> elem a' i = elem a i.
Proof.
  intros (l & v & -> & _ & ->) Hi. apply elem_insert_ne. congruence.
Qed.

Lemma upd_at_length j (a a' : option (list A)) :
  upd_at j a a' -> length <$> a' = length <$> a.
Proof.
  intros (l & v & -> & _ & ->). simpl. by rewrite length_insert.
Qed.

(** One pass writes entry [i] of the five realized series, as the
    recurrence states, and nothing else. *)
Lemma adjust_period_spec rate j st st' :
  1 <= j ->
  adjust_period rate j st = (st', Ok tt) ->
  recurrence_at rate st' j /\ same_inputs st st' /\ flows_upd_at j st st'.
Proof.
  intros Hj Hrun. unfold adjust_period in Hrun. minv Hrun.
  repeat match goal with
         | H : elem (Some (<[j:=_]> _)) j = Some _ |- _ =>
             rewrite elem_insert_eq in H by assumption; injection H as <-
         | H : elem (Some (<[j:=_]> _)) (j - 1) = Some _ |- _ =>
             rewrite elem_insert_ne in H by lia
         | Hb : balance ?s = Some _, H : elem (balance ?s) _ = _ |- _ =>
             rewrite Hb in H
         end.
  same_reads.
  unfold recurrence_at, same_inputs, flows_upd_at, upd_at. proj_simpl.
  split; [|split].
  - do 9 eexists.
    rewrite !elem_insert_eq by assumption.
    rewrite elem_insert_ne by lia.
    repeat split; try eassumption; reflexivity.
  - repeat split; reflexivity.
  - repeat split; eauto 10.
Qed.

Lemma same_inputs_refl (st : Amortization A) : same_inputs st st.
Proof. repeat split. Qed.

Lemma same_inputs_trans (s1 s2 s3 : Amortization A) :
  same_inputs s1 s2 -> same_inputs s2 s3 -> same_inputs s1 s3.
Proof.
  unfold same_inputs. intros (?&?&?&?&?&?&?&?&?) (?&?&?&?&?&?&?&?&?).
  repeat split; congruence.
Qed.

Lemma flows_frame_refl (st : Amortization A) : flows_frame st st.
Proof. repeat split. Qed.

Lemma flows_frame_step j (s1 s2 s3 : Amortization A) :
  1 <= j -> flows_frame s1 s2 -> flows_upd_at j s2 s3 -> flows_frame s1 s3.
Proof.
  intros Hj F (U1 & U2 & U3 & U4 & U5).
  destruct F as ((?&?)&(?&?)&(?&?)&(?&?)&(?&?)).
  repeat split;
    (etrans; [|eassumption]);
    first [ eapply upd_at_elem; [eassumption | lia]
          | eapply upd_at_length; eassumption ].
Qed.

(** A period already computed is not disturbed by a later pass. *)
Lemma recurrence_at_frame rate i j (st st' : Amortization A) :
  same_inputs st st' -> flows_upd_at j st st' -> 1 <= i < j ->
  recurrence_at rate st i -> recurrence_at rate st' i.
Proof.
  intros (?&?&E1&E2&E3&E4&E5&E6&E7) (U1 & U2 & U3 & U4 & U5) Hi.
  intros (b1&r1&si_i&sb_1&sp_i&ps_i&d_i&pre_i&pr_i&R).
  exists b1, r1, si_i, sb_1, sp_i, ps_i, d_i, pre_i, pr_i.
  rewrite E1, E2, E3, E4, E5, E6, E7.
  rewrite !(upd_at_elem j _ _ _ U1), (upd_at_elem j _ _ _ U2),
    (upd_at_elem j _ _ _ U3), (upd_at_elem j _ _ _ U4),
    (upd_at_elem j _ _ _ U5) by lia.
  exact R.
Qed.

(** The loop over periods [1 .. n]. *)
Lemma adjust_loop_spec rate n (st st' : Amortization A) :
  for_each (seq 1 n) (adjust_period rate) st = (st', Ok tt) ->
  same_inputs st st' /\ flows_frame st st' /\
  forall i, 1 <= i <= n -> recurrence_at rate st' i.
Proof.
  intros Hrun.
  pose (P := fun (k : nat) (s : Amortization A) =>
               same_inputs st s /\ flows_frame st s /\
               forall i, 1 <= i < k -> recurrence_at rate s i).
  assert (HP : P (1 + n)%nat st').
  { apply (for_each_ok P (adjust_period rate) n 1 st st'); [| |exact Hrun].
    - repeat split; intros; lia.
    - intros i s s' Hi (I1 & I2 & I3) Hb.
      apply adjust_period_spec in Hb as (R & S1 & S2); [|lia].
      split; [eapply same_inputs_trans; eassumption|].
      split; [eapply flows_frame_step; [|eassumption..]; lia|].
      intros k Hk. destruct (decide (k = i)) as [->|Hne]; [exact R|].
      eapply recurrence_at_frame; [eassumption..| |apply I3]; lia. }
  destruct HP as (I1 & I2 & I3). repeat split; try assumption.
  all: try apply I1; try apply I2.
  intros i Hi. apply I3. lia.
Qed.

Lemma length_zeros n : length (zeros n) = n.
Proof. apply length_replicate. Qed.

Lemma lookup_zeros n i : i < n -> zeros n !! i = Some (of_Z 0).
Proof. intros Hi. by apply lookup_replicate_2. Qed.

(** Everything a successful run of the adjustment method leaves on the
    object, in terms of the object it started from. *)
Lemma adjust_cashflow_inv loan (st0 st2 : Amortization A) :
  calc_default_prepay_adjust_cashflow loan st0 = (st2, Ok tt) ->
  exists cnt bal dflt pre pr int sb0,
    let nper := length cnt in
    let npy := of_Z (FREQ_PERIOD_MAP (amort_freq loan)) in
    let rate := coupon loan / npy in
    let fee := earnout_fee loan / of_Z 2 * invested loan in
    let rec := (fun d => d * recovery_rate loan) <$> dflt in
    let srv := of_Z 0 :: ((fun x => x * servicing_fee loan / npy) <$>
                          zip_with sub (take (length bal - 1) bal) (drop 1 dflt)) in
    let ear := <[18:=fee]> (<[12:=fee]> (zeros nper)) in
    pmt_cnt st0 = Some cnt /\ 18 < nper /\
    same_inputs st0 st2 /\
    (forall i, 1 <= i <= nper - 1 -> recurrence_at rate st2 i) /\
    balance st2 = Some bal /\ default st2 = Some dflt /\
    prepay st2 = Some pre /\ principle st2 = Some pr /\
    interest st2 = Some int /\
    length bal = nper /\ length dflt = nper /\ length pre = nper /\
    length pr = nper /\ length int = nper /\
    elem (scheduled_balance st0) 0 = Some sb0 /\
    bal !! 0 = Some sb0 /\ dflt !! 0 = Some (of_Z 0) /\
    pre !! 0 = Some (of_Z 0) /\ pr !! 0 = Some (of_Z 0) /\
    int !! 0 = Some (of_Z 0) /\
    recovery st2 = Some rec /\
    servicing_cf st2 = Some srv /\
    earout_cf st2 = Some ear /\
    total_cf st2 =
      Some (<[0:=- invested loan * (of_Z 1 + premium loan)]>
              (zip_with sub
                 (zip_with sub
                    (zip_with add (zip_with add pr int) rec) srv) ear)).
Proof.
  unfold calc_default_prepay_adjust_cashflow.
  destruct (pmt_cnt st0) as [cnt|] eqn:Hcnt; [|discriminate].
  intros Hrun. minv Hrun.
  match goal with
  | Hl : for_each _ _ _ = (_, Ok ?x) |- _ =>
      destruct x; apply adjust_loop_spec in Hl as (I1 & I2 & I3)
  end.
  unfold same_inputs in I1. proj_simpl_in I1.
  unfold flows_frame in I2. proj_simpl_in I2.
  destruct I2 as ((B0&BL)&(D0&DL)&(P0&PL)&(R0&RL)&(N0&NL)).
  destruct (balance s) as [bal|] eqn:Hbal; [|discriminate].
  destruct (default s) as [dflt|] eqn:Hdflt; [|discriminate].
  destruct (prepay s) as [pre|] eqn:Hpre; [|discriminate].
  destruct (principle s) as [pr|] eqn:Hpr; [|discriminate].
  destruct (interest s) as [int|] eqn:Hint; [|discriminate].
  simpl in B0, BL, D0, DL, P0, PL, R0, RL, N0, NL.
  simplify_eq.
  rewrite ?length_insert, ?length_zeros in *.
  rewrite list_lookup_insert_eq in B0 by (rewrite length_zeros; lia).
  rewrite lookup_zeros in D0, P0, R0, N0 by lia.
  exists cnt. do 6 eexists.
  cbn zeta. proj_simpl.
  split; [reflexivity|]. split; [assumption|].
  split. { unfold same_inputs. proj_simpl. exact I1. }
  split.
  { intros i Hi. specialize (I3 i Hi).
    destruct I3 as (b1&r1&si_i&sb_1&sp_i&ps_i&d_i&pre_i&pr_i&R).
    exists b1, r1, si_i, sb_1, sp_i, ps_i, d_i, pre_i, pr_i.
    proj_simpl. exact R. }
  repeat split; first [eassumption | reflexivity].
Qed.
End RecurrenceLemmas.

(** ** The scheduled amortization always completes *)

Section ScheduledLemmas.
Context {A : Type} `{Arith A}.
Local Open Scope arith_scope.

Lemma lookup_cons_fmap_seq (f : nat -> A) (z : A) n i :
  1 <= i <= n -> (z :: (f <$> seq 1 n)) !! i = Some (f i).
Proof.
  intros Hi. destruct i as [|i]; [lia|]. simpl.
  rewrite list_lookup_fmap, lookup_seq_lt by lia. reflexivity.
Qed.

(** The object [calc_scheduled_cashflow] leaves behind: the three
    scheduled series and the period counter are new, every other
    attribute is as before. *)
Lemma calc_scheduled_cashflow_spec (loan : Loan A) (st0 : Amortization A) :
  let rate := coupon loan / of_Z (FREQ_PERIOD_MAP (amort_freq loan)) in
  let nper := term loan in
  let pv := - invested loan in
  let sp := of_Z 0 :: ((fun per => npf_ppmt rate per nper pv) <$> seq 1 nper) in
  let si := of_Z 0 :: ((fun per => npf_ipmt rate per nper pv) <$> seq 1 nper) in
  exists sb,
    calc_scheduled_cashflow loan st0 =
      (set_scheduled_balance (Some sb)
         (set_scheduled_interest (Some si)
            (set_scheduled_principal (Some sp)
               (set_pmt_cnt (Some (seq 0 (nper + 1))) st0))), Ok tt) /\
    length sb = (nper + 1)%nat /\
    sb !! 0 = Some (invested loan) /\
    forall i, 1 <= i <= nper ->
      exists b, sb !! (i - 1)%nat = Some b /\
                sb !! i = Some (b - npf_ppmt rate i nper pv).
Proof.
  intros rate nper pv sp si.
  set (base := set_scheduled_interest (Some si)
                 (set_scheduled_principal (Some sp)
                    (set_pmt_cnt (Some (seq 0 (nper + 1))) st0))).
  set (body := fun i : nat =>
    bind (rd scheduled_balance (i - 1)) (fun b =>
    bind (rd scheduled_principal i) (fun p =>
    setitem (A:=A) scheduled_balance set_scheduled_balance i (b - p)))).
  pose (P := fun (k : nat) (s : Amortization A) =>
    exists sb, s = set_scheduled_balance (Some sb) base /\
      length sb = (nper + 1)%nat /\ sb !! 0 = Some (invested loan) /\
      forall i, 1 <= i < k ->
        exists b, sb !! (i - 1)%nat = Some b /\
                  sb !! i = Some (b - npf_ppmt rate i nper pv)).
  destruct (for_each_total P body nper 1
              (set_scheduled_balance
                 (Some (<[0:=invested loan]> (zeros (nper + 1)))) base))
    as (st' & Hrun & HP).
  - exists (<[0:=invested loan]> (zeros (nper + 1))).
    split; [reflexivity|]. rewrite length_insert, length_zeros.
    split; [reflexivity|].
    split; [apply list_lookup_insert_eq; rewrite length_zeros; lia|].
    intros i Hi. lia.
  - intros i s Hi (sb & -> & Hlen & H0 & Hrec).
    destruct (lookup_lt_is_Some_2 sb (i - 1)) as [b Hb]; [lia|].
    eexists. split.
    + unfold body.
      rewrite (bind_intro _ _ _ _ b) by (apply rd_intro; exact Hb).
      rewrite (bind_intro _ _ _ _ (npf_ppmt rate i nper pv))
        by (apply rd_intro; proj_simpl; apply lookup_cons_fmap_seq; lia).
      apply (setitem_intro scheduled_balance set_scheduled_balance i _ _ sb);
        [reflexivity | lia].
    + exists (<[i:=b - npf_ppmt rate i nper pv]> sb).
      split; [reflexivity|]. rewrite length_insert.
      split; [assumption|].
      split; [rewrite list_lookup_insert_ne by lia; assumption|].
      intros k Hk. destruct (decide (k = i)) as [->|Hne].
      * exists b. rewrite list_lookup_insert_ne by lia.
        rewrite list_lookup_insert_eq by lia. auto.
      * destruct (Hrec k) as (b' & Hb1 & Hb2); [lia|].
        exists b'. rewrite !list_lookup_insert_ne by lia. auto.
  - destruct HP as (sb & -> & Hlen & H0 & Hrec).
    exists sb. split; [|repeat split; try assumption; intros i Hi; apply Hrec; lia].
    unfold calc_scheduled_cashflow. fold rate nper pv.
    replace (drop 1 (seq 0 (nper + 1))) with (seq 1 nper)
      by (rewrite Nat.add_1_r; reflexivity).
    replace (nper + 1 - 1)%nat with nper by lia.
    fold sp si. fold body.
    unfold bind at 1, assign at 1. unfold bind at 1, assign at 1.
    unfold bind at 1, assign at 1. unfold bind at 1, assign at 1.
    fold base.
    erewrite bind_intro;
      [|apply (setitem_intro scheduled_balance set_scheduled_balance 0 _ _
                 (zeros (nper + 1)));
        [reflexivity | rewrite length_zeros; lia]].
    exact Hrun.
Qed.
End ScheduledLemmas.

(** ** When the adjustment method completes *)

Ltac use_attrs :=
  repeat match goal with
         | E : ?f ?s = Some _ |- context [?f ?s] =>
             lazymatch type of s with
             | Amortization _ => rewrite E
             end
         end.

(** Running the next statement of a method whose operands are in range. *)
Ltac run_rd :=
  lazymatch goal with
  | |- (bind (rd ?get ?i) _ ?st).2 = _ =>
      let v := fresh "v" in
      let Hv := fresh "Hv" in
      assert (exists v, elem (get st) i = Some v) as [v Hv];
      [ proj_simpl; use_attrs; simpl; apply lookup_lt_is_Some_2;
        rewrite ?length_insert; lia
      | rewrite (bind_intro _ _ st st v (rd_intro _ _ _ _ Hv)) ]
  end.

Ltac run_setitem :=
  lazymatch goal with
  | |- (bind (setitem ?get ?set ?i ?v) _ ?st).2 = _ =>
      erewrite (bind_intro _ _ st _ tt);
      [| apply setitem_intro;
         [ proj_simpl; use_attrs; reflexivity
         | rewrite ?length_insert, ?length_zeros; lia ] ]
  | |- (setitem ?get ?set ?i ?v ?st).2 = _ =>
      erewrite setitem_intro;
      [ reflexivity
      | proj_simpl; use_attrs; reflexivity
      | rewrite ?length_insert, ?length_zeros; lia ]
  end.

Section Completion.
Context {A : Type} `{Arith A}.
Local Open Scope arith_scope.

Lemma bind_field {T U} (g : Amortization A -> T) (k : T -> M A U) st :
  bind (field g) k st = k (g st) st.
Proof. reflexivity. Qed.

Lemma bind_assign {T U} (set : T -> Amortization A -> Amortization A) v
    (k : unit -> M A U) st :
  bind (assign set v) k st = k tt (set v st).
Proof. reflexivity. Qed.

Lemma bind_attr {T U} (get : Amortization A -> option T) (k : T -> M A U)
    st v :
  get st = Some v -> bind (attr get) k st = k v st.
Proof. unfold bind, attr. intros ->. reflexivity. Qed.

Lemma inputs_cover_same n (st st' : Amortization A) :
  same_inputs st st' -> inputs_cover n st -> inputs_cover n st'.
Proof.
  intros (?&?&E1&E2&E3&E4&E5&?&?) (dr&si&sb&sp&ps&Hc).
  exists dr, si, sb, sp, ps. rewrite E1, E2, E3, E4, E5. exact Hc.
Qed.

Lemma flows_length_upd n j (st st' : Amortization A) :
  flows_upd_at j st st' -> flows_length n st -> flows_length n st'.
Proof.
  intros (U1&U2&U3&U4&U5) (L1&L2&L3&L4&L5). unfold flows_length.
  rewrite (upd_at_length _ _ _ U1), (upd_at_length _ _ _ U2),
    (upd_at_length _ _ _ U3), (upd_at_length _ _ _ U4),
    (upd_at_length _ _ _ U5). auto.
Qed.

Lemma fmap_length_Some (a : option (list A)) n :
  length <$> a = Some n -> exists l, a = Some l /\ length l = n.
Proof. destruct a as [l|]; [|discriminate]. simpl. intros [= <-]. eauto. Qed.

(** A pass whose operands are in range returns. *)
Lemma adjust_period_total rate n i (st : Amortization A) :
  1 <= i < n -> inputs_cover n st -> flows_length n st ->
  exists st', adjust_period rate i st = (st', Ok tt).
Proof.
  intros Hi (dr&si&sb&sp&ps&Hdr&Hsi&Hsb&Hsp&Hps&?&?&?&?&?).
  intros (L1&L2&L3&L4&L5).
  apply fmap_length_Some in L1 as (bal & Hbal & ?).
  apply fmap_length_Some in L2 as (dflt & Hdflt & ?).
  apply fmap_length_Some in L3 as (pre & Hpre & ?).
  apply fmap_length_Some in L4 as (pr & Hpr & ?).
  apply fmap_length_Some in L5 as (int & Hint & ?).
  enough (E : (adjust_period rate i st).2 = Ok tt)
    by (destruct (adjust_period rate i st) as [s' r]; simpl in E; subst r;
        eauto).
  unfold adjust_period.
  run_rd. run_rd. rewrite bind_field. run_setitem.
  run_rd. run_rd. run_rd. run_rd. run_rd. run_rd. rewrite bind_field.
  run_setitem.
  run_rd. run_rd. run_rd. run_rd. run_rd. run_setitem.
  run_rd. run_rd. run_rd. run_setitem.
  run_rd. run_rd. run_setitem.
Qed.

Lemma adjust_loop_total rate n (st : Amortization A) :
  inputs_cover n st -> flows_length n st ->
  exists st', for_each (seq 1 (n - 1)) (adjust_period rate) st = (st', Ok tt).
Proof.
  intros Hin Hfl.
  pose (P := fun (k : nat) (s : Amortization A) =>
               inputs_cover n s /\ flows_length n s).
  destruct (for_each_total P (adjust_period rate) (n - 1) 1 st)
    as (st' & Hrun & _); [split; assumption| |eauto].
  intros i s Hi (I1 & I2).
  destruct (adjust_period_total rate n i s) as (s' & Hs'); [lia|assumption..|].
  exists s'. split; [exact Hs'|].
  apply adjust_period_spec in Hs' as (_ & S1 & S2); [|lia].
  split; [eapply inputs_cover_same | eapply flows_length_upd]; eassumption.
Qed.

Lemma keeps_flows_refl (st : Amortization A) : keeps_flows st st.
Proof. repeat split. Qed.

Lemma keeps_flows_trans (s1 s2 s3 : Amortization A) :
  keeps_flows s1 s2 -> keeps_flows s2 s3 -> keeps_flows s1 s3.
Proof.
  intros (I1&?&?&?&?&?) (I2&?&?&?&?&?).
  split; [eapply same_inputs_trans; eassumption|].
  repeat split; congruence.
Qed.

Lemma recurrence_at_kept rate i (st st' : Amortization A) :
  keeps_flows st st' -> recurrence_at rate st i -> recurrence_at rate st' i.
Proof.
  intros ((?&?&E1&E2&E3&E4&E5&E6&E7)&F1&F2&F3&F4&F5).
  unfold recurrence_at. rewrite E1, E2, E3, E4, E5, E6, E7, F1, F2, F3, F4, F5.
  auto.
Qed.

(** The adjustment method on an object whose period counter has at least
    one entry and whose inputs reach far enough: the loop completes, and
    what follows it leaves the loop's results in place; the method then
    returns when the counter has more than 18 entries and raises an index
    error otherwise. *)
Lemma adjust_cashflow_run loan (st1 : Amortization A) cnt :
  pmt_cnt st1 = Some cnt -> 1 <= length cnt ->
  inputs_cover (length cnt) st1 ->
  exists sl,
    same_inputs st1 sl /\ flows_length (length cnt) sl /\
    elem (balance sl) 0 = elem (scheduled_balance st1) 0 /\
    (forall i, 1 <= i <= length cnt - 1 ->
               recurrence_at (periodic_rate loan) sl i) /\
    keeps_flows sl (calc_default_prepay_adjust_cashflow loan st1).1 /\
    (calc_default_prepay_adjust_cashflow loan st1).2 =
      if 18 <? length cnt then Ok tt
      else Raise (IndexError "index is out of bounds").
Proof.
  intros Hcnt H1 Hin. unfold calc_default_prepay_adjust_cashflow.
  rewrite Hcnt. set (nper := length cnt) in *.
  rewrite !bind_assign. fold (periodic_rate loan).
  destruct Hin as (dr&si&sb&sp&ps&Hdr&Hsi&Hsb&Hsp&Hps&?&?&?&?&?).
  destruct (lookup_lt_is_Some_2 sb 0) as [sb0 Hsb0]; [lia|].
  erewrite (bind_intro (rd scheduled_balance 0))
    by (apply rd_intro; proj_simpl; rewrite Hsb; exact Hsb0).
  erewrite (bind_intro (setitem balance set_balance 0 sb0))
    by (apply setitem_intro; [proj_simpl; reflexivity | rewrite length_zeros; lia]).
  match goal with
  | |- context [bind (for_each _ (adjust_period ?rate)) _ ?st] =>
      destruct (adjust_loop_total rate nper st) as (sl & Hl);
      [ exists dr, si, sb, sp, ps; proj_simpl; repeat split; assumption
      | unfold flows_length; proj_simpl; simpl;
        rewrite ?length_insert, ?length_zeros; repeat split
      | rewrite (bind_intro _ _ _ _ _ Hl) ]
  end.
  apply adjust_loop_spec in Hl as (I1 & I2 & I3).
  unfold same_inputs in I1. proj_simpl_in I1.
  unfold flows_frame in I2. proj_simpl_in I2.
  destruct I2 as ((B0&BL)&(_&DL)&(_&PL)&(_&RL)&(_&NL)).
  simpl in B0, BL, DL, PL, RL, NL.
  rewrite ?length_insert, ?length_zeros in *.
  rewrite list_lookup_insert_eq in B0 by (rewrite length_zeros; lia).
  exists sl.
  split; [exact I1|]. split; [repeat split; assumption|].
  split; [rewrite Hsb, B0; symmetry; exact Hsb0|]. split; [exact I3|].
  apply fmap_length_Some in BL as (bal & Hbal & ?).
  apply fmap_length_Some in DL as (dflt & Hdflt & ?).
  apply fmap_length_Some in PL as (pre & Hpre & ?).
  apply fmap_length_Some in RL as (pr & Hpr & ?).
  apply fmap_length_Some in NL as (int & Hint & ?).
  split.
  - refine ((_ : preserves keeps_flows _) sl).
    repeat first
      [ apply (preserves_bind keeps_flows keeps_flows_trans); [|intros ?]
      | apply (preserves_attr keeps_flows keeps_flows_refl)
      | apply (preserves_assign keeps_flows); intros;
        unfold keeps_flows, same_inputs; proj_simpl; repeat split
      | apply (preserves_setitem keeps_flows keeps_flows_refl); intros;
        unfold keeps_flows, same_inputs; proj_simpl; repeat split ].
  - rewrite (bind_attr _ _ _ _ Hdflt). rewrite !bind_assign.
    rewrite (bind_attr balance _ _ bal) by (proj_simpl; exact Hbal).
    rewrite (bind_attr default _ _ dflt) by (proj_simpl; exact Hdflt).
    rewrite !bind_assign.
    destruct (Nat.ltb_spec 18 nper) as [H18|H18].
    + run_setitem. run_setitem.
      rewrite (bind_attr principle _ _ pr) by (proj_simpl; exact Hpr).
      rewrite (bind_attr interest _ _ int) by (proj_simpl; exact Hint).
      erewrite (bind_attr recovery) by (proj_simpl; reflexivity).
      erewrite (bind_attr servicing_cf) by (proj_simpl; reflexivity).
      erewrite (bind_attr earout_cf) by (proj_simpl; reflexivity).
      rewrite bind_assign.
      erewrite setitem_intro; [reflexivity | proj_simpl; reflexivity |].
      rewrite !length_zip_with, !length_insert, length_zeros, length_fmap.
      simpl. rewrite length_fmap, length_zip_with, length_take, length_drop.
      lia.
    + destruct (Nat.ltb_spec 12 nper) as [H12|H12].
      * run_setitem.
        erewrite bind_raise; [reflexivity|].
        eapply setitem_short;
          [proj_simpl; reflexivity | rewrite length_insert, length_zeros; lia].
      * erewrite bind_raise; [reflexivity|].
        eapply setitem_short;
          [proj_simpl; reflexivity | rewrite length_zeros; lia].
Qed.

(** With a period counter of more than 18 entries and inputs that reach
    far enough, the adjustment method returns. *)
Lemma adjust_cashflow_total loan (st1 : Amortization A) cnt :
  pmt_cnt st1 = Some cnt -> 18 < length cnt ->
  inputs_cover (length cnt) st1 ->
  (calc_default_prepay_adjust_cashflow loan st1).2 = Ok tt.
Proof.
  intros Hcnt H18 Hin.
  destruct (adjust_cashflow_run loan st1 cnt Hcnt ltac:(lia) Hin)
    as (sl & _ & _ & _ & _ & _ & ->).
  destruct (Nat.ltb_spec 18 (length cnt)); [reflexivity | lia].
Qed.
Lemma scheduled_inputs_cover (loan : Loan A) (st0 : Amortization A) dr ps :
  default_rate st0 = Some dr -> prepay_speed st0 = Some ps ->
  term loan <= length dr -> term loan + 1 <= length ps ->
  inputs_cover (term loan + 1) (calc_scheduled_cashflow loan st0).1.
Proof.
  intros Hdr Hps Ldr Lps.
  destruct (calc_scheduled_cashflow_spec loan st0) as (sb & -> & Hlen & _).
  cbn [fst]. unfold inputs_cover. proj_simpl.
  exists dr. eexists. exists sb. eexists. exists ps.
  repeat split; try eassumption; try reflexivity;
    simpl; rewrite ?length_fmap, ?length_seq; lia.
Qed.

End Completion.

(** ** The adjustment recurrence and the total cash flow *)

Section CashflowTheorems.
Context {A : Type} `{Arith A}.
Local Open Scope arith_scope.

(** C1: on an object that holds a default-rate series of at least [term]
    entries and a prepay-speed series of at least [term + 1] entries, and
    whenever the adjustment method returns, the scheduled amortization
    followed by the adjustment method leaves a realized balance seeded
    with the invested amount at period 0 and, for every period
    [1 <= i <= term], the recurrence: default from the prior balance and
    the prior period's rate, prepay from the current period's speed,
    principal, balance and interest as stated.  This holds also when the
    method goes on to raise at the earnout periods. *)
Theorem adjustment_recurrence (loan : Loan A) (st0 : Amortization A) :
  (run_recurrence loan st0).2 = Ok tt \/
  (exists dr ps, default_rate st0 = Some dr /\ prepay_speed st0 = Some ps /\
                 term loan <= length dr /\ term loan + 1 <= length ps) ->
  elem (balance (run_recurrence loan st0).1) 0 = Some (invested loan) /\
  forall i, 1 <= i <= term loan ->
    recurrence_at (periodic_rate loan) (run_recurrence loan st0).1 i.
Proof.
  unfold run_recurrence. intros [Hok | (dr & ps & Hdr & Hps & Ldr & Lps)].
  - destruct (calc_default_prepay_adjust_cashflow loan
                (calc_scheduled_cashflow loan st0).1) as [st2 r] eqn:Hrun.
    cbn [fst snd] in *. subst r.
    destruct (calc_scheduled_cashflow_spec loan st0)
      as (sb & E & Hlen & Hsb0 & _).
    rewrite E in Hrun. cbn [fst] in Hrun.
    apply adjust_cashflow_inv in Hrun
      as (cnt & bal & dflt & pre & pr & int & sb0 & Hrun).
    cbn zeta in Hrun. proj_simpl_in Hrun.
    destruct Hrun as (Hcnt & _ & _ & Hrec & Hbal & _ & _ & _ & _ & _ & _ & _ &
                      _ & _ & Hs0 & Hb0 & _).
    injection Hcnt as <-. rewrite length_seq in Hrec.
    simpl in Hs0. rewrite Hsb0 in Hs0. injection Hs0 as <-.
    split.
    + rewrite Hbal. exact Hb0.
    + intros i Hi. apply Hrec. lia.
  - pose proof (scheduled_inputs_cover loan st0 dr ps Hdr Hps Ldr Lps) as Hin.
    destruct (calc_scheduled_cashflow_spec loan st0)
      as (sb & E & Hlen & Hsb0 & _).
    rewrite E in *. cbn [fst] in *.
    match type of Hin with
    | inputs_cover _ ?st1 =>
        destruct (adjust_cashflow_run loan st1 (seq 0 (term loan + 1)))
          as (sl & _ & _ & Hb0 & Hrec & Hkeep & _);
          [reflexivity | rewrite length_seq; lia | rewrite length_seq; exact Hin |]
    end.
    rewrite length_seq in Hrec. proj_simpl_in Hb0. simpl in Hb0.
    split.
    + destruct Hkeep as (_ & -> & _). rewrite Hb0. exact Hsb0.
    + intros i Hi. eapply recurrence_at_kept; [exact Hkeep|].
      apply Hrec. lia.
Qed.

(** C2: after a successful run, the total cash flow of period 0 is
    [-invested * (1 + premium)], the servicing cash flow of period 0 is
    zero, and for every period [1 <= i <= term] the total cash flow is
    principal + interest + recovery - servicing - earnout, with recovery
    the default times the recovery rate and servicing the surviving
    balance times the servicing fee over the periods per year. *)
Theorem total_cash_flow (loan : Loan A) (st0 st2 : Amortization A) :
  run_recurrence loan st0 = (st2, Ok tt) ->
  elem (total_cf st2) 0 =
    Some (- invested loan * (of_Z 1 + premium loan)) /\
  elem (servicing_cf st2) 0 = Some (of_Z 0) /\
  forall i, 1 <= i <= term loan -> total_cf_at loan st2 i.
Proof.
  unfold run_recurrence.
  destruct (calc_scheduled_cashflow_spec loan st0) as (sb & -> & Hlen & Hsb0 & _).
  cbn [fst]. intros Hrun.
  apply adjust_cashflow_inv in Hrun
    as (cnt & bal & dflt & pre & pr & int & sb0 & Hrun).
  cbn zeta in Hrun. proj_simpl_in Hrun.
  destruct Hrun as (Hcnt & H18 & _ & _ & Hbal & Hdflt & Hpre & Hpr & Hint &
                    Lbal & Ldflt & Lpre & Lpr & Lint & _ & _ & _ & _ & _ & _ &
                    Hrec & Hsrv & Hear & Htot).
  injection Hcnt as <-. rewrite length_seq in *.
  set (fee := earnout_fee loan / of_Z 2 * invested loan) in *.
  set (npy := of_Z (FREQ_PERIOD_MAP (amort_freq loan))) in *.
  set (rec := (fun d => d * recovery_rate loan) <$> dflt) in *.
  set (srv := of_Z 0 :: _) in *.
  set (ear := <[18:=fee]> (<[12:=fee]> (zeros (term loan + 1)))) in *.
  assert (Lrec : length rec = (term loan + 1)%nat)
    by (subst rec; rewrite length_fmap; exact Ldflt).
  assert (Lear : length ear = (term loan + 1)%nat)
    by (subst ear; rewrite !length_insert, length_zeros; reflexivity).
  assert (Lsrv : length srv = (term loan + 1)%nat).
  { subst srv. simpl. rewrite length_fmap, length_zip_with, length_take,
      length_drop. lia. }
  split.
  { rewrite Htot. simpl. apply list_lookup_insert_eq.
    rewrite !length_zip_with. lia. }
  split; [rewrite Hsrv; reflexivity|].
  intros i Hi. unfold total_cf_at.
  rewrite Hpr, Hint, Hrec, Hsrv, Hear, Hdflt, Hbal, Htot. simpl elem.
  destruct (lookup_lt_is_Some_2 pr i) as [p Hp]; [lia|].
  destruct (lookup_lt_is_Some_2 int i) as [n Hn]; [lia|].
  destruct (lookup_lt_is_Some_2 ear i) as [e He]; [lia|].
  destruct (lookup_lt_is_Some_2 dflt i) as [d Hd]; [lia|].
  destruct (lookup_lt_is_Some_2 bal (i - 1)) as [b1 Hb1]; [lia|].
  assert (Hr : rec !! i = Some (d * recovery_rate loan))
    by (subst rec; rewrite list_lookup_fmap, Hd; reflexivity).
  assert (Hs : srv !! i = Some ((b1 - d) * servicing_fee loan / npy)).
  { subst srv. destruct i as [|i]; [lia|]. simpl.
    rewrite list_lookup_fmap, lookup_zip_with, lookup_take_lt by lia.
    rewrite lookup_drop. simpl in Hb1. rewrite Nat.sub_0_r in Hb1.
    rewrite Hb1. simpl. rewrite Hd. reflexivity. }
  exists p, n, (d * recovery_rate loan), ((b1 - d) * servicing_fee loan / npy),
    e, d, b1.
  repeat split; try assumption.
  rewrite list_lookup_insert_ne by lia.
  rewrite !lookup_zip_with, Hp, Hn, Hr, Hs, He. reflexivity.
Qed.
End CashflowTheorems.

(** The recurrence on the six-period loan, whose run raises at the
    earnout periods. *)
Lemma adjustment_recurrence_witness :
  (run_recurrence ex_short_loan ex_short_st0).2
    = Raise (IndexError "index is out of bounds") /\
  elem (balance (run_recurrence ex_short_loan ex_short_st0).1) 0
    = Some (invested ex_short_loan) /\
  forall i, 1 <= i <= term ex_short_loan ->
    recurrence_at (periodic_rate ex_short_loan)
                  (run_recurrence ex_short_loan ex_short_st0).1 i.
Proof.
  split; [vm_compute; reflexivity|].
  apply (adjustment_recurrence ex_short_loan ex_short_st0).
  right. exists (replicate 6 0.01%float), (0%float :: replicate 6 0.02%float).
  repeat split; simpl; lia.
Defined.

Lemma total_cash_flow_witness :
  elem (total_cf ex_st2) 0 =
    Some (- invested ex_loan * (of_Z 1 + premium ex_loan))%ar /\
  elem (servicing_cf ex_st2) 0 = Some (of_Z 0) /\
  forall i, 1 <= i <= term ex_loan -> total_cf_at ex_loan ex_st2 i.
Proof.
  apply (total_cash_flow ex_loan ex_st0 ex_st2).
  vm_compute. reflexivity.
Defined.

(** ** The earnout periods *)

Section EarnoutTheorems.
Context {A : Type} `{Arith A}.
Local Open Scope arith_scope.

(** C5, as the code has it: when the recurrence succeeds the term is at
    least 18 and the earnout series is zero at every period except 12
    and 18, which hold [earnout_fee / 2 * invested]; and on an object
    whose default-rate series has [term] entries and whose prepay-speed
    series has [term + 1], the recurrence succeeds for a term of at least
    18 and raises an index error for every shorter term. *)
Theorem earnout_periods (loan : Loan A) (st0 : Amortization A) :
  ((run_recurrence loan st0).2 = Ok tt ->
   18 <= term loan /\
   forall i, i <= term loan ->
     elem (earout_cf (run_recurrence loan st0).1) i =
       Some (if bool_decide (i = 12 \/ i = 18)
             then earnout_amount loan else of_Z 0)) /\
  ((exists dr ps, default_rate st0 = Some dr /\ prepay_speed st0 = Some ps /\
                  term loan <= length dr /\ term loan + 1 <= length ps) ->
   (run_recurrence loan st0).2 =
     if 18 <=? term loan then Ok tt
     else Raise (IndexError "index is out of bounds")).
Proof.
  unfold run_recurrence. split.
  - destruct (calc_default_prepay_adjust_cashflow loan
                (calc_scheduled_cashflow loan st0).1) as [st2 r] eqn:Hrun.
    cbn [fst snd]. intros ->.
    destruct (calc_scheduled_cashflow_spec loan st0) as (sb & E & _).
    rewrite E in Hrun. cbn [fst] in Hrun.
    apply adjust_cashflow_inv in Hrun
      as (cnt & bal & dflt & pre & pr & int & sb0 & Hrun).
    cbn zeta in Hrun. proj_simpl_in Hrun.
    destruct Hrun as (Hcnt & H18 & _ & _ & _ & _ & _ & _ & _ &
                      _ & _ & _ & _ & _ & _ & _ & _ & _ & _ & _ &
                      _ & _ & Hear & _).
    injection Hcnt as <-. rewrite length_seq in *.
    split; [lia|]. intros i Hi. rewrite Hear. simpl. fold (earnout_amount loan).
    case_bool_decide as Hc.
    + destruct Hc as [-> | ->].
      * rewrite list_lookup_insert_ne by lia.
        apply list_lookup_insert_eq. rewrite length_zeros. lia.
      * apply list_lookup_insert_eq.
        rewrite length_insert, length_zeros. lia.
    + rewrite !list_lookup_insert_ne by lia. apply lookup_zeros. lia.
  - intros (dr & ps & Hdr & Hps & Ldr & Lps).
    pose proof (scheduled_inputs_cover loan st0 dr ps Hdr Hps Ldr Lps) as Hin.
    destruct (calc_scheduled_cashflow_spec loan st0) as (sb & E & _).
    rewrite E in *. cbn [fst] in *.
    match type of Hin with
    | inputs_cover _ ?st1 =>
        destruct (adjust_cashflow_run loan st1 (seq 0 (term loan + 1)))
          as (sl & _ & _ & _ & _ & _ & ->);
          [reflexivity | rewrite length_seq; lia | rewrite length_seq; exact Hin |]
    end.
    rewrite length_seq.
    destruct (Nat.ltb_spec 18 (term loan + 1)), (Nat.leb_spec 18 (term loan));
      first [reflexivity | lia].
Qed.
(** Ordering: on an object whose period counter is still unset, that is,
    before the scheduled amortization has run, the adjustment method raises
    at once and leaves the object as it was. *)
Theorem adjustment_before_schedule_raises (loan : Loan A) (st : Amortization A) :
  pmt_cnt st = None ->
  calc_default_prepay_adjust_cashflow loan st =
    (st, Raise (TypeError "exceptions must derive from BaseException")).
Proof.
  intros Hnone. unfold calc_default_prepay_adjust_cashflow.
  rewrite Hnone. reflexivity.
Qed.
End EarnoutTheorems.

(** C5, as the claim states it, fails at a term of 18: the worked loan has
    18 periods, fewer than 19, and periods 12 and 18 of its earnout series
    exist and are written. *)
Lemma earnout_valid_at_term_18 :
  term ex_loan < 19 /\
  run_recurrence ex_loan ex_st0 = (ex_st2, Ok tt) /\
  elem (earout_cf ex_st2) 12 = Some 93.75%float /\
  elem (earout_cf ex_st2) 18 = Some 93.75%float.
Proof. vm_compute. repeat split; (lia || reflexivity). Qed.

(** The two outcomes: the 18-period loan succeeds and holds the fee at
    periods 12 and 18; the six-period loan raises the index error. *)
Lemma earnout_periods_witness :
  (18 <= term ex_loan /\
   forall i, i <= term ex_loan ->
     elem (earout_cf (run_recurrence ex_loan ex_st0).1) i =
       Some (if bool_decide (i = 12 \/ i = 18)
             then earnout_amount ex_loan else of_Z 0)) /\
  (run_recurrence ex_short_loan ex_short_st0).2 =
    Raise (IndexError "index is out of bounds").
Proof.
  split.
  - apply (earnout_periods ex_loan ex_st0). vm_compute. reflexivity.
  - apply (earnout_periods ex_short_loan ex_short_st0).
    exists (replicate 6 0.01%float), (0%float :: replicate 6 0.02%float).
    repeat split; simpl; lia.
Defined.

Lemma adjustment_before_schedule_raises_witness :
  calc_default_prepay_adjust_cashflow ex_loan new_Amortization =
    (new_Amortization,
     Raise (TypeError "exceptions must derive from BaseException")).
Proof.
  apply (adjustment_before_schedule_raises ex_loan new_Amortization).
  reflexivity.
Defined.

(** ** The default-rate lookup *)

Section LookupTheorems.
Context {A : Type} `{Arith A}.
Variables CHARGED_OFF PREPAY : table A.

Lemma has_column_column (k : label) (t : table A) :
  has_column k t = true -> exists col, column k t = Some col /\ (k, col) ∈ t.
Proof.
  unfold has_column, column. intros Hin. apply bool_decide_eq_true in Hin.
  induction t as [|[k' c] t IH]; [inversion Hin|].
  simpl. case_bool_decide as Hk; simpl in Hk.
  - subst k'. exists c. split; [reflexivity | left].
  - simpl in Hin. apply elem_of_cons in Hin as [->|Hin]; [done|].
    destruct (IH Hin) as (col & Hc & Hm). exists col. split; [exact Hc|].
    by right.
Qed.




(** C8, as the code has it.  An integer selector [c] over a table of [n]
    columns raises the range error of the explicit guard exactly when
    [c >= n], raises the positional indexer's range error when [c < -n],
    and otherwise stores a column: column [c], counted from the end when
    [c] is negative.  A [bool] selector passes the type test as the
    integer 1 or 0: it raises the range error of the guard when that
    integer is [>= n], and otherwise the positional indexer refuses it
    with a value error; it never stores a column.  A string selector
    raises a key-not-found error exactly when no column has that label and
    otherwise stores the column with that label.  Any other selector
    raises the invalid-selector error.  Every failure leaves the object as
    it was before the call, and [calc_cashflows] then raises the same
    error, leaving the object as the prepay-speed lookup left it. *)
Theorem fetch_default_rate_outcomes (sel : selector) (st : Amortization A) :
  match sel with
  | SelInt c =>
      let n := Z.of_nat (length CHARGED_OFF) in
      ((n <= c)%Z ->
         fetch_default_rate CHARGED_OFF sel st =
           (st, Raise (ValueError
              (pretty c +:+ " exceeds Charge Off table's column index.")))) /\
      ((c < - n)%Z ->
         fetch_default_rate CHARGED_OFF sel st =
           (st, Raise (IndexError "single positional indexer is out-of-bounds"))) /\
      ((- n <= c < n)%Z ->
         exists col, CHARGED_OFF !! Z.to_nat (c mod n) = Some col /\
           fetch_default_rate CHARGED_OFF sel st =
             (set_default_rate (Some col.2) st, Ok tt))
  | SelBool b =>
      let n := Z.of_nat (length CHARGED_OFF) in
      ((n <= Z.b2z b)%Z ->
         fetch_default_rate CHARGED_OFF sel st =
           (st, Raise (ValueError
              (bool_str b +:+ " exceeds Charge Off table's column index.")))) /\
      ((Z.b2z b < n)%Z ->
         fetch_default_rate CHARGED_OFF sel st =
           (st, Raise (ValueError "Can only index by location with a [integer, integer slice (START point is INCLUDED, END point is EXCLUDED), listlike of integers, boolean array]")))
  | SelStr s =>
      (has_column (LStr s) CHARGED_OFF = false ->
         fetch_default_rate CHARGED_OFF sel st =
           (st, Raise (KeyError
              (s +:+ " cannot be found in the Charge Off table")))) /\
      (has_column (LStr s) CHARGED_OFF = true ->
         exists col, (LStr s, col) ∈ CHARGED_OFF /\
           column (LStr s) CHARGED_OFF = Some col /\
           fetch_default_rate CHARGED_OFF sel st =
             (set_default_rate (Some col) st, Ok tt))
  | SelOther =>
      fetch_default_rate CHARGED_OFF sel st =
        (st, Raise (KeyError
           "chargeoff_col argument must be either a str or an int"))
  end /\
  (forall st' e, fetch_default_rate CHARGED_OFF sel st = (st', Raise e) ->
                 st' = st) /\
  (forall loan e,
     (fetch_prepay_speed PREPAY (term loan) st).2 = Ok tt ->
     sel = default_rate_selector loan ->
     (fetch_default_rate CHARGED_OFF sel
        (fetch_prepay_speed PREPAY (term loan) st).1).2 = Raise e ->
     calc_cashflows CHARGED_OFF PREPAY loan st =
       ((fetch_prepay_speed PREPAY (term loan) st).1, Raise e)).
Proof.
  assert (Hfail : forall s0 st' e,
             fetch_default_rate CHARGED_OFF sel s0 = (st', Raise e) -> st' = s0).
  { intros s0 st' e. unfold fetch_default_rate.
    destruct sel as [c|b|s|].
    - destruct (c >=? _)%Z; [unfold raise; congruence|].
      unfold bind, lift, assign.
      destruct (iloc_column c CHARGED_OFF); congruence.
    - destruct (_ >=? _)%Z; unfold raise; congruence.
    - destruct (negb _); [unfold raise; congruence|].
      destruct (column _ _); unfold raise, assign; congruence.
    - unfold raise; congruence. }
  split; [|split].
  - destruct sel as [c|b|s|]; [| | |reflexivity].
    + cbn zeta. unfold fetch_default_rate. repeat split.
      * intros Hc. destruct (Z.geb_spec c (Z.of_nat (length CHARGED_OFF)));
          [reflexivity | lia].
      * intros Hc. destruct (Z.geb_spec c (Z.of_nat (length CHARGED_OFF)));
          [lia|].
        unfold bind, lift, iloc_column.
        destruct (Z.ltb_spec c 0); [|lia].
        destruct (Z.leb_spec 0 (Z.of_nat (length CHARGED_OFF) + c)); [lia|].
        reflexivity.
      * intros Hc. destruct (Z.geb_spec c (Z.of_nat (length CHARGED_OFF)));
          [lia|].
        set (n := Z.of_nat (length CHARGED_OFF)) in *.
        assert (Hpos : (if (c <? 0)%Z then (n + c)%Z else c) = (c mod n)%Z).
        { destruct (Z.ltb_spec c 0).
          - symmetry. rewrite <- (Z.mod_small (n + c) n) by lia.
            rewrite <- (Z.mod_add c 1 n) by lia. f_equal. lia.
          - symmetry. apply Z.mod_small. lia. }
        unfold bind, lift, iloc_column. fold n. rewrite Hpos.
        assert (0 <= c mod n < n)%Z as [Hlo Hhi] by (apply Z.mod_pos_bound; lia).
        destruct (Z.leb_spec 0 (c mod n)); [|lia].
        destruct (Z.ltb_spec (c mod n) n); [|lia]. simpl.
        destruct (CHARGED_OFF !! Z.to_nat (c mod n)) as [col|] eqn:Hcol.
        -- exists col. split; reflexivity.
        -- apply lookup_ge_None in Hcol. subst n. lia.
    + cbn zeta. unfold fetch_default_rate. split.
      * intros Hc.
        destruct (Z.geb_spec (Z.b2z b) (Z.of_nat (length CHARGED_OFF)));
          [reflexivity | lia].
      * intros Hc.
        destruct (Z.geb_spec (Z.b2z b) (Z.of_nat (length CHARGED_OFF)));
          [lia | reflexivity].
    + unfold fetch_default_rate. split.
      * intros ->. reflexivity.
      * intros Hin. rewrite Hin. simpl.
        destruct (has_column_column _ _ Hin) as (col & Hc & Hm).
        exists col. rewrite Hc. repeat split; assumption.
  - intros st' e. apply Hfail.
  - intros loan e Hps ->. unfold calc_cashflows.
    destruct (fetch_prepay_speed PREPAY (term loan) st) as [s1 r1] eqn:E1.
    simpl in Hps. subst r1. cbn [fst snd].
    destruct (fetch_default_rate CHARGED_OFF (default_rate_selector loan) s1)
      as [s2 r2] eqn:E2.
    simpl. intros ->. pose proof (Hfail _ _ _ E2) as ->.
    rewrite (bind_intro _ _ _ _ _ E1).
    apply bind_raise. exact E2.
Qed.

End LookupTheorems.

(** C8, as the claim states it, fails twice over three columns.  At index
    -4 the index does not exceed the column count, and yet no column is
    stored and a range error is raised, by the positional indexer.  At
    [True], an integer to the type test and 1 to the guard, the index does
    not exceed the column count either, and yet no column is stored: the
    positional indexer refuses a [bool] with a value error. *)
Lemma negative_index_out_of_range :
  ((-4 < Z.of_nat (length ex_CHARGED_OFF))%Z /\
   fetch_default_rate ex_CHARGED_OFF (SelInt (-4)) new_Amortization =
     (new_Amortization,
      Raise (IndexError "single positional indexer is out-of-bounds"))) /\
  ((Z.b2z true < Z.of_nat (length ex_CHARGED_OFF))%Z /\
   fetch_default_rate ex_CHARGED_OFF (SelBool true) new_Amortization =
     (new_Amortization,
      Raise (ValueError "Can only index by location with a [integer, integer slice (START point is INCLUDED, END point is EXCLUDED), listlike of integers, boolean array]"))).
Proof.
  split; (split; [vm_compute; reflexivity | reflexivity]).
Qed.

Lemma fetch_default_rate_outcomes_witness :
  exists col, ex_CHARGED_OFF !! 2 = Some col /\
    fetch_default_rate ex_CHARGED_OFF (SelInt (-1)) new_Amortization =
      (set_default_rate (Some col.2) new_Amortization, Ok tt).
Proof.
  destruct (fetch_default_rate_outcomes ex_CHARGED_OFF ex_PREPAY
              (SelInt (-1)) new_Amortization) as ((_ & _ & Hin) & _).
  apply Hin. simpl. lia.
Defined.


(** ** Payment dates *)

Section PaymentDateTheorems.
Context {A : Type} `{Arith A}.

(** C9 at a start date on the 30th of January: the month-end series is
    2015-01-31, 2015-02-28; its first day differs from 30, so every date
    is moved to day 30, which February does not have, and the method
    raises with the uncorrected series left on the object. *)
Theorem payment_date_raises_in_short_month (st : Amortization A) :
  payment_date (mkDate 2015 1 30) 1 FreqM st =
    (set_pmt_date (Some [mkDate 2015 1 31; mkDate 2015 2 28]) st,
     Raise (ValueError "day is out of range for month")).
Proof. reflexivity. Qed.

(** With the yearly frequency the series is anchored at the year end, so
    after the correction it does not begin at the start date. *)
Lemma payment_date_yearly_starts_in_december (st : Amortization A) :
  payment_date (mkDate 2015 8 24) 1 FreqY st =
    (set_pmt_date (Some [mkDate 2015 12 24; mkDate 2016 12 24]) st, Ok tt).
Proof. reflexivity. Qed.

Lemma result_mapM_length {T U} (f : T -> result U) l l' :
  result_mapM f l = Ok l' -> length l' = length l.
Proof.
  revert l'. induction l as [|x l IH]; intros l'; simpl.
  - intros [= <-]. reflexivity.
  - destruct (f x) as [y|]; [|discriminate]. simpl.
    destruct (result_mapM f l) as [ys|]; [|discriminate]. simpl.
    intros [= <-]. simpl. f_equal. apply IH. reflexivity.
Qed.

Lemma length_offset_dates start n f : length (offset_dates start n f) = n.
Proof. destruct f; simpl; rewrite length_fmap, length_seq; reflexivity. Qed.

(** [pd.date_range] returns the dates of the frequency, and only when the
    start and the endpoint are in the range of a [Timestamp]. *)
Lemma date_range_ok start n f dates :
  date_range start n f = Ok dates ->
  dates = offset_dates start n f /\
  in_bounds start = true /\ in_bounds (range_end start n f) = true.
Proof.
  unfold date_range.
  destruct (in_bounds start); [|discriminate].
  destruct (in_bounds (range_end start n f)); [|discriminate].
  intros [= <-]. auto.
Qed.

Lemma date_range_in_range start n f :
  in_bounds start = true -> in_bounds (range_end start n f) = true ->
  date_range start n f = Ok (offset_dates start n f).
Proof. unfold date_range. intros -> ->. reflexivity. Qed.

Lemma length_date_range start n f dates :
  date_range start n f = Ok dates -> length dates = n.
Proof.
  intros Hr. apply date_range_ok in Hr as (-> & _). apply length_offset_dates.
Qed.

Lemma range_end_months start periods f step :
  freq_months f = Some step ->
  range_end start (periods + 1) f = month_end_after start (step * periods).
Proof.
  destruct f; intros [= <-]; simpl; rewrite Nat.add_sub; try reflexivity.
  f_equal. lia.
Qed.

(** Within the range of a [Timestamp], the method stores the dates of the
    frequency and corrects their day when the first one does not fall on
    the start date's day. *)
Lemma payment_date_in_range start periods f (st : Amortization A) :
  in_bounds start = true ->
  in_bounds (range_end start (periods + 1) f) = true ->
  payment_date start periods f st =
    bind (assign set_pmt_date (Some (offset_dates start (periods + 1) f)))
      (fun _ =>
       bind (lift (getitem (offset_dates start (periods + 1) f) 0))
         (fun d0 =>
          if negb (day start =? day d0)
          then bind (lift (result_mapM (replace_day (day start))
                             (offset_dates start (periods + 1) f)))
                    (fun fixed => assign set_pmt_date (Some fixed))
          else ret tt)) st.
Proof.
  intros Hs He. unfold payment_date.
  rewrite (date_range_in_range _ _ _ Hs He). reflexivity.
Qed.

(** A run of [payment_date] that returns leaves [periods + 1] dates and
    touches no other attribute. *)
Lemma payment_date_ok start periods f (st st' : Amortization A) :
  payment_date start periods f st = (st', Ok tt) ->
  exists dates, st' = set_pmt_date (Some dates) st /\
                length dates = periods + 1.
Proof.
  unfold payment_date. intros Hrun.
  apply bind_ok in Hrun as (s0 & raw & X & Hrun).
  unfold lift in X. injection X as <- Hraw.
  apply length_date_range in Hraw.
  apply bind_ok in Hrun as (s1 & [] & X & Hrun).
  unfold assign in X. injection X as <-.
  apply bind_ok in Hrun as (s2 & d0 & X & Hrun).
  unfold lift in X. injection X as <- _.
  destruct (negb _).
  - apply bind_ok in Hrun as (s3 & fixed & X & Hrun).
    unfold lift in X. injection X as <- X.
    unfold assign in Hrun. injection Hrun as <-.
    exists fixed. split; [reflexivity|].
    rewrite (result_mapM_length _ _ _ X). exact Hraw.
  - unfold ret in Hrun. injection Hrun as <-.
    eexists. split; [reflexivity|]. exact Hraw.
Qed.
Lemma days_in_month_ge_28 y m : 28 <= days_in_month y m.
Proof.
  unfold days_in_month.
  do 12 (destruct m as [|m]; [try destruct (is_leap y); lia|]). lia.
Qed.

Lemma result_mapM_replace_day dd (l : list date) :
  1 <= dd <= 28 ->
  result_mapM (replace_day dd) l =
    Ok ((fun t => mkDate (year t) (month t) dd) <$> l).
Proof.
  intros Hdd. induction l as [|t l IH]; simpl; [reflexivity|].
  unfold replace_day at 1.
  pose proof (days_in_month_ge_28 (year t) (month t)).
  destruct (Nat.leb_spec 1 dd); [|lia].
  destruct (Nat.leb_spec dd (days_in_month (year t) (month t))); [|lia].
  simpl. rewrite IH. reflexivity.
Qed.

Lemma date_range_months start nper f step :
  freq_months f = Some step ->
  offset_dates start nper f =
    (fun k => month_end_after start (step * k)) <$> seq 0 nper.
Proof.
  destruct f; intros [= <-]; simpl; try reflexivity.
  apply list_fmap_ext. intros _ k _. f_equal. lia.
Qed.

Lemma month_end_after_0 start :
  1 <= month start <= 12 ->
  month_end_after start 0 =
    mkDate (year start) (month start)
           (days_in_month (year start) (month start)).
Proof.
  intros Hm. unfold month_end_after.
  replace (year start * 12 + (month start - 1) + 0)
    with ((month start - 1) + year start * 12) by lia.
  rewrite Nat.div_add, Nat.Div0.mod_add by lia.
  rewrite Nat.div_small, Nat.mod_small by lia.
  cbv zeta. replace (S (month start - 1)) with (month start) by lia.
  rewrite Nat.add_0_l. reflexivity.
Qed.

(** Where the contract of the payment dates holds: for a month-end
    frequency, a start date that is not the last day of its month and
    whose day every month has (at most 28), and a schedule whose start and
    last month end lie in the range of a [Timestamp], the method returns
    [periods + 1] dates, the first is the start date, and each is the
    start date's day of the month that lies a whole number of steps
    later. *)
Theorem payment_date_keeps_day
    (start : date) (periods : nat) (f : freq) (step : nat)
    (st : Amortization A) :
  freq_months f = Some step ->
  1 <= month start <= 12 -> 1 <= day start <= 28 ->
  day start <> days_in_month (year start) (month start) ->
  in_bounds start = true ->
  in_bounds (month_end_after start (step * periods)) = true ->
  exists dates,
    payment_date start periods f st = (set_pmt_date (Some dates) st, Ok tt) /\
    length dates = periods + 1 /\
    dates !! 0 = Some start /\
    forall k, k <= periods ->
      dates !! k =
        Some (mkDate (year (month_end_after start (step * k)))
                     (month (month_end_after start (step * k)))
                     (day start)).
Proof.
  intros Hf Hm Hd Hne Hs He.
  rewrite <- (range_end_months _ _ _ _ Hf) in He.
  set (raw := (fun k => month_end_after start (step * k)) <$> seq 0 (periods + 1)).
  exists ((fun t => mkDate (year t) (month t) (day start)) <$> raw).
  assert (Hk : forall k, k <= periods ->
             ((fun t => mkDate (year t) (month t) (day start)) <$> raw) !! k =
             Some (mkDate (year (month_end_after start (step * k)))
                          (month (month_end_after start (step * k)))
                          (day start))).
  { intros k Hk. subst raw.
    rewrite !list_lookup_fmap, lookup_seq_lt by lia. reflexivity. }
  split; [|split; [|split]].
  - rewrite (payment_date_in_range _ _ _ _ Hs He).
    rewrite (date_range_months _ _ _ _ Hf). fold raw.
    rewrite bind_assign.
    assert (H0 : raw !! 0 = Some (month_end_after start 0)).
    { subst raw. rewrite list_lookup_fmap, lookup_seq_lt by lia.
      simpl. rewrite Nat.mul_0_r. reflexivity. }
    unfold bind at 1, lift at 1, getitem. rewrite H0.
    rewrite month_end_after_0 by exact Hm. cbn [day].
    destruct (Nat.eqb_spec (day start)
                (days_in_month (year start) (month start))); [contradiction|].
    cbn [negb]. rewrite result_mapM_replace_day by exact Hd.
    reflexivity.
  - subst raw. rewrite !length_fmap, length_seq. reflexivity.
  - rewrite Hk by lia. rewrite Nat.mul_0_r.
    rewrite month_end_after_0 by exact Hm. destruct start; reflexivity.
  - exact Hk.
Qed.
End PaymentDateTheorems.

(** ** The IRR solver *)

Section SolverTheorems.
Context {A : Type} `{Arith A}.
Context {S : Type}.
Variable setup : (A -> A) -> A -> S.
Variable current : S -> A.
Variable update : (A -> A) -> S -> result S.

(** When the budget runs out, the exception carries the iterate reached
    after all [maxiter] updates. *)
Lemma nonlin_solve_no_convergence F tol maxiter s x :
  nonlin_solve current update F tol maxiter s = inr (NoConvergence x) ->
  exists s', iterate update F maxiter s = Ok s' /\ x = current s'.
Proof.
  revert s. induction maxiter as [|n IH]; intros s; simpl.
  - intros [= <-]. eauto.
  - destruct (leb _ _); [discriminate|].
    destruct (update F s) as [s1|e]; [|discriminate]. simpl. apply IH.
Qed.

(** A point the solver returns meets the tolerance. *)
Lemma nonlin_solve_converged F tol maxiter s r :
  nonlin_solve current update F tol maxiter s = inl r ->
  leb (absv (F r)) tol = true.
Proof.
  revert s. induction maxiter as [|n IH]; intros s; simpl; [discriminate|].
  destruct (leb (absv (F (current s))) tol) eqn:E.
  - intros [= <-]. exact E.
  - destruct (update F s) as [s1|e]; [apply IH | discriminate].
Qed.

(** C3: when the root-finder uses up its iteration budget without meeting
    the tolerance, [irr] does not raise: it returns the solver's last
    iterate, the one reached after all 200 updates, and logs one
    warning. *)
Theorem irr_returns_estimate_without_convergence
    (cashflow : list A) (guess x : A) :
  broyden1 setup current update (npv cashflow) guess f_tol
    = inr (NoConvergence x) ->
  irr setup current update cashflow guess
    = (Ok x, ["IRR solver doesn't converge!"]) /\
  exists s', iterate update (npv cashflow) default_maxiter
               (setup (npv cashflow) guess) = Ok s' /\
             x = current s'.
Proof.
  intros Hno. split.
  - unfold irr. rewrite Hno. reflexivity.
  - apply nonlin_solve_no_convergence with (tol := f_tol). exact Hno.
Qed.

(** C4: when [irr] returns a rate with no warning logged, that is, when
    the solver converged, the net present value at that rate is within
    the absolute tolerance [1e-10] of zero. *)
Theorem npv_of_irr_within_tolerance (cashflow : list A) (guess r : A) :
  irr setup current update cashflow guess = (Ok r, []) ->
  leb (absv (npv cashflow r)) f_tol = true.
Proof.
  unfold irr, broyden1.
  destruct (nonlin_solve _ _ _ _ _ _) as [r'|[x|e]] eqn:E; [|discriminate..].
  intros [= <-]. eapply nonlin_solve_converged. exact E.
Qed.
End SolverTheorems.

Lemma payment_date_keeps_day_witness :
  exists dates,
    payment_date (mkDate 2015 8 24) 3 Freq3M (new_Amortization (A:=float))
      = (set_pmt_date (Some dates) new_Amortization, Ok tt) /\
    length dates = 3 + 1 /\
    dates !! 0 = Some (mkDate 2015 8 24) /\
    forall k, k <= 3 ->
      dates !! k =
        Some (mkDate (year (month_end_after (mkDate 2015 8 24) (3 * k)))
                     (month (month_end_after (mkDate 2015 8 24) (3 * k)))
                     24).
Proof.
  apply (payment_date_keeps_day (mkDate 2015 8 24) 3 Freq3M 3
           (new_Amortization (A:=float))).
  - reflexivity.
  - simpl. lia.
  - simpl. lia.
  - simpl. lia.
  - reflexivity.
  - reflexivity.
Defined.

Lemma irr_returns_estimate_without_convergence_witness :
  irr (fun _ x => x) id drift ex_flat_cashflow 0%float
    = (Ok 200%float, ["IRR solver doesn't converge!"]) /\
  exists s', iterate drift (npv ex_flat_cashflow) default_maxiter 0%float
               = Ok s' /\ 200%float = s'.
Proof.
  apply (irr_returns_estimate_without_convergence
           (fun _ x => x) id drift ex_flat_cashflow 0%float 200%float).
  vm_compute. reflexivity.
Defined.

Lemma npv_of_irr_within_tolerance_witness :
  leb (absv (npv ex_cashflow 0.1%float)) f_tol = true.
Proof.
  apply (npv_of_irr_within_tolerance (fun _ x => x) id fixed_slope
           ex_cashflow 0%float 0.1%float).
  vm_compute. reflexivity.
Defined.

(** ** The lengths of the series after the orchestration *)

Section OrchestrationTheorems.
Context {A : Type} `{Arith A}.
Variables CHARGED_OFF PREPAY : table A.
Local Open Scope arith_scope.

Lemma fetch_prepay_speed_ok nper (st st' : Amortization A) :
  fetch_prepay_speed PREPAY nper st = (st', Ok tt) ->
  exists ps, st' = set_prepay_speed (Some ps) st /\
             length ps = (nper + 1)%nat /\ ps !! 0 = Some (of_Z 0).
Proof.
  unfold fetch_prepay_speed.
  destruct (negb _); [discriminate|].
  rewrite bind_assign.
  destruct (column _ PREPAY) as [col|]; [|discriminate].
  destruct (Nat.eqb_spec (length (List.filter (fun x => negb (is_nan x)) col)) nper)
    as [E|E].
  - intros [= <-]. eexists. split; [reflexivity|]. simpl. split; [lia|reflexivity].
  - destruct (List.filter _ col) as [|v [|]]; try discriminate.
    intros [= <-]. eexists. split; [reflexivity|].
    simpl. rewrite length_replicate. split; [lia|reflexivity].
Qed.

Lemma elem_of_column (k : label) (t : table A) col :
  column k t = Some col -> col ∈ t.*2.
Proof.
  unfold column. induction t as [|[k' c] t IH]; simpl; [discriminate|].
  case_bool_decide.
  - intros [= <-]. left.
  - intros Hc. right. apply IH. exact Hc.
Qed.

Lemma fetch_default_rate_ok sel (st st' : Amortization A) :
  fetch_default_rate CHARGED_OFF sel st = (st', Ok tt) ->
  exists dr, st' = set_default_rate (Some dr) st /\ dr ∈ CHARGED_OFF.*2.
Proof.
  unfold fetch_default_rate. destruct sel as [c|b|s|]; [| | |discriminate].
  - destruct (c >=? _)%Z; [discriminate|].
    unfold bind, lift, iloc_column.
    destruct (_ && _); [|discriminate].
    destruct (CHARGED_OFF !! _) as [col|] eqn:E; [|discriminate].
    intros [= <-]. exists col.2. split; [reflexivity|].
    apply list_elem_of_fmap. exists col. split; [reflexivity|].
    eapply list_elem_of_lookup_2. exact E.
  - destruct (_ >=? _)%Z; discriminate.
  - destruct (negb _); [discriminate|].
    destruct (column _ _) as [col|] eqn:E; [|discriminate].
    intros [= <-]. exists col. split; [reflexivity|].
    eapply elem_of_column. exact E.
Qed.

Lemma to_dataframe_ok (st st' : Amortization A) df :
  to_dataframe st = (st', Ok df) ->
  st' = st /\
  exists dates dr,
    pmt_date st = Some dates /\ default_rate st = Some dr /\
    length dates <= length dr /\
    ("Default_Rate", ColFloat (take (length dates) dr)) ∈ df.
Proof.
  unfold to_dataframe.
  destruct (pmt_date st) as [dates|]; [|discriminate].
  destruct (default_rate st) as [dr|]; [|discriminate].
  destruct (forallb _ _) eqn:E; [|discriminate].
  intros [= <- <-]. split; [reflexivity|]. exists dates, dr.
  repeat split.
  - simpl in E. repeat (apply andb_prop in E as [? E]).
    match goal with
    | X : col_fits _ (ColFloat (take _ dr)) = true |- _ =>
        unfold col_fits in X; simpl in X; apply Nat.eqb_eq in X;
        rewrite length_take, length_seq in X; lia
    end.
  - rewrite length_seq. do 7 right. left.
Qed.

(** The prepay-speed lookup: a period count that labels no column of the
    prepayment table raises a key-not-found error and leaves the object as
    it was; a lookup that returns stores a series of [nper + 1] entries
    whose entry 0 is zero and touches no other attribute. *)
Theorem prepay_speed_lookup (nper : nat) (st : Amortization A) :
  (has_column (LInt (Z.of_nat nper)) PREPAY = false ->
   fetch_prepay_speed PREPAY nper st =
     (st, Raise (KeyError
        (pretty nper +:+ " cannot be found in the Prepay table")))) /\
  (forall st', fetch_prepay_speed PREPAY nper st = (st', Ok tt) ->
     exists ps, st' = set_prepay_speed (Some ps) st /\
                length ps = (nper + 1)%nat /\ ps !! 0 = Some (of_Z 0)).
Proof.
  split.
  - intros Hno. unfold fetch_prepay_speed. rewrite Hno. reflexivity.
  - intros st'. apply fetch_prepay_speed_ok.
Qed.

(** C7, as the code has it: after [calc_cashflows] completes, every series
    held by the object other than the default-rate series has [term + 1]
    entries and index 0 holds the initialization values; the default-rate
    series is a whole column of the charge-off table, of at least
    [term + 1] entries, and only the data frame returned holds it cut to
    [term + 1] entries. *)
Theorem series_after_orchestration (loan : Loan A) (st st' : Amortization A) df :
  calc_cashflows CHARGED_OFF PREPAY loan st = (st', Ok df) ->
  series_lengths (term loan + 1) st' /\
  initial_values loan st' /\
  exists dr, default_rate st' = Some dr /\
             dr ∈ CHARGED_OFF.*2 /\
             (term loan + 1 <= length dr)%nat /\
             ("Default_Rate", ColFloat (take (term loan + 1) dr)) ∈ df.
Proof.
  unfold calc_cashflows. intros Hrun.
  apply bind_ok in Hrun as (s1 & [] & H1 & Hrun).
  apply bind_ok in Hrun as (s2 & [] & H2 & Hrun).
  apply bind_ok in Hrun as (s3 & [] & H3 & Hrun).
  apply bind_ok in Hrun as (s4 & [] & H4 & Hrun).
  apply bind_ok in Hrun as (s5 & [] & H5 & Hrun).
  apply fetch_prepay_speed_ok in H1 as (ps & -> & Lps & Hps0).
  apply fetch_default_rate_ok in H2 as (dr & -> & Hdr).
  apply payment_date_ok in H3 as (dates & -> & Ldates).
  destruct (calc_scheduled_cashflow_spec loan
              (set_pmt_date (Some dates)
                 (set_default_rate (Some dr) (set_prepay_speed (Some ps) st))))
    as (sb & E & Lsb & Hsb0 & _).
  rewrite E in H4. injection H4 as <-.
  apply adjust_cashflow_inv in H5
    as (cnt & bal & dflt & pre & pr & int & sb0 & H5).
  cbn zeta in H5. proj_simpl_in H5.
  destruct H5 as (Hcnt & H18 & Hsame & _ & Hbal & Hdflt & Hpre & Hpr & Hint &
                  Lbal & Ldflt & Lpre & Lpr & Lint & Hs0 & Hb0 & Hd0 & Hp0 &
                  Hr0 & Hi0 & Hrec & Hsrv & Hear & Htot).
  injection Hcnt as <-. rewrite length_seq in *.
  simpl in Hs0. rewrite Hsb0 in Hs0. injection Hs0 as <-.
  unfold same_inputs in Hsame. proj_simpl_in Hsame.
  destruct Hsame as (Ecnt & Edates & Esp & Esi & Esb & Eps & Edr & _ & _).
  apply to_dataframe_ok in Hrun as (-> & dates' & dr' & Hdates & Hdr' & Lle & Hdf).
  rewrite Edates in Hdates. injection Hdates as <-.
  rewrite Edr in Hdr'. injection Hdr' as <-.
  rewrite Ldates in *.
  split; [|split].
  - unfold series_lengths.
    rewrite Ecnt, Edates, Esp, Esi, Esb, Eps, Hrec, Hsrv, Hear, Hbal, Hpr,
      Hdflt, Hpre, Hint, Htot. simpl.
    rewrite ?length_insert, ?length_zip_with, ?length_insert, ?length_fmap,
      ?length_seq, ?length_zeros, ?length_zip_with, ?length_take, ?length_drop.
    simpl. rewrite ?length_fmap, ?length_zip_with, ?length_take, ?length_drop.
    repeat split; f_equal; lia.
  - unfold initial_values.
    rewrite Ecnt, Edates, Esp, Esi, Esb, Eps, Hrec, Hsrv, Hear, Hbal, Hpr,
      Hdflt, Hpre, Hint, Htot. simpl.
    rewrite list_lookup_fmap, Hd0. simpl.
    rewrite !list_lookup_insert_ne by lia.
    rewrite lookup_zeros by lia.
    rewrite list_lookup_insert_eq.
    2:{ rewrite !length_zip_with, !length_insert, length_fmap, length_zeros.
        simpl. rewrite length_fmap, length_zip_with, length_take, length_drop.
        lia. }
    repeat split; try assumption; try reflexivity.
    + rewrite Nat.add_1_r. reflexivity.
    + destruct dates; [simpl in Ldates; lia | discriminate].
  - exists dr. rewrite Edr. repeat split; assumption.
Qed.
End OrchestrationTheorems.

(** C7, as the claim states it, fails on the worked loan: the orchestration
    completes, the realized balance has [term + 1 = 19] entries and the
    default-rate series keeps all 24 rows of its column. *)
Lemma default_rate_keeps_full_column :
  ex_run = (ex_st2, Ok ex_df) /\
  term ex_loan + 1 = 19 /\
  length <$> balance ex_st2 = Some 19 /\
  length <$> default_rate ex_st2 = Some 24.
Proof. vm_compute. repeat split. Qed.

Lemma series_after_orchestration_witness :
  series_lengths (term ex_loan + 1) ex_st2 /\
  initial_values ex_loan ex_st2 /\
  exists dr, default_rate ex_st2 = Some dr /\
             dr ∈ ex_CHARGED_OFF.*2 /\
             (term ex_loan + 1 <= length dr)%nat /\
             ("Default_Rate", ColFloat (take (term ex_loan + 1) dr)) ∈ ex_df.
Proof.
  apply (series_after_orchestration ex_CHARGED_OFF ex_PREPAY ex_loan
           new_Amortization).
  vm_compute. reflexivity.
Defined.

(** ** The scheduled balance in exact arithmetic *)

Section ExactSchedule.
Local Open Scope Q_scope.

Lemma Qpow_nat_proper q q' n : q == q' -> Qpow_nat q n == Qpow_nat q' n.
Proof. intros E. induction n as [|n IH]; simpl; [reflexivity|]. apply Qmult_comp; assumption. Qed.

Lemma Qpow_nat_one n : Qpow_nat 1 n == 1.
Proof. induction n as [|n IH]; simpl; [reflexivity|]. setoid_rewrite IH. reflexivity. Qed.

Lemma Qpow_nat_ge1 q n : 1 <= q -> 1 <= Qpow_nat q n.
Proof.
  intros Hq. induction n as [|n IH]; simpl; [lra|]. nra.
Qed.

Lemma Qpow_nat_lt q k n : 1 < q -> (k < n)%nat -> Qpow_nat q k < Qpow_nat q n.
Proof.
  intros Hq Hk. induction Hk as [|n Hk IH]; simpl.
  - pose proof (Qpow_nat_ge1 q k ltac:(lra)). nra.
  - pose proof (Qpow_nat_ge1 q n ltac:(lra)). nra.
Qed.

Lemma npf_fv_Q rate k pmt pv :
  npf_fv rate k pmt pv =
  - (pv * Qpow_nat (1 + rate) k +
     pmt * (if Qeq_bool rate 0 then inject_Z (Z.of_nat k)
            else (1 + rate * 0) * (Qpow_nat (1 + rate) k - 1) / rate)).
Proof. reflexivity. Qed.

Lemma npf_pmt_Q rate n pv :
  npf_pmt rate n pv =
  - (0 + pv * Qpow_nat (1 + rate) n) /
    (if Qeq_bool rate 0 then inject_Z (Z.of_nat n)
     else (1 + rate * 0) * (Qpow_nat (1 + rate) n - 1) / rate).
Proof. reflexivity. Qed.

Lemma npf_ppmt_Q rate per n pv :
  npf_ppmt rate per n pv =
  npf_pmt rate n pv - npf_fv rate (per - 1) (npf_pmt rate n pv) pv * rate.
Proof. reflexivity. Qed.

(* step identity *)
Lemma fv_step rate k pmt pv :
  npf_fv rate k pmt pv - (pmt - npf_fv rate k pmt pv * rate)
  == npf_fv rate (S k) pmt pv.
Proof.
  rewrite !npf_fv_Q. destruct (Qeq_bool rate 0) eqn:E.
  - apply Qeq_bool_eq in E.
    rewrite (Qpow_nat_proper (1 + rate) 1 k) by (rewrite E; reflexivity).
    rewrite (Qpow_nat_proper (1 + rate) 1 (S k)) by (rewrite E; reflexivity).
    rewrite !Qpow_nat_one. rewrite E.
    rewrite Nat2Z.inj_succ. unfold Z.succ. rewrite inject_Z_plus. ring.
  - apply Qeq_bool_neq in E. simpl Qpow_nat. field. exact E.
Qed.

Lemma Qdiv_pos a b : 0 < a -> 0 < b -> 0 < a / b.
Proof.
  intros Ha Hb. apply Qlt_shift_div_l; [exact Hb|]. lra.
Qed.

Lemma fv_pos rate n k P :
  0 <= rate -> (k < n)%nat -> 0 < P ->
  0 < npf_fv rate k (npf_pmt rate n (- P)) (- P).
Proof.
  intros Hr Hk HP. rewrite npf_fv_Q, npf_pmt_Q.
  destruct (Qeq_bool rate 0) eqn:E.
  - apply Qeq_bool_eq in E.
    rewrite (Qpow_nat_proper (1 + rate) 1 k) by (rewrite E; reflexivity).
    rewrite (Qpow_nat_proper (1 + rate) 1 n) by (rewrite E; reflexivity).
    rewrite !Qpow_nat_one.
    assert (Hn : 0 < inject_Z (Z.of_nat n)).
    { change 0 with (inject_Z 0). rewrite <- Zlt_Qlt. lia. }
    assert (Hkn : inject_Z (Z.of_nat k) < inject_Z (Z.of_nat n)).
    { rewrite <- Zlt_Qlt. lia. }
    set (N := inject_Z (Z.of_nat n)) in *. set (K := inject_Z (Z.of_nat k)) in *.
    assert (Eq : - (- P * 1 + - (0 + - P * 1) / N * K) == P * (N - K) / N)
      by (field; lra).
    rewrite Eq. apply Qdiv_pos; [nra | exact Hn].
  - apply Qeq_bool_neq in E.
    assert (Hr' : 0 < rate) by (destruct (Qlt_le_dec 0 rate); [assumption|]; exfalso; apply E; lra).
    assert (Hq : 1 < 1 + rate) by lra.
    pose proof (Qpow_nat_lt (1 + rate) k n Hq Hk) as Hlt.
    pose proof (Qpow_nat_ge1 (1 + rate) k ltac:(lra)) as Hge.
    set (X := Qpow_nat (1 + rate) n) in *. set (Y := Qpow_nat (1 + rate) k) in *.
    assert (Eq : - (- P * Y + - (0 + - P * X) / ((1 + rate * 0) * (X - 1) / rate) *
                    ((1 + rate * 0) * (Y - 1) / rate))
                 == P * (X - Y) / (X - 1)).
    { field. repeat split; lra. }
    rewrite Eq. apply Qdiv_pos; [nra | lra].
Qed.

Lemma fv_0 rate pmt P : npf_fv rate 0 pmt (- P) == P.
Proof.
  rewrite npf_fv_Q. simpl Qpow_nat. destruct (Qeq_bool rate 0) eqn:E.
  - simpl. ring.
  - apply Qeq_bool_neq in E. field. exact E.
Qed.

Lemma periodic_rate_nonneg (loan : Loan Q) :
  0 <= coupon loan -> 0 <= periodic_rate loan.
Proof.
  intros Hc. unfold periodic_rate. simpl.
  apply Qle_shift_div_l.
  - destruct (amort_freq loan); reflexivity.
  - lra.
Qed.

(** C6, as the code has it in exact arithmetic: for a loan with a term of
    at least one period, a positive invested amount and a coupon that is
    not negative, the scheduled balance before every period
    [1 <= i <= term] is positive, hence not zero. *)
Theorem scheduled_balance_positive (loan : Loan Q) (st0 : Amortization Q) :
  (1 <= term loan)%nat -> 0 < invested loan -> 0 <= coupon loan ->
  forall i, (1 <= i <= term loan)%nat ->
    exists b,
      elem (scheduled_balance (calc_scheduled_cashflow loan st0).1)
           (i - 1) = Some b /\
      0 < b /\ ~ b == 0.
Proof.
  intros Hn HP Hc i Hi.
  pose proof (periodic_rate_nonneg loan Hc) as Hr.
  destruct (calc_scheduled_cashflow_spec loan st0) as (sb & -> & Hlen & H0 & Hrec).
  cbn [fst]. proj_simpl. cbn zeta in Hrec. fold (periodic_rate loan) in Hrec.
  set (rate := periodic_rate loan) in *.
  set (n := term loan) in *.
  set (pmt := npf_pmt rate n (- invested loan)).
  assert (Hclosed : forall k, (k <= n)%nat ->
            exists b, sb !! k = Some b /\
                      b == npf_fv rate k pmt (- invested loan)).
  { induction k as [|k IH]; intros Hk.
    - exists (invested loan). split; [exact H0|]. symmetry. apply fv_0.
    - destruct IH as (b & Hb & Eb); [lia|].
      destruct (Hrec (S k)) as (b' & Hb' & Hnext); [lia|].
      simpl in Hb'. rewrite Nat.sub_0_r in Hb'.
      rewrite Hb in Hb'. injection Hb' as <-.
      eexists. split; [exact Hnext|].
      rewrite <- fv_step. change (neg (invested loan)) with (- invested loan).
      rewrite npf_ppmt_Q. simpl Nat.sub. rewrite Nat.sub_0_r. fold pmt.
      change (@sub Q Q_arith) with Qminus.
      rewrite Eb. reflexivity. }
  destruct (Hclosed (i - 1)%nat) as (b & Hb & Eb); [lia|].
  exists b. split; [exact Hb|].
  assert (Hpos : 0 < b).
  { rewrite Eb. apply fv_pos; [exact Hr | lia | exact HP]. }
  split; [exact Hpos | lra].
Qed.
End ExactSchedule.

(** C6, as the claim states it, fails in two ways.  For a coupon of -100%
    per period, the loan has two periods and a positive invested amount,
    and its scheduled balance is already zero after period 1, the divisor
    of period 2, both in exact arithmetic and in binary64: a coupon that
    is not negative is needed.  For a coupon of +100% per period over
    sixty periods, in binary64, the scheduled balance stays at the
    invested amount and drops to zero after period 55, the divisor of
    period 56: with a coupon that is not negative the guarantee holds in
    exact arithmetic only. *)
Lemma scheduled_balance_zero_before_final_period :
  ((1 <= term ex_negative_loan_Q)%nat /\
   (0 < invested ex_negative_loan_Q)%Q /\
   (2 <= term ex_negative_loan_Q)%nat /\
   elem (scheduled_balance
           (calc_scheduled_cashflow ex_negative_loan_Q new_Amortization).1)
        (2 - 1) = Some 0%Q /\
   PrimFloat.ltb 0 (invested ex_negative_loan) = true /\
   elem (scheduled_balance
           (calc_scheduled_cashflow ex_negative_loan new_Amortization).1)
        (2 - 1) = Some 0%float) /\
  ((1 <= term ex_doubling_loan)%nat /\
   PrimFloat.ltb 0 (invested ex_doubling_loan) = true /\
   PrimFloat.leb 0 (coupon ex_doubling_loan) = true /\
   (56 <= term ex_doubling_loan)%nat /\
   elem (scheduled_balance
           (calc_scheduled_cashflow ex_doubling_loan new_Amortization).1)
        (56 - 1) = Some 0%float).
Proof. vm_compute. repeat split; try lia; discriminate. Qed.

Lemma scheduled_balance_positive_witness :
  exists b,
    elem (scheduled_balance
            (calc_scheduled_cashflow
               (new_Loan "C4" (mkDate 2015 8 24) 3 (12 # 100)%Q 100%Q 50%Q
                         (8 # 100)%Q (5 # 100)%Q (25 # 1000)%Q (25 # 1000)%Q
                         FreqM None) new_Amortization).1)
         (3 - 1) = Some b /\
    (0 < b)%Q /\ ~ (b == 0)%Q.
Proof.
  apply (scheduled_balance_positive
           (new_Loan "C4" (mkDate 2015 8 24) 3 (12 # 100)%Q 100%Q 50%Q
                     (8 # 100)%Q (5 # 100)%Q (25 # 1000)%Q (25 # 1000)%Q
                     FreqM None) new_Amortization).
  - simpl. lia.
  - reflexivity.
  - unfold Qle. simpl. lia.
  - simpl. lia.
Defined.

(** ** The schedule and the recurrence in exact arithmetic *)

Section ExactScheduleShape.
Local Open Scope Q_scope.

(** The scheduled series in closed form: entry [k] of the scheduled balance
    is the remaining balance after [k] level payments. *)
Lemma scheduled_series_closed (loan : Loan Q) (st0 : Amortization Q) :
  let rate := periodic_rate loan in
  let n := term loan in
  let pmt := npf_pmt rate n (- invested loan) in
  exists sb,
    scheduled_balance (calc_scheduled_cashflow loan st0).1 = Some sb /\
    scheduled_principal (calc_scheduled_cashflow loan st0).1 =
      Some (0 :: ((fun per => npf_ppmt rate per n (- invested loan)) <$> seq 1 n)) /\
    scheduled_interest (calc_scheduled_cashflow loan st0).1 =
      Some (0 :: ((fun per => npf_ipmt rate per n (- invested loan)) <$> seq 1 n)) /\
    sb !! 0%nat = Some (invested loan) /\
    forall k, (k <= n)%nat ->
      exists b, sb !! k = Some b /\ b == npf_fv rate k pmt (- invested loan).
Proof.
  intros rate n pmt.
  destruct (calc_scheduled_cashflow_spec loan st0) as (sb & -> & Hlen & H0 & Hrec).
  cbn [fst]. proj_simpl. cbn zeta in Hrec. fold (periodic_rate loan) in Hrec.
  fold rate n in Hrec.
  exists sb. repeat split; [exact H0|].
  induction k as [|k IH]; intros Hk.
  - exists (invested loan). split; [exact H0|]. symmetry. apply fv_0.
  - destruct IH as (b & Hb & Eb); [lia|].
    destruct (Hrec (S k)) as (b' & Hb' & Hnext); [lia|].
    simpl in Hb'. rewrite Nat.sub_0_r in Hb'.
    rewrite Hb in Hb'. injection Hb' as <-.
    eexists. split; [exact Hnext|].
    rewrite <- fv_step. change (neg (invested loan)) with (- invested loan).
    rewrite npf_ppmt_Q. simpl Nat.sub. rewrite Nat.sub_0_r. fold pmt.
    change (@sub Q Q_arith) with Qminus.
    rewrite Eb. reflexivity.
Qed.

Lemma fv_closed_zero rate n k P :
  rate == 0 -> (1 <= n)%nat ->
  npf_fv rate k (npf_pmt rate n (- P)) (- P)
  == P * (inject_Z (Z.of_nat n) - inject_Z (Z.of_nat k)) / inject_Z (Z.of_nat n).
Proof.
  intros E Hn. rewrite npf_fv_Q, npf_pmt_Q.
  rewrite (Qeq_eq_bool _ _ E).
  rewrite (Qpow_nat_proper (1 + rate) 1 k) by (rewrite E; reflexivity).
  rewrite (Qpow_nat_proper (1 + rate) 1 n) by (rewrite E; reflexivity).
  rewrite !Qpow_nat_one.
  assert (Hn' : 0 < inject_Z (Z.of_nat n)).
  { change 0 with (inject_Z 0). rewrite <- Zlt_Qlt. lia. }
  field. lra.
Qed.

Lemma fv_closed_pos rate n k P :
  0 < rate -> (1 <= n)%nat ->
  npf_fv rate k (npf_pmt rate n (- P)) (- P)
  == P * (Qpow_nat (1 + rate) n - Qpow_nat (1 + rate) k)
       / (Qpow_nat (1 + rate) n - 1).
Proof.
  intros Hr Hn. rewrite npf_fv_Q, npf_pmt_Q.
  assert (E : Qeq_bool rate 0 = false).
  { destruct (Qeq_bool rate 0) eqn:E; [|reflexivity].
    apply Qeq_bool_eq in E. lra. }
  rewrite E.
  pose proof (Qpow_nat_lt (1 + rate) 0 n ltac:(lra) ltac:(lia)) as Hlt.
  simpl in Hlt.
  field. split; lra.
Qed.

Lemma rate_zero_or_pos rate : 0 <= rate -> {rate == 0} + {0 < rate}.
Proof.
  intros Hr. destruct (Qlt_le_dec 0 rate); [right; assumption|].
  left. lra.
Qed.

(** In exact arithmetic the scheduled balance falls strictly, period by
    period, from the invested amount to exactly zero at the final period. *)
Theorem scheduled_balance_amortizes (loan : Loan Q) (st0 : Amortization Q) :
  (1 <= term loan)%nat -> 0 < invested loan -> 0 <= coupon loan ->
  elem (scheduled_balance (calc_scheduled_cashflow loan st0).1) 0
    = Some (invested loan) /\
  (exists b, elem (scheduled_balance (calc_scheduled_cashflow loan st0).1)
                  (term loan) = Some b /\ b == 0) /\
  forall i, (1 <= i <= term loan)%nat ->
    exists b b',
      elem (scheduled_balance (calc_scheduled_cashflow loan st0).1) (i - 1)
        = Some b /\
      elem (scheduled_balance (calc_scheduled_cashflow loan st0).1) i
        = Some b' /\
      b' < b.
Proof.
  intros Hn HP Hc.
  pose proof (periodic_rate_nonneg loan Hc) as Hr.
  destruct (scheduled_series_closed loan st0) as (sb & -> & _ & _ & Hsb0 & Hclosed).
  cbn zeta in Hclosed. simpl elem.
  set (rate := periodic_rate loan) in *. set (n := term loan) in *.
  assert (Hlt : forall k, (k < n)%nat ->
            npf_fv rate (S k) (npf_pmt rate n (- invested loan)) (- invested loan)
            < npf_fv rate k (npf_pmt rate n (- invested loan)) (- invested loan)).
  { intros k Hk. destruct (rate_zero_or_pos rate Hr) as [E|Hpos].
    - rewrite !(fv_closed_zero rate n _ _ E Hn).
      assert (Hn' : 0 < inject_Z (Z.of_nat n)).
      { change 0 with (inject_Z 0). rewrite <- Zlt_Qlt. lia. }
      rewrite Nat2Z.inj_succ. unfold Z.succ. rewrite inject_Z_plus.
      set (N := inject_Z (Z.of_nat n)) in *. set (K := inject_Z (Z.of_nat k)).
      change (inject_Z 1) with 1.
      apply Qlt_minus_iff.
      assert (Eq : invested loan * (N - K) / N + - (invested loan * (N - (K + 1)) / N)
                   == invested loan / N) by (field; lra).
      rewrite Eq. apply Qdiv_pos; assumption.
    - rewrite !(fv_closed_pos rate n _ _ Hpos Hn).
      pose proof (Qpow_nat_lt (1 + rate) 0 n ltac:(lra) ltac:(lia)) as HX.
      pose proof (Qpow_nat_ge1 (1 + rate) k ltac:(lra)) as HY.
      simpl in HX. simpl Qpow_nat.
      set (X := Qpow_nat (1 + rate) n) in *. set (Y := Qpow_nat (1 + rate) k) in *.
      apply Qlt_minus_iff.
      assert (Eq : invested loan * (X - Y) / (X - 1)
                   + - (invested loan * (X - (1 + rate) * Y) / (X - 1))
                   == invested loan * (rate * Y) / (X - 1)) by (field; lra).
      rewrite Eq.
      apply Qdiv_pos; [|lra].
      apply Qmult_lt_0_compat; [exact HP|]. apply Qmult_lt_0_compat; lra. }
  split; [|split].
  - exact Hsb0.
  - destruct (Hclosed n) as (b & Hb & Eb); [lia|].
    exists b. split; [exact Hb|]. rewrite Eb.
    destruct (rate_zero_or_pos rate Hr) as [E|Hpos].
    + rewrite (fv_closed_zero rate n _ _ E Hn).
      assert (Hn' : 0 < inject_Z (Z.of_nat n)).
      { change 0 with (inject_Z 0). rewrite <- Zlt_Qlt. lia. }
      field. lra.
    + rewrite (fv_closed_pos rate n _ _ Hpos Hn).
      pose proof (Qpow_nat_lt (1 + rate) 0 n ltac:(lra) ltac:(lia)) as HX.
      simpl in HX. field. lra.
  - intros i Hi.
    destruct (Hclosed (i - 1)%nat) as (b & Hb & Eb); [lia|].
    destruct (Hclosed i) as (b' & Hb' & Eb'); [lia|].
    exists b, b'. repeat split; try assumption.
    rewrite Eb, Eb'. replace i with (S (i - 1)) at 1 by lia.
    apply Hlt. lia.
Qed.

(** In exact arithmetic the scheduled interest of a period is the periodic
    rate on the scheduled balance before it, and scheduled principal plus
    scheduled interest is the same level payment in every period. *)
Theorem scheduled_payment_decomposition (loan : Loan Q) (st0 : Amortization Q) :
  forall i, (1 <= i <= term loan)%nat ->
    exists p q b,
      elem (scheduled_principal (calc_scheduled_cashflow loan st0).1) i = Some p /\
      elem (scheduled_interest (calc_scheduled_cashflow loan st0).1) i = Some q /\
      elem (scheduled_balance (calc_scheduled_cashflow loan st0).1) (i - 1) = Some b /\
      q == b * periodic_rate loan /\
      p + q == npf_pmt (periodic_rate loan) (term loan) (- invested loan).
Proof.
  intros i Hi.
  destruct (scheduled_series_closed loan st0) as (sb & -> & -> & -> & _ & Hclosed).
  cbn zeta in Hclosed. simpl elem.
  destruct (Hclosed (i - 1)%nat) as (b & Hb & Eb); [lia|].
  rewrite !lookup_cons_fmap_seq by lia.
  exists (npf_ppmt (periodic_rate loan) i (term loan) (- invested loan)),
         (npf_ipmt (periodic_rate loan) i (term loan) (- invested loan)), b.
  split; [reflexivity|]. split; [reflexivity|]. split; [exact Hb|].
  split.
  - unfold npf_ipmt, npf_rbl. change (@mul Q Q_arith) with Qmult.
    rewrite Eb. reflexivity.
  - rewrite npf_ppmt_Q. unfold npf_ipmt, npf_rbl.
    change (@mul Q Q_arith) with Qmult. ring.
Qed.
End ExactScheduleShape.

Section RunRecurrence.
Context {A : Type} `{Arith A}.

(** What the scheduled amortization followed by the adjustment method
    leaves on an object whose inputs reach far enough, whether the method
    returns or raises at the earnout periods. *)
Lemma run_recurrence_periods (loan : Loan A) (st0 : Amortization A) dr ps :
  default_rate st0 = Some dr -> prepay_speed st0 = Some ps ->
  term loan <= length dr -> term loan + 1 <= length ps ->
  same_inputs (calc_scheduled_cashflow loan st0).1 (run_recurrence loan st0).1 /\
  flows_length (term loan + 1) (run_recurrence loan st0).1 /\
  elem (balance (run_recurrence loan st0).1) 0 = Some (invested loan) /\
  forall i, 1 <= i <= term loan ->
    recurrence_at (periodic_rate loan) (run_recurrence loan st0).1 i.
Proof.
  intros Hdr Hps Ldr Lps. unfold run_recurrence.
  pose proof (scheduled_inputs_cover loan st0 dr ps Hdr Hps Ldr Lps) as Hin.
  destruct (calc_scheduled_cashflow_spec loan st0)
    as (sb & E & Hlen & Hsb0 & _).
  rewrite E in *. cbn [fst] in *.
  match type of Hin with
  | inputs_cover _ ?st1 =>
      destruct (adjust_cashflow_run loan st1 (seq 0 (term loan + 1)))
        as (sl & Hsame & Hfl & Hb0 & Hrec & Hkeep & _);
        [reflexivity | rewrite length_seq; lia | rewrite length_seq; exact Hin |]
  end.
  rewrite length_seq in *. proj_simpl_in Hb0. simpl in Hb0.
  destruct Hkeep as (Hs2 & F1 & F2 & F3 & F4 & F5).
  split; [eapply same_inputs_trans; eassumption|].
  split.
  { destruct Hfl as (?&?&?&?&?). unfold flows_length.
    rewrite F1, F2, F3, F4, F5. auto. }
  split; [rewrite F1, Hb0; exact Hsb0|].
  intros i Hi. eapply recurrence_at_kept.
  - split; [exact Hs2|]. repeat split; assumption.
  - apply Hrec. lia.
Qed.
End RunRecurrence.

Section ExactRecurrence.
Local Open Scope Q_scope.

(** In exact arithmetic, for a loan of at least one period with a positive
    invested amount and a coupon that is not negative, on an object that
    holds at least [term] default rates and [term + 1] prepay speeds, all
    of them zero, the realized path is the scheduled one: no default, no
    prepayment, and balance, principal and interest equal to their
    scheduled counterparts in every period [1..term]. *)
Theorem realized_equals_scheduled
    (loan : Loan Q) (st0 : Amortization Q) (dr ps : list Q) :
  (1 <= term loan)%nat -> 0 < invested loan -> 0 <= coupon loan ->
  default_rate st0 = Some dr -> prepay_speed st0 = Some ps ->
  (term loan <= length dr)%nat -> (term loan + 1 <= length ps)%nat ->
  (forall k r, dr !! k = Some r -> r == 0) ->
  (forall k p, ps !! k = Some p -> p == 0) ->
  forall i, (1 <= i <= term loan)%nat ->
    exists b d pre pr int sb sp si,
      elem (balance (run_recurrence loan st0).1) i = Some b /\
      elem (default (run_recurrence loan st0).1) i = Some d /\
      elem (prepay (run_recurrence loan st0).1) i = Some pre /\
      elem (principle (run_recurrence loan st0).1) i = Some pr /\
      elem (interest (run_recurrence loan st0).1) i = Some int /\
      elem (scheduled_balance (run_recurrence loan st0).1) i = Some sb /\
      elem (scheduled_principal (run_recurrence loan st0).1) i = Some sp /\
      elem (scheduled_interest (run_recurrence loan st0).1) i = Some si /\
      d == 0 /\ pre == 0 /\ b == sb /\ pr == sp /\ int == si.
Proof.
  intros Hn HP Hc Hdr Hps Ldr Lps Zdr Zps.
  destruct (run_recurrence_periods loan st0 dr ps Hdr Hps Ldr Lps)
    as (Hsame & _ & Hb0 & Hrec).
  destruct Hsame as (_ & _ & Esp & Esi & Esb & Eps & Edr & _ & _).
  destruct (scheduled_series_closed loan st0)
    as (sbl & Hsb & Hsp & Hsi & Hsb0 & Hclosed).
  cbn zeta in Hclosed.
  pose proof (periodic_rate_nonneg loan Hc) as Hr.
  destruct (calc_scheduled_cashflow_spec loan st0) as (sbl' & E & _ & _ & Hstep).
  cbn zeta in Hstep. fold (periodic_rate loan) in Hstep.
  assert (sbl' = sbl) as ->.
  { rewrite E in Hsb. cbn [fst] in Hsb. proj_simpl_in Hsb. congruence. }
  assert (Edr' : default_rate (run_recurrence loan st0).1 = Some dr).
  { rewrite Edr, E. cbn [fst]. proj_simpl. exact Hdr. }
  assert (Eps' : prepay_speed (run_recurrence loan st0).1 = Some ps).
  { rewrite Eps, E. cbn [fst]. proj_simpl. exact Hps. }
  rewrite Esb, Esp, Esi, Hsb, Hsp, Hsi. simpl elem at 6 7 8.
  set (fin := (run_recurrence loan st0).1) in *.
  set (rate := periodic_rate loan) in *. set (n := term loan) in *.
  set (P := invested loan) in *.
  assert (Hbal : forall i, (i <= n)%nat ->
            exists b s, elem (balance fin) i = Some b /\ sbl !! i = Some s /\ b == s).
  { induction i as [|i IH]; intros Hi.
    - exists P, P. split; [exact Hb0|]. split; [exact Hsb0|]. reflexivity.
    - destruct IH as (b & s & Hb & Hs & Ebs); [lia|].
      destruct (Hrec (S i)) as (b1&r1&si_i&sb_1&sp_i&ps_i&d_i&pre_i&pr_i&R);
        [lia|].
      destruct R as (R1&R2&R3&R4&R5&R6&R7&R8&R9&R10&R11&R12&R13&R14).
      replace (S i - 1)%nat with i in * by lia.
      rewrite Hb in R1. injection R1 as <-.
      rewrite Esb, Hsb in R4. simpl in R4. rewrite Hs in R4. injection R4 as <-.
      rewrite Edr' in R2. simpl in R2. apply Zdr in R2.
      rewrite Eps' in R6. simpl in R6. apply Zps in R6.
      rewrite Esp, Hsp in R5. cbv beta iota delta [elem] in R5.
      rewrite lookup_cons_fmap_seq in R5 by lia. cbv beta in R5.
      apply (inj Some) in R5. subst sp_i.
      destruct (Hstep (S i)) as (s' & Hs' & Hnext); [lia|].
      replace (S i - 1)%nat with i in Hs' by lia.
      rewrite Hs in Hs'. injection Hs' as <-.
      destruct (Hclosed i) as (s0 & Hs0 & Es0); [lia|].
      rewrite Hs in Hs0. injection Hs0 as <-.
      assert (Hspos : 0 < s).
      { rewrite Es0. apply fv_pos; [exact Hr | lia | exact HP]. }
      eexists. eexists. split; [exact R13|]. split; [exact Hnext|].
      subst pr_i pre_i d_i.
      change (@neg Q Q_arith) with Qopp.
      generalize (npf_ppmt rate (S i) n (- P)). intros pp.
      change (@add Q Q_arith) with Qplus. change (@sub Q Q_arith) with Qminus.
      change (@mul Q Q_arith) with Qmult. change (@div Q Q_arith) with Qdiv.
      rewrite R2, R6, Ebs. field. lra. }
  intros i Hi.
  destruct (Hbal (i - 1)%nat) as (b & s & Hb & Hs & Ebs); [lia|].
  destruct (Hbal i) as (b' & s' & Hb' & Hs' & Ebs'); [lia|].
  destruct (Hrec i) as (b1&r1&si_i&sb_1&sp_i&ps_i&d_i&pre_i&pr_i&R); [lia|].
  destruct R as (R1&R2&R3&R4&R5&R6&R7&R8&R9&R10&R11&R12&R13&R14).
  rewrite Hb in R1. injection R1 as <-.
  rewrite Esb, Hsb in R4. simpl in R4. rewrite Hs in R4. injection R4 as <-.
  rewrite Edr' in R2. simpl in R2. apply Zdr in R2.
  rewrite Eps' in R6. simpl in R6. apply Zps in R6.
  rewrite Esp, Hsp in R5. cbv beta iota delta [elem] in R5.
  rewrite Esi, Hsi in R3. cbv beta iota delta [elem] in R3.
  pose proof R5 as R5'. pose proof R3 as R3'.
  rewrite lookup_cons_fmap_seq in R5' by lia. cbv beta in R5'.
  apply (inj Some) in R5'. subst sp_i.
  rewrite lookup_cons_fmap_seq in R3' by lia. cbv beta in R3'.
  apply (inj Some) in R3'. subst si_i.
  destruct (Hclosed (i - 1)%nat) as (s0 & Hs0 & Es0); [lia|].
  rewrite Hs in Hs0. injection Hs0 as <-.
  assert (Hspos : 0 < s).
  { rewrite Es0. apply fv_pos; [exact Hr | lia | exact HP]. }
  rewrite Hb' in R13. injection R13 as R13.
  exists b', d_i, pre_i, pr_i, ((b - d_i) * rate)%ar, s'.
  do 2 eexists.
  split; [exact Hb'|]. split; [exact R7|]. split; [exact R9|].
  split; [exact R11|]. split; [exact R14|]. split; [exact Hs'|].
  split; [exact R5|]. split; [exact R3|].
  subst pr_i pre_i d_i.
  change (@add Q Q_arith) with Qplus in *. change (@sub Q Q_arith) with Qminus in *.
  change (@mul Q Q_arith) with Qmult in *. change (@div Q Q_arith) with Qdiv in *.
  repeat split.
  - rewrite R2. ring.
  - rewrite R6. ring.
  - exact Ebs'.
  - rewrite R2, R6, Ebs. field. lra.
  - unfold npf_ipmt, npf_rbl. change (@mul Q Q_arith) with Qmult.
    rewrite R2, Ebs, Es0. ring.
Qed.
End ExactRecurrence.

Section Conservation.
Local Open Scope Q_scope.

Lemma foldl_Qplus_acc a l : foldl Qplus a l == a + Qsum l.
Proof.
  unfold Qsum. revert a. induction l as [|x l IH]; intros a; simpl.
  - ring.
  - rewrite IH, (IH (0 + x)). ring.
Qed.

Lemma Qsum_app l1 l2 : Qsum (l1 ++ l2) == Qsum l1 + Qsum l2.
Proof.
  unfold Qsum at 1. rewrite foldl_app. rewrite foldl_Qplus_acc.
  reflexivity.
Qed.

Lemma Qsum_take_S (l : list Q) k x :
  l !! k = Some x -> Qsum (take (S k) l) == Qsum (take k l) + x.
Proof.
  intros Hx. rewrite (take_S_r _ _ _ Hx), Qsum_app.
  assert (E : Qsum [x] == x) by (unfold Qsum; simpl; ring).
  rewrite E. reflexivity.
Qed.

(** Conservation of the invested amount, in exact arithmetic: through any
    period [k], the principal received plus the balance defaulted so far
    equals the invested amount less the balance still outstanding. *)
Theorem invested_amount_is_conserved
    (loan : Loan Q) (st0 : Amortization Q) (dr ps : list Q) :
  default_rate st0 = Some dr -> prepay_speed st0 = Some ps ->
  (term loan <= length dr)%nat -> (term loan + 1 <= length ps)%nat ->
  forall k, (k <= term loan)%nat ->
    exists pr dflt b,
      principle (run_recurrence loan st0).1 = Some pr /\
      default (run_recurrence loan st0).1 = Some dflt /\
      elem (balance (run_recurrence loan st0).1) k = Some b /\
      Qsum (take k (drop 1 pr)) + Qsum (take k (drop 1 dflt))
        == invested loan - b.
Proof.
  intros Hdr Hps Ldr Lps.
  destruct (run_recurrence_periods loan st0 dr ps Hdr Hps Ldr Lps)
    as (_ & Hfl & Hb0 & Hrec).
  set (fin := (run_recurrence loan st0).1) in *.
  destruct Hfl as (_ & Ld & _ & Lp & _).
  apply fmap_length_Some in Ld as (dflt & Hdflt & Ld).
  apply fmap_length_Some in Lp as (pr & Hpr & Lp).
  intros k Hk. exists pr, dflt. rewrite Hpr, Hdflt.
  induction k as [|k IH].
  - exists (invested loan). repeat split; [exact Hb0|].
    rewrite !take_0. unfold Qsum. simpl. ring.
  - destruct IH as (b & _ & _ & Hb & Esum); [lia|].
    destruct (Hrec (S k)) as (b1&r1&si_i&sb_1&sp_i&ps_i&d_i&pre_i&pr_i&R);
      [lia|].
    destruct R as (R1&_&_&_&_&_&R7&_&_&_&R11&_&R13&_).
    replace (S k - 1)%nat with k in R1 by lia.
    rewrite Hb in R1. injection R1 as <-.
    rewrite Hdflt in R7. rewrite Hpr in R11. simpl in R7, R11.
    exists (b - pr_i - d_i)%ar. repeat split; [exact R13|].
    rewrite (Qsum_take_S (drop 1 pr) k pr_i) by (rewrite lookup_drop; exact R11).
    rewrite (Qsum_take_S (drop 1 dflt) k d_i) by (rewrite lookup_drop; exact R7).
    change (@sub Q Q_arith) with Qminus.
    set (S1 := Qsum (take k (drop 1 pr))) in *.
    set (S2 := Qsum (take k (drop 1 dflt))) in *.
    lra.
Qed.
End Conservation.

Lemma scheduled_balance_amortizes_witness :
  elem (scheduled_balance (calc_scheduled_cashflow ex_loan_Q new_Amortization).1) 0
    = Some (invested ex_loan_Q) /\
  (exists b, elem (scheduled_balance
                     (calc_scheduled_cashflow ex_loan_Q new_Amortization).1)
                  (term ex_loan_Q) = Some b /\ (b == 0)%Q) /\
  forall i, (1 <= i <= term ex_loan_Q)%nat ->
    exists b b',
      elem (scheduled_balance
              (calc_scheduled_cashflow ex_loan_Q new_Amortization).1) (i - 1)
        = Some b /\
      elem (scheduled_balance
              (calc_scheduled_cashflow ex_loan_Q new_Amortization).1) i
        = Some b' /\
      (b' < b)%Q.
Proof.
  apply (scheduled_balance_amortizes ex_loan_Q new_Amortization).
  - simpl. lia.
  - reflexivity.
  - unfold Qle. simpl. lia.
Defined.

Lemma scheduled_payment_decomposition_witness :
  exists p q b,
    elem (scheduled_principal
            (calc_scheduled_cashflow ex_loan_Q new_Amortization).1) 2 = Some p /\
    elem (scheduled_interest
            (calc_scheduled_cashflow ex_loan_Q new_Amortization).1) 2 = Some q /\
    elem (scheduled_balance
            (calc_scheduled_cashflow ex_loan_Q new_Amortization).1) (2 - 1)
      = Some b /\
    (q == b * periodic_rate ex_loan_Q)%Q /\
    (p + q == npf_pmt (periodic_rate ex_loan_Q) (term ex_loan_Q)
                      (- invested ex_loan_Q))%Q.
Proof.
  apply (scheduled_payment_decomposition ex_loan_Q new_Amortization 2).
  simpl. lia.
Defined.

Lemma realized_equals_scheduled_witness :
  exists b d pre pr int sb sp si,
    elem (balance (run_recurrence ex_loan_Q ex_quiet_st0).1) 2 = Some b /\
    elem (default (run_recurrence ex_loan_Q ex_quiet_st0).1) 2 = Some d /\
    elem (prepay (run_recurrence ex_loan_Q ex_quiet_st0).1) 2 = Some pre /\
    elem (principle (run_recurrence ex_loan_Q ex_quiet_st0).1) 2 = Some pr /\
    elem (interest (run_recurrence ex_loan_Q ex_quiet_st0).1) 2 = Some int /\
    elem (scheduled_balance (run_recurrence ex_loan_Q ex_quiet_st0).1) 2 = Some sb /\
    elem (scheduled_principal (run_recurrence ex_loan_Q ex_quiet_st0).1) 2 = Some sp /\
    elem (scheduled_interest (run_recurrence ex_loan_Q ex_quiet_st0).1) 2 = Some si /\
    (d == 0)%Q /\ (pre == 0)%Q /\ (b == sb)%Q /\ (pr == sp)%Q /\ (int == si)%Q.
Proof.
  apply (realized_equals_scheduled ex_loan_Q ex_quiet_st0
           [0%Q; 0%Q; 0%Q] [0%Q; 0%Q; 0%Q; 0%Q]).
  - simpl. lia.
  - reflexivity.
  - unfold Qle. simpl. lia.
  - reflexivity.
  - reflexivity.
  - simpl. lia.
  - simpl. lia.
  - intros [|[|[|k]]] r; simpl; intros [= <-]; reflexivity.
  - intros [|[|[|[|k]]]] r; simpl; intros [= <-]; reflexivity.
  - simpl. lia.
Defined.

Lemma invested_amount_is_conserved_witness :
  exists pr dflt b,
    principle (run_recurrence ex_loan_Q ex_st0_Q).1 = Some pr /\
    default (run_recurrence ex_loan_Q ex_st0_Q).1 = Some dflt /\
    elem (balance (run_recurrence ex_loan_Q ex_st0_Q).1) 2 = Some b /\
    (Qsum (take 2 (drop 1 pr)) + Qsum (take 2 (drop 1 dflt))
       == invested ex_loan_Q - b)%Q.
Proof.
  apply (invested_amount_is_conserved ex_loan_Q ex_st0_Q
           (replicate 3 (1 # 100)%Q) (0%Q :: replicate 3 (2 # 100)%Q)).
  - reflexivity.
  - reflexivity.
  - simpl. lia.
  - simpl. lia.
  - simpl. lia.
Defined.

(** ** The net present value in exact arithmetic *)

Section ExactNpv.
Local Open Scope Q_scope.

Lemma npv_Q (v : list Q) (r : Q) :
  npv v r =
  foldl Qplus 0 (zip_with (fun c t => c / Qpow_nat (1 + r) t) v (seq 0 (length v))).
Proof. reflexivity. Qed.

Lemma foldl_Qplus_proper a a' (l : list Q) :
  a == a' -> foldl Qplus a l == foldl Qplus a' l.
Proof.
  revert a a'. induction l as [|x l IH]; intros a a' E; simpl; [exact E|].
  apply IH. rewrite E. reflexivity.
Qed.

(** Discounted terms added from the left, from any starting value and any
    first period. *)
Lemma foldl_discount_zero a (v : list Q) s r :
  r == 0 ->
  foldl Qplus a (zip_with (fun c t => c / Qpow_nat (1 + r) t) v (seq s (length v)))
  == foldl Qplus a v.
Proof.
  intros E. revert a s. induction v as [|c v IH]; intros a s; simpl.
  - reflexivity.
  - rewrite IH. apply foldl_Qplus_proper.
    rewrite (Qpow_nat_proper (1 + r) 1 s) by (rewrite E; reflexivity).
    rewrite Qpow_nat_one. field.
Qed.

(** At a rate of zero the net present value is the plain sum of the cash
    flows. *)
Theorem npv_at_zero_rate (v : list Q) : npv v 0 == Qsum v.
Proof.
  rewrite npv_Q. unfold Qsum. apply foldl_discount_zero. reflexivity.
Qed.

Lemma foldl_discount_linear a b k1 k2 (v w : list Q) s r :
  length v = length w ->
  foldl Qplus (k1 * a + k2 * b)
    (zip_with (fun c t => c / Qpow_nat (1 + r) t)
       (zip_with (fun x y => k1 * x + k2 * y) v w) (seq s (length v)))
  == k1 * foldl Qplus a (zip_with (fun c t => c / Qpow_nat (1 + r) t) v (seq s (length v)))
   + k2 * foldl Qplus b (zip_with (fun c t => c / Qpow_nat (1 + r) t) w (seq s (length w))).
Proof.
  revert a b w s. induction v as [|x v IH]; intros a b [|y w] s Hl;
    try discriminate; simpl.
  - reflexivity.
  - injection Hl as Hl. rewrite <- IH by exact Hl.
    apply foldl_Qplus_proper.
    unfold Qdiv. ring.
Qed.

(** The net present value is linear in the cash flows: scaling two
    sequences of equal length and adding them scales and adds their net
    present values, at every rate.  In particular a root of the net
    present value stays a root when every cash flow is scaled. *)
Theorem npv_is_linear (k1 k2 : Q) (v w : list Q) (r : Q) :
  length v = length w ->
  npv (zip_with (fun x y => k1 * x + k2 * y) v w) r
  == k1 * npv v r + k2 * npv w r.
Proof.
  intros Hl. rewrite !npv_Q.
  rewrite length_zip_with_l_eq by exact Hl.
  rewrite <- foldl_discount_linear by exact Hl.
  apply foldl_Qplus_proper. ring.
Qed.

(** An outlay [a] repaid by a single cash flow [b] one period later: the
    net present value vanishes exactly at the simple return [b / a - 1]. *)
Theorem npv_single_period_root (a b r : Q) :
  ~ a == 0 -> ~ b == 0 -> ~ 1 + r == 0 ->
  (npv [- a; b] r == 0 <-> r == b / a - 1).
Proof.
  intros Ha Hb Hr. rewrite npv_Q. simpl.
  split.
  - intros E.
    assert (E' : - a + b / (1 + r) == 0).
    { rewrite <- E. field. exact Hr. }
    assert (E2 : b == a * (1 + r)).
    { assert (X : b == (b / (1 + r)) * (1 + r)) by (field; exact Hr).
      set (q := b / (1 + r)) in *. assert (Q1 : q == a) by lra.
      rewrite X. rewrite Q1. reflexivity. }
    rewrite E2. field. exact Ha.
  - intros ->. field. split; [exact Ha|].
    intros X. apply Hb. lra.
Qed.
End ExactNpv.

Lemma npv_is_linear_witness :
  (npv (zip_with (fun x y => 2 * x + 3 * y) [- (100); 110] [1; 2]) (1 # 10)
   == 2 * npv [- (100); 110] (1 # 10) + 3 * npv [1; 2] (1 # 10))%Q.
Proof.
  apply (npv_is_linear 2 3 [- (100); 110]%Q [1; 2]%Q (1 # 10)).
  reflexivity.
Defined.

Lemma npv_single_period_root_witness :
  (npv [- (100); 110] (1 # 10) == 0 <-> 1 # 10 == 110 / 100 - 1)%Q.
Proof.
  apply (npv_single_period_root 100 110 (1 # 10)).
  - unfold Qeq. simpl. lia.
  - unfold Qeq. simpl. lia.
  - unfold Qeq. simpl. lia.
Defined.

(** ** The outcomes of the payment dates *)

Section PaymentDateOutcomes.
Context {A : Type} `{Arith A}.

Lemma result_mapM_all_ok {T U} (f : T -> result U) (g : T -> U) l :
  (forall k x, l !! k = Some x -> f x = Ok (g x)) ->
  result_mapM f l = Ok (g <$> l).
Proof.
  induction l as [|x l IH]; intros Hall; simpl; [reflexivity|].
  rewrite (Hall 0 x eq_refl). simpl.
  rewrite IH; [reflexivity|]. intros k y Hy. apply (Hall (Datatypes.S k)). exact Hy.
Qed.

Lemma result_mapM_some_raise {T U} (f : T -> result U) e l k x :
  (forall y, f y = Raise e \/ exists u, f y = Ok u) ->
  l !! k = Some x -> f x = Raise e ->
  result_mapM f l = Raise e.
Proof.
  intros Hf. revert k. induction l as [|y l IH]; intros k Hk Hx; [discriminate|].
  simpl. destruct k as [|k].
  - injection Hk as ->. rewrite Hx. reflexivity.
  - destruct (Hf y) as [Hy|[u Hy]]; rewrite Hy; simpl; [reflexivity|].
    rewrite (IH k Hk Hx). reflexivity.
Qed.

Lemma replace_day_cases dd t :
  replace_day dd t = Raise (ValueError "day is out of range for month") \/
  exists u, replace_day dd t = Ok u.
Proof. unfold replace_day. destruct (_ && _); eauto. Qed.

(** The dates of a month-end frequency, looked up by position. *)
Lemma date_range_lookup start nper f step k :
  freq_months f = Some step -> k < nper ->
  offset_dates start nper f !! k = Some (month_end_after start (step * k)).
Proof.
  intros Hf Hk. rewrite (date_range_months _ _ _ _ Hf).
  rewrite list_lookup_fmap, lookup_seq_lt by lia. reflexivity.
Qed.

Lemma date_range_lookup_inv start nper f step k t :
  freq_months f = Some step ->
  offset_dates start nper f !! k = Some t ->
  k < nper /\ t = month_end_after start (step * k).
Proof.
  intros Hf Hk.
  assert (Hlt : k < nper).
  { apply lookup_lt_Some in Hk. rewrite length_offset_dates in Hk. exact Hk. }
  split; [exact Hlt|].
  rewrite (date_range_lookup _ _ _ _ _ Hf Hlt) in Hk. congruence.
Qed.

(** A start date on the last day of its month: for a month-end frequency
    and a schedule whose start and last month end lie in the range of a
    [Timestamp], the method returns, and the dates are the month ends, a
    whole number of steps apart, beginning with the start date itself. *)
Theorem payment_date_from_month_end
    (start : date) (periods : nat) (f : freq) (step : nat)
    (st : Amortization A) :
  freq_months f = Some step ->
  1 <= month start <= 12 ->
  day start = days_in_month (year start) (month start) ->
  in_bounds start = true ->
  in_bounds (month_end_after start (step * periods)) = true ->
  exists dates,
    payment_date start periods f st = (set_pmt_date (Some dates) st, Ok tt) /\
    length dates = periods + 1 /\
    dates !! 0 = Some start /\
    forall k, k <= periods ->
      dates !! k = Some (month_end_after start (step * k)).
Proof.
  intros Hf Hm Hd Hs He.
  rewrite <- (range_end_months _ _ _ _ Hf) in He.
  exists (offset_dates start (periods + 1) f).
  assert (H0 : offset_dates start (periods + 1) f !! 0 = Some start).
  { rewrite (date_range_lookup _ _ _ _ 0 Hf) by lia.
    rewrite Nat.mul_0_r, month_end_after_0 by exact Hm.
    rewrite <- Hd. destruct start; reflexivity. }
  split; [|split; [|split]].
  - rewrite (payment_date_in_range _ _ _ _ Hs He). rewrite bind_assign.
    unfold bind at 1, lift at 1, getitem. rewrite H0.
    rewrite Nat.eqb_refl. reflexivity.
  - apply length_offset_dates.
  - exact H0.
  - intros k Hk. apply date_range_lookup; [exact Hf | lia].
Qed.

(** For a month-end frequency and a start date before the end of its
    month, the month-end dates are stored and then every one of them is
    moved to the start date's day. *)
Lemma payment_date_corrects start periods f step (st : Amortization A) :
  freq_months f = Some step ->
  1 <= month start <= 12 ->
  1 <= day start < days_in_month (year start) (month start) ->
  in_bounds start = true ->
  in_bounds (month_end_after start (step * periods)) = true ->
  payment_date start periods f st =
    bind (lift (result_mapM (replace_day (day start))
                  (offset_dates start (periods + 1) f)))
         (fun fixed => assign set_pmt_date (Some fixed))
      (set_pmt_date (Some (offset_dates start (periods + 1) f)) st).
Proof.
  intros Hf Hm Hd Hs He.
  rewrite <- (range_end_months _ _ _ _ Hf) in He.
  assert (H0 : offset_dates start (periods + 1) f !! 0
               = Some (month_end_after start 0)).
  { rewrite (date_range_lookup _ _ _ _ 0 Hf) by lia.
    rewrite Nat.mul_0_r. reflexivity. }
  rewrite (payment_date_in_range _ _ _ _ Hs He). rewrite bind_assign.
  unfold bind at 1, lift at 1, getitem. rewrite H0.
  rewrite month_end_after_0 by exact Hm. cbn [day].
  destruct (Nat.eqb_spec (day start)
              (days_in_month (year start) (month start))); [lia|].
  reflexivity.
Qed.

(** When the day correction raises, for a month-end frequency and a
    schedule whose start and last month end lie in the range of a
    [Timestamp]: a start date before the end of its month whose day some
    month of the schedule does not have makes [payment_date] raise,
    leaving the uncorrected month-end dates on the object. *)
Theorem payment_date_raises_on_short_month
    (start : date) (periods : nat) (f : freq) (step : nat) (k : nat)
    (st : Amortization A) :
  freq_months f = Some step ->
  1 <= month start <= 12 ->
  1 <= day start < days_in_month (year start) (month start) ->
  in_bounds start = true ->
  in_bounds (month_end_after start (step * periods)) = true ->
  k <= periods ->
  days_in_month (year (month_end_after start (step * k)))
                (month (month_end_after start (step * k))) < day start ->
  payment_date start periods f st =
    (set_pmt_date (Some (offset_dates start (periods + 1) f)) st,
     Raise (ValueError "day is out of range for month")).
Proof.
  intros Hf Hm Hd Hs He Hk Hshort.
  rewrite (payment_date_corrects _ _ _ _ _ Hf Hm Hd Hs He).
  unfold bind, lift.
  rewrite (result_mapM_some_raise _
             (ValueError "day is out of range for month") _ k
             (month_end_after start (step * k))).
  - reflexivity.
  - intros y. apply replace_day_cases.
  - apply date_range_lookup; [exact Hf | lia].
  - unfold replace_day.
    destruct (Nat.leb_spec (day start)
                (days_in_month (year (month_end_after start (step * k)))
                               (month (month_end_after start (step * k)))));
      [lia|].
    rewrite andb_false_r. reflexivity.
Qed.

(** When the method returns, for a month-end frequency and a schedule
    whose start and last month end lie in the range of a [Timestamp]: if
    every month of the schedule has the start date's day, [payment_date]
    returns [periods + 1] dates, the first is the start date, and each is
    the start date's day of the month a whole number of steps later. *)
Theorem payment_date_returns_when_days_fit
    (start : date) (periods : nat) (f : freq) (step : nat)
    (st : Amortization A) :
  freq_months f = Some step ->
  1 <= month start <= 12 ->
  1 <= day start < days_in_month (year start) (month start) ->
  in_bounds start = true ->
  in_bounds (month_end_after start (step * periods)) = true ->
  (forall k, k <= periods ->
     day start <= days_in_month (year (month_end_after start (step * k)))
                                (month (month_end_after start (step * k)))) ->
  exists dates,
    payment_date start periods f st = (set_pmt_date (Some dates) st, Ok tt) /\
    length dates = periods + 1 /\
    dates !! 0 = Some start /\
    forall k, k <= periods ->
      dates !! k =
        Some (mkDate (year (month_end_after start (step * k)))
                     (month (month_end_after start (step * k)))
                     (day start)).
Proof.
  intros Hf Hm Hd Hs He Hall.
  set (raw := offset_dates start (periods + 1) f) in *.
  exists ((fun t => mkDate (year t) (month t) (day start)) <$> raw).
  assert (Hk : forall k, k <= periods ->
             ((fun t => mkDate (year t) (month t) (day start)) <$> raw) !! k =
             Some (mkDate (year (month_end_after start (step * k)))
                          (month (month_end_after start (step * k)))
                          (day start))).
  { intros k Hk. subst raw. rewrite list_lookup_fmap.
    rewrite (date_range_lookup _ _ _ _ k Hf) by lia. reflexivity. }
  split; [|split; [|split]].
  - rewrite (payment_date_corrects _ _ _ _ _ Hf Hm Hd Hs He). fold raw.
    unfold bind, lift.
    rewrite (result_mapM_all_ok _
               (fun t => mkDate (year t) (month t) (day start))).
    + reflexivity.
    + intros k t Ht. subst raw.
      apply (date_range_lookup_inv _ _ _ _ _ _ Hf) in Ht as [Hlt ->].
      unfold replace_day.
      destruct (Nat.leb_spec 1 (day start)); [|lia].
      specialize (Hall k ltac:(lia)).
      destruct (Nat.leb_spec (day start)
                  (days_in_month (year (month_end_after start (step * k)))
                                 (month (month_end_after start (step * k)))));
        [|lia].
      reflexivity.
  - subst raw. rewrite length_fmap, length_offset_dates. reflexivity.
  - rewrite Hk by lia. rewrite Nat.mul_0_r.
    rewrite month_end_after_0 by exact Hm. destruct start; reflexivity.
  - exact Hk.
Qed.


(** The yearly frequency, for a schedule whose start and last year end
    lie in the range of a [Timestamp]: the method returns, and every date
    lies in December, on the start date's day, one year apart; so the
    first date is the start date only for a start date in December. *)
Theorem payment_date_yearly_in_december
    (start : date) (periods : nat) (st : Amortization A) :
  1 <= day start <= 31 ->
  in_bounds start = true ->
  in_bounds (mkDate (year start + periods) 12 31) = true ->
  exists dates,
    payment_date start periods FreqY st = (set_pmt_date (Some dates) st, Ok tt) /\
    length dates = periods + 1 /\
    (forall k, k <= periods ->
       dates !! k = Some (mkDate (year start + k) 12 (day start))) /\
    (dates !! 0 = Some start <-> month start = 12).
Proof.
  intros Hd Hs He.
  assert (He' : in_bounds (range_end start (periods + 1) FreqY) = true).
  { simpl. rewrite Nat.add_sub. exact He. }
  set (raw := (fun k => mkDate (year start + k) 12 31) <$> seq 0 (periods + 1)).
  assert (Hraw : offset_dates start (periods + 1) FreqY = raw) by reflexivity.
  assert (H0 : raw !! 0 = Some (mkDate (year start + 0) 12 31)).
  { subst raw. rewrite list_lookup_fmap, lookup_seq_lt by lia. reflexivity. }
  assert (Hlook : forall k, k <= periods ->
            raw !! k = Some (mkDate (year start + k) 12 31)).
  { intros k Hk. subst raw. rewrite list_lookup_fmap, lookup_seq_lt by lia.
    reflexivity. }
  assert (Hdates : exists dates,
            payment_date start periods FreqY st
              = (set_pmt_date (Some dates) st, Ok tt) /\
            length dates = periods + 1 /\
            forall k, k <= periods ->
              dates !! k = Some (mkDate (year start + k) 12 (day start))).
  { destruct (Nat.eqb_spec (day start) 31) as [E|E].
    - exists raw. split; [|split].
      + rewrite (payment_date_in_range _ _ _ _ Hs He'). rewrite Hraw, bind_assign.
        unfold bind at 1, lift at 1, getitem. rewrite H0. cbn [day].
        rewrite E. reflexivity.
      + subst raw. rewrite length_fmap, length_seq. reflexivity.
      + intros k Hk. rewrite E. apply Hlook. exact Hk.
    - exists ((fun t => mkDate (year t) (month t) (day start)) <$> raw).
      split; [|split].
      + rewrite (payment_date_in_range _ _ _ _ Hs He'). rewrite Hraw, bind_assign.
        unfold bind at 1, lift at 1, getitem. rewrite H0. cbn [day].
        destruct (Nat.eqb_spec (day start) 31); [contradiction|].
        cbn [negb]. unfold bind, lift.
        rewrite (result_mapM_all_ok _
                   (fun t => mkDate (year t) (month t) (day start))).
        * reflexivity.
        * intros k t Ht. subst raw.
          rewrite list_lookup_fmap in Ht.
          destruct (seq 0 (periods + 1) !! k) as [j|]; [|discriminate].
          injection Ht as <-. unfold replace_day. cbn [year month days_in_month].
          destruct (Nat.leb_spec 1 (day start)); [|lia].
          destruct (Nat.leb_spec (day start) 31); [|lia].
          reflexivity.
      + subst raw. rewrite !length_fmap, length_seq. reflexivity.
      + intros k Hk. rewrite list_lookup_fmap, Hlook by exact Hk.
        reflexivity. }
  destruct Hdates as (dates & Hrun & Hlen & Hk).
  exists dates. split; [exact Hrun|]. split; [exact Hlen|].
  split; [exact Hk|].
  rewrite Hk by lia. rewrite Nat.add_0_r. split.
  - intros [= E]. destruct start as [y m d]. simpl in *. congruence.
  - intros E. destruct start as [y m d]. simpl in *. subst m. reflexivity.
Qed.
End PaymentDateOutcomes.

Lemma payment_date_from_month_end_witness :
  exists dates,
    payment_date (mkDate 2015 1 31) 2 FreqM (new_Amortization (A:=float))
      = (set_pmt_date (Some dates) new_Amortization, Ok tt) /\
    length dates = 2 + 1 /\
    dates !! 0 = Some (mkDate 2015 1 31) /\
    forall k, k <= 2 ->
      dates !! k = Some (month_end_after (mkDate 2015 1 31) (1 * k)).
Proof.
  apply (payment_date_from_month_end (mkDate 2015 1 31) 2 FreqM 1
           (new_Amortization (A:=float))).
  - reflexivity.
  - simpl. lia.
  - reflexivity.
  - reflexivity.
  - reflexivity.
Defined.

Lemma payment_date_raises_on_short_month_witness :
  payment_date (mkDate 2015 10 30) 6 FreqM (new_Amortization (A:=float)) =
    (set_pmt_date (Some (offset_dates (mkDate 2015 10 30) (6 + 1) FreqM))
       new_Amortization,
     Raise (ValueError "day is out of range for month")).
Proof.
  apply (payment_date_raises_on_short_month (mkDate 2015 10 30) 6 FreqM 1 4
           (new_Amortization (A:=float))).
  - reflexivity.
  - simpl. lia.
  - simpl. lia.
  - reflexivity.
  - reflexivity.
  - lia.
  - vm_compute. lia.
Defined.

Lemma payment_date_returns_when_days_fit_witness :
  exists dates,
    payment_date (mkDate 2015 3 30) 3 Freq3M (new_Amortization (A:=float))
      = (set_pmt_date (Some dates) new_Amortization, Ok tt) /\
    length dates = 3 + 1 /\
    dates !! 0 = Some (mkDate 2015 3 30) /\
    forall k, k <= 3 ->
      dates !! k =
        Some (mkDate (year (month_end_after (mkDate 2015 3 30) (3 * k)))
                     (month (month_end_after (mkDate 2015 3 30) (3 * k)))
                     30).
Proof.
  apply (payment_date_returns_when_days_fit (mkDate 2015 3 30) 3 Freq3M 3
           (new_Amortization (A:=float))).
  - reflexivity.
  - simpl. lia.
  - simpl. lia.
  - reflexivity.
  - reflexivity.
  - intros k Hk. do 4 (destruct k as [|k]; [vm_compute; lia|]). lia.
Defined.


Lemma payment_date_yearly_in_december_witness :
  exists dates,
    payment_date (mkDate 2015 8 24) 2 FreqY (new_Amortization (A:=float))
      = (set_pmt_date (Some dates) new_Amortization, Ok tt) /\
    length dates = 2 + 1 /\
    (forall k, k <= 2 ->
       dates !! k = Some (mkDate (2015 + k) 12 24)) /\
    (dates !! 0 = Some (mkDate 2015 8 24) <-> 8 = 12).
Proof.
  apply (payment_date_yearly_in_december (mkDate 2015 8 24) 2
           (new_Amortization (A:=float))).
  - simpl. lia.
  - reflexivity.
  - reflexivity.
Defined.

(** ** When the orchestration returns, and the frame it returns *)

Section OrchestrationOutcomes.
Context {A : Type} `{Arith A}.
Variables CHARGED_OFF PREPAY : table A.

Lemma has_column_of_column (k : label) (t : table A) col :
  column k t = Some col -> has_column k t = true.
Proof.
  unfold column, has_column. intros Hc.
  apply bool_decide_eq_true.
  induction t as [|[k' c] t IH]; simpl in *; [discriminate|].
  case_bool_decide; simpl in *.
  - subst. left.
  - right. apply IH. exact Hc.
Qed.

Lemma column_of_has_column (k : label) (t : table A) :
  has_column k t = true -> exists col, column k t = Some col.
Proof.
  unfold column, has_column. intros Hc.
  apply bool_decide_eq_true in Hc.
  induction t as [|[k' c] t IH]; simpl in *.
  - inversion Hc.
  - case_bool_decide; simpl in *; [eauto|].
    apply IH. inversion Hc; subst; [contradiction | assumption].
Qed.

(** What the scheduled amortization followed by a run of the adjustment
    method that returns leaves on an object that already holds the payment
    dates and the prepay speeds. *)
Lemma series_after_adjustment (loan : Loan A) (st3 st5 : Amortization A)
    dates ps :
  pmt_date st3 = Some dates -> length dates = term loan + 1 ->
  prepay_speed st3 = Some ps -> length ps = term loan + 1 ->
  run_recurrence loan st3 = (st5, Ok tt) ->
  series_lengths (term loan + 1) st5 /\
  pmt_cnt st5 = Some (seq 0 (term loan + 1)) /\
  default_rate st5 = default_rate st3.
Proof.
  intros Hdates Ldates Hps Lps. unfold run_recurrence.
  destruct (calc_scheduled_cashflow_spec loan st3) as (sb & E & Lsb & Hsb0 & _).
  rewrite E. cbn [fst]. intros H5.
  apply adjust_cashflow_inv in H5
    as (cnt & bal & dflt & pre & pr & int & sb0 & H5).
  cbn zeta in H5. proj_simpl_in H5.
  destruct H5 as (Hcnt & H18 & Hsame & _ & Hbal & Hdflt & Hpre & Hpr & Hint &
                  Lbal & Ldflt & Lpre & Lpr & Lint & Hs0 & Hb0 & Hd0 & Hp0 &
                  Hr0 & Hi0 & Hrec & Hsrv & Hear & Htot).
  injection Hcnt as <-. rewrite length_seq in *.
  unfold same_inputs in Hsame. proj_simpl_in Hsame.
  destruct Hsame as (Ecnt & Edates & Esp & Esi & Esb & Eps & Edr & _ & _).
  split; [|split; [exact Ecnt | exact Edr]].
  unfold series_lengths.
  rewrite Ecnt, Edates, Esp, Esi, Esb, Eps, Hrec, Hsrv, Hear, Hbal, Hpr,
    Hdflt, Hpre, Hint, Htot, Hdates, Hps. simpl.
  rewrite ?length_insert, ?length_zip_with, ?length_insert, ?length_fmap,
    ?length_seq, ?length_zeros, ?length_zip_with, ?length_take, ?length_drop.
  simpl. rewrite ?length_fmap, ?length_zip_with, ?length_take, ?length_drop.
  repeat split; f_equal; lia.
Qed.

Lemma length_fmap_Some {T} (o : option (list T)) n :
  length <$> o = Some n -> exists l, o = Some l /\ length l = n.
Proof. destruct o as [l|]; simpl; [|discriminate]. intros [= <-]. eauto. Qed.

(** On an object all of whose series have [n] entries, with a default-rate
    series of at least [n] entries, [to_dataframe] returns the seventeen
    columns, each holding the series of its attribute. *)
Lemma to_dataframe_total (st : Amortization A) n dr :
  series_lengths n st -> default_rate st = Some dr -> n <= length dr ->
  exists cnt dates sp si sb ps rec srv ear bal pr dflt pre int tcf,
    pmt_cnt st = Some cnt /\ pmt_date st = Some dates /\
    scheduled_principal st = Some sp /\ scheduled_interest st = Some si /\
    scheduled_balance st = Some sb /\ prepay_speed st = Some ps /\
    recovery st = Some rec /\ servicing_cf st = Some srv /\
    earout_cf st = Some ear /\ balance st = Some bal /\
    principle st = Some pr /\ default st = Some dflt /\
    prepay st = Some pre /\ interest st = Some int /\
    total_cf st = Some tcf /\
    to_dataframe st =
      (st, Ok [ ("Months", ColNat (seq 1 n));
                ("Paymnt_Count", ColNat cnt);
                ("Payment_Date", ColDate dates);
                ("Scheduled_Principal", ColFloat sp);
                ("Scheduled_Interest", ColFloat si);
                ("Scheduled_Balance", ColFloat sb);
                ("Prepay_Speed", ColFloat ps);
                ("Default_Rate", ColFloat (take n dr));
                ("Recovery", ColFloat rec);
                ("Servicing_CF", ColFloat srv);
                ("Earnout_CF", ColFloat ear);
                ("Balance", ColFloat bal);
                ("Principal", ColFloat pr);
                ("Default", ColFloat dflt);
                ("Prepay", ColFloat pre);
                ("Interest_Amount", ColFloat int);
                ("Total_CF", ColFloat tcf) ]).
Proof.
  intros Hlen Hdr Ldr. unfold series_lengths in Hlen.
  destruct Hlen as (L1&L2&L3&L4&L5&L6&L7&L8&L9&L10&L11&L12&L13&L14&L15).
  apply length_fmap_Some in L1 as (cnt & E1 & L1).
  apply length_fmap_Some in L2 as (dates & E2 & L2).
  apply length_fmap_Some in L3 as (sp & E3 & L3).
  apply length_fmap_Some in L4 as (si & E4 & L4).
  apply length_fmap_Some in L5 as (sb & E5 & L5).
  apply length_fmap_Some in L6 as (ps & E6 & L6).
  apply length_fmap_Some in L7 as (rec & E7 & L7).
  apply length_fmap_Some in L8 as (srv & E8 & L8).
  apply length_fmap_Some in L9 as (ear & E9 & L9).
  apply length_fmap_Some in L10 as (bal & E10 & L10).
  apply length_fmap_Some in L11 as (pr & E11 & L11).
  apply length_fmap_Some in L12 as (dflt & E12 & L12).
  apply length_fmap_Some in L13 as (pre & E13 & L13).
  apply length_fmap_Some in L14 as (int & E14 & L14).
  apply length_fmap_Some in L15 as (tcf & E15 & L15).
  exists cnt, dates, sp, si, sb, ps, rec, srv, ear, bal, pr, dflt, pre, int, tcf.
  do 15 (split; [assumption|]).
  unfold to_dataframe.
  rewrite E1, E2, E3, E4, E5, E6, E7, E8, E9, E10, E11, E12, E13, E14, E15, Hdr.
  cbn [col_nat col_float forallb snd col_fits col_length].
  rewrite length_take, !length_seq, L1, L2, L3, L4, L5, L6, L7, L8, L9, L10,
    L11, L12, L13, L14, L15.
  replace (n `min` length dr) with n by lia.
  rewrite Nat.eqb_refl. reflexivity.
Qed.

(** Payment dates for an issue date every month has, within the range of
    a [Timestamp]. *)
Lemma payment_date_total start periods f step (st : Amortization A) :
  freq_months f = Some step ->
  1 <= month start <= 12 -> 1 <= day start <= 28 ->
  in_bounds start = true ->
  in_bounds (month_end_after start (step * periods)) = true ->
  exists dates,
    payment_date start periods f st = (set_pmt_date (Some dates) st, Ok tt) /\
    length dates = periods + 1.
Proof.
  intros Hf Hm Hd Hs He.
  rewrite <- (range_end_months _ _ _ _ Hf) in He.
  rewrite (payment_date_in_range _ _ _ _ Hs He).
  rewrite (date_range_months _ _ _ _ Hf).
  set (raw := (fun k => month_end_after start (step * k)) <$> seq 0 (periods + 1)).
  rewrite bind_assign.
  assert (H0 : raw !! 0 = Some (month_end_after start 0)).
  { subst raw. rewrite list_lookup_fmap, lookup_seq_lt by lia.
    simpl. rewrite Nat.mul_0_r. reflexivity. }
  unfold bind at 1, lift at 1, getitem. rewrite H0.
  destruct (negb _).
  - rewrite result_mapM_replace_day by exact Hd.
    eexists. split; [reflexivity|].
    subst raw. rewrite !length_fmap, length_seq. reflexivity.
  - eexists. split; [reflexivity|].
    subst raw. rewrite !length_fmap, length_seq. reflexivity.
Qed.

Lemma fetch_prepay_speed_total nper (st : Amortization A) pcol :
  column (LInt (Z.of_nat nper)) PREPAY = Some pcol ->
  length (List.filter (fun x => negb (is_nan x)) pcol) = nper \/
  length (List.filter (fun x => negb (is_nan x)) pcol) = 1 ->
  exists ps, fetch_prepay_speed PREPAY nper st
               = (set_prepay_speed (Some ps) st, Ok tt) /\
             length ps = nper + 1.
Proof.
  intros Hcol Hlen. unfold fetch_prepay_speed.
  rewrite (has_column_of_column _ _ _ Hcol). cbn [negb].
  rewrite bind_assign, Hcol.
  destruct (Nat.eqb_spec (length (List.filter (fun x => negb (is_nan x)) pcol)) nper)
    as [E|E].
  - eexists. split; [reflexivity|]. simpl. lia.
  - destruct Hlen as [Hl|Hl]; [contradiction|].
    destruct (List.filter _ pcol) as [|v [|]]; try discriminate.
    eexists. split; [reflexivity|]. simpl. rewrite length_replicate. lia.
Qed.

(** When the orchestration returns: the prepayment table has a column
    labelled with the term, holding as many values as the term or a single
    one; the charge-off table has a column under the loan's lookup key with
    at least [term + 1] rows and no column number is given; the frequency
    is a month-end one, the issue date's day is at most 28, and the issue
    date and the last month end of the schedule lie in the range of a
    [Timestamp]; and the term reaches the later earnout period.  Then
    [calc_cashflows] returns a frame. *)
Theorem calc_cashflows_returns (loan : Loan A) (st : Amortization A)
    (pcol dr : list A) (step : nat) :
  column (LInt (Z.of_nat (term loan))) PREPAY = Some pcol ->
  length (List.filter (fun x => negb (is_nan x)) pcol) = term loan \/
  length (List.filter (fun x => negb (is_nan x)) pcol) = 1 ->
  charge_off_col_num loan = None ->
  column (LStr (charge_off_lookup_key loan)) CHARGED_OFF = Some dr ->
  term loan + 1 <= length dr ->
  freq_months (amort_freq loan) = Some step ->
  1 <= month (issue_date loan) <= 12 -> 1 <= day (issue_date loan) <= 28 ->
  in_bounds (issue_date loan) = true ->
  in_bounds (month_end_after (issue_date loan) (step * term loan)) = true ->
  18 <= term loan ->
  exists st' df,
    calc_cashflows CHARGED_OFF PREPAY loan st = (st', Ok df) /\
    default_rate st' = Some dr /\
    length df = 17.
Proof.
  intros Hpcol Hplen Hnum Hdr Ldr Hf Hm Hd Hs He H18.
  unfold calc_cashflows.
  destruct (fetch_prepay_speed_total (term loan) st pcol Hpcol Hplen)
    as (ps & E1 & Lps).
  rewrite (bind_intro _ _ _ _ _ E1).
  assert (E2 : fetch_default_rate CHARGED_OFF (default_rate_selector loan)
                 (set_prepay_speed (Some ps) st)
               = (set_default_rate (Some dr) (set_prepay_speed (Some ps) st),
                  Ok tt)).
  { unfold default_rate_selector, fetch_default_rate. rewrite Hnum.
    rewrite (has_column_of_column _ _ _ Hdr). cbn [negb]. rewrite Hdr.
    reflexivity. }
  rewrite (bind_intro _ _ _ _ _ E2).
  destruct (payment_date_total (issue_date loan) (term loan) (amort_freq loan)
              step (set_default_rate (Some dr) (set_prepay_speed (Some ps) st))
              Hf Hm Hd Hs He) as (dates & E3 & Ldates).
  rewrite (bind_intro _ _ _ _ _ E3).
  set (st3 := set_pmt_date (Some dates)
                (set_default_rate (Some dr) (set_prepay_speed (Some ps) st))).
  destruct (calc_scheduled_cashflow_spec loan st3) as (sb & E4 & Lsb & _).
  rewrite (bind_intro _ _ _ _ _ E4).
  assert (Hin : inputs_cover (term loan + 1) (calc_scheduled_cashflow loan st3).1).
  { apply (scheduled_inputs_cover loan st3 dr ps); try reflexivity; lia. }
  assert (E5 : (run_recurrence loan st3).2 = Ok tt).
  { unfold run_recurrence.
    apply (adjust_cashflow_total loan _ (seq 0 (term loan + 1))).
    - rewrite E4. reflexivity.
    - rewrite length_seq. lia.
    - rewrite length_seq. exact Hin. }
  destruct (run_recurrence loan st3) as [st5 r5] eqn:Hrun.
  cbn [snd] in E5. subst r5.
  unfold run_recurrence in Hrun. rewrite E4 in Hrun. cbn [fst] in Hrun.
  rewrite (bind_intro _ _ _ _ _ Hrun).
  assert (Hrun' : run_recurrence loan st3 = (st5, Ok tt)).
  { unfold run_recurrence. rewrite E4. exact Hrun. }
  destruct (series_after_adjustment loan st3 st5 dates ps)
    as (Hlen & Hcnt & Hdr5); try reflexivity; try assumption.
  destruct (to_dataframe_total st5 (term loan + 1) dr Hlen)
    as (cnt & dates' & sp & si & sb' & ps' & rec & srv & ear & bal & pr &
        dflt & pre & int & tcf & Hall); [rewrite Hdr5; reflexivity | lia |].
  do 15 (destruct Hall as [_ Hall]).
  eexists st5, _. split; [exact Hall|]. split; [|reflexivity].
  rewrite Hdr5. reflexivity.
Qed.

(** The frame [calc_cashflows] returns has seventeen columns in a fixed
    order, each with [term + 1] rows; [Months] counts from 1, the payment
    count from 0, the default-rate column is the object's series cut to
    [term + 1] rows, and every other column is the series the object holds
    under the corresponding attribute. *)
Theorem calc_cashflows_frame (loan : Loan A) (st st' : Amortization A) df :
  calc_cashflows CHARGED_OFF PREPAY loan st = (st', Ok df) ->
  exists dates sp si sb ps dr rec srv ear bal pr dflt pre int tcf,
    pmt_date st' = Some dates /\
    scheduled_principal st' = Some sp /\ scheduled_interest st' = Some si /\
    scheduled_balance st' = Some sb /\ prepay_speed st' = Some ps /\
    default_rate st' = Some dr /\
    recovery st' = Some rec /\ servicing_cf st' = Some srv /\
    earout_cf st' = Some ear /\ balance st' = Some bal /\
    principle st' = Some pr /\ default st' = Some dflt /\
    prepay st' = Some pre /\ interest st' = Some int /\
    total_cf st' = Some tcf /\
    df = [ ("Months", ColNat (seq 1 (term loan + 1)));
           ("Paymnt_Count", ColNat (seq 0 (term loan + 1)));
           ("Payment_Date", ColDate dates);
           ("Scheduled_Principal", ColFloat sp);
           ("Scheduled_Interest", ColFloat si);
           ("Scheduled_Balance", ColFloat sb);
           ("Prepay_Speed", ColFloat ps);
           ("Default_Rate", ColFloat (take (term loan + 1) dr));
           ("Recovery", ColFloat rec);
           ("Servicing_CF", ColFloat srv);
           ("Earnout_CF", ColFloat ear);
           ("Balance", ColFloat bal);
           ("Principal", ColFloat pr);
           ("Default", ColFloat dflt);
           ("Prepay", ColFloat pre);
           ("Interest_Amount", ColFloat int);
           ("Total_CF", ColFloat tcf) ] /\
    Forall (fun c => col_length c.2 = Some (term loan + 1)) df.
Proof.
  unfold calc_cashflows. intros Hrun.
  apply bind_ok in Hrun as (s1 & [] & H1 & Hrun).
  apply bind_ok in Hrun as (s2 & [] & H2 & Hrun).
  apply bind_ok in Hrun as (s3 & [] & H3 & Hrun).
  apply bind_ok in Hrun as (s4 & [] & H4 & Hrun).
  apply bind_ok in Hrun as (s5 & [] & H5 & Hrun).
  apply fetch_prepay_speed_ok in H1 as (ps & -> & Lps & _).
  apply fetch_default_rate_ok in H2 as (dr & -> & _).
  apply payment_date_ok in H3 as (dates & -> & Ldates).
  set (st3 := set_pmt_date (Some dates)
                (set_default_rate (Some dr) (set_prepay_speed (Some ps) st))) in *.
  assert (Hrec : run_recurrence loan st3 = (s5, Ok tt)).
  { unfold run_recurrence. rewrite H4. exact H5. }
  destruct (series_after_adjustment loan st3 s5 dates ps)
    as (Hlen & Hcnt & Hdr5); try reflexivity; try assumption.
  pose proof (to_dataframe_ok _ _ _ Hrun)
    as (-> & dates' & dr' & Hdates & Hdr' & Lle & _).
  rewrite Hdr5 in Hdr'. injection Hdr' as <-.
  assert (Ldates' : length dates' = term loan + 1).
  { destruct Hlen as (_ & L2 & _). rewrite Hdates in L2.
    simpl in L2. congruence. }
  destruct (to_dataframe_total s5 (term loan + 1) dr Hlen)
    as (cnt & dates2 & sp & si & sb & ps' & rec & srv & ear & bal & pr &
        dflt & pre & int & tcf & Hall); [rewrite Hdr5; reflexivity | lia |].
  destruct Hall as (E1&E2&E3&E4&E5&E6&E7&E8&E9&E10&E11&E12&E13&E14&E15&Hdf).
  rewrite Hdf in Hrun. injection Hrun as <-.
  rewrite Hcnt in E1. injection E1 as <-.
  exists dates2, sp, si, sb, ps', dr, rec, srv, ear, bal, pr, dflt, pre, int, tcf.
  do 5 (split; [assumption|]).
  split; [rewrite Hdr5; reflexivity|].
  do 9 (split; [assumption|]).
  split; [reflexivity|].
  destruct Hlen as (L1&L2&L3&L4&L5&L6&L7&L8&L9&L10&L11&L12&L13&L14&L15).
  rewrite E2 in L2. rewrite E3 in L3. rewrite E4 in L4. rewrite E5 in L5.
  rewrite E6 in L6. rewrite E7 in L7. rewrite E8 in L8. rewrite E9 in L9.
  rewrite E10 in L10. rewrite E11 in L11. rewrite E12 in L12.
  rewrite E13 in L13. rewrite E14 in L14. rewrite E15 in L15.
  simpl in *.
  repeat (apply Forall_cons; split;
          [simpl; rewrite ?length_seq, ?length_take; first [assumption | f_equal; lia]|]).
  apply Forall_nil. exact I.
Qed.

(** A loan whose lookup key labels no column of the charge-off table, and
    which gives no column number: once the prepay speeds are found,
    [calc_cashflows] raises a key-not-found error that names the key, and
    the object holds the new prepay speeds and nothing else new. *)
Theorem calc_cashflows_unknown_key (loan : Loan A) (st st1 : Amortization A) :
  fetch_prepay_speed PREPAY (term loan) st = (st1, Ok tt) ->
  charge_off_col_num loan = None \/
  charge_off_col_num loan = Some (NumInt 0) ->
  has_column (LStr (charge_off_lookup_key loan)) CHARGED_OFF = false ->
  calc_cashflows CHARGED_OFF PREPAY loan st =
    (st1, Raise (KeyError (charge_off_lookup_key loan +:+
                           " cannot be found in the Charge Off table"))) /\
  exists ps, st1 = set_prepay_speed (Some ps) st.
Proof.
  intros H1 Hnum Hno. split.
  - unfold calc_cashflows. rewrite (bind_intro _ _ _ _ _ H1).
    apply bind_raise.
    unfold default_rate_selector, fetch_default_rate.
    destruct Hnum as [-> | ->]; simpl; rewrite Hno; reflexivity.
  - apply fetch_prepay_speed_ok in H1 as (ps & -> & _). eauto.
Qed.
End OrchestrationOutcomes.

Lemma calc_cashflows_returns_witness :
  exists st' df,
    calc_cashflows ex_CHARGED_OFF ex_PREPAY ex_loan new_Amortization
      = (st', Ok df) /\
    default_rate st' = Some (replicate 24 0.01%float) /\
    length df = 17.
Proof.
  apply (calc_cashflows_returns ex_CHARGED_OFF ex_PREPAY ex_loan
           new_Amortization
           (replicate 18 0.02%float ++ replicate 6 nan)
           (replicate 24 0.01%float) 1).
  - reflexivity.
  - left. vm_compute. reflexivity.
  - reflexivity.
  - vm_compute. reflexivity.
  - vm_compute. lia.
  - reflexivity.
  - simpl. lia.
  - simpl. lia.
  - reflexivity.
  - reflexivity.
  - simpl. lia.
Defined.

Lemma calc_cashflows_frame_witness :
  exists dates sp si sb ps dr rec srv ear bal pr dflt pre int tcf,
    pmt_date ex_run.1 = Some dates /\
    scheduled_principal ex_run.1 = Some sp /\
    scheduled_interest ex_run.1 = Some si /\
    scheduled_balance ex_run.1 = Some sb /\
    prepay_speed ex_run.1 = Some ps /\
    default_rate ex_run.1 = Some dr /\
    recovery ex_run.1 = Some rec /\ servicing_cf ex_run.1 = Some srv /\
    earout_cf ex_run.1 = Some ear /\ balance ex_run.1 = Some bal /\
    principle ex_run.1 = Some pr /\ default ex_run.1 = Some dflt /\
    prepay ex_run.1 = Some pre /\ interest ex_run.1 = Some int /\
    total_cf ex_run.1 = Some tcf /\
    ex_df = [ ("Months", ColNat (seq 1 (term ex_loan + 1)));
              ("Paymnt_Count", ColNat (seq 0 (term ex_loan + 1)));
              ("Payment_Date", ColDate dates);
              ("Scheduled_Principal", ColFloat sp);
              ("Scheduled_Interest", ColFloat si);
              ("Scheduled_Balance", ColFloat sb);
              ("Prepay_Speed", ColFloat ps);
              ("Default_Rate", ColFloat (take (term ex_loan + 1) dr));
              ("Recovery", ColFloat rec);
              ("Servicing_CF", ColFloat srv);
              ("Earnout_CF", ColFloat ear);
              ("Balance", ColFloat bal);
              ("Principal", ColFloat pr);
              ("Default", ColFloat dflt);
              ("Prepay", ColFloat pre);
              ("Interest_Amount", ColFloat int);
              ("Total_CF", ColFloat tcf) ] /\
    Forall (fun c => col_length c.2 = Some (term ex_loan + 1)) ex_df.
Proof.
  apply (calc_cashflows_frame ex_CHARGED_OFF ex_PREPAY ex_loan
           new_Amortization ex_run.1 ex_df).
  vm_compute. reflexivity.
Defined.

Lemma calc_cashflows_unknown_key_witness :
  calc_cashflows ex_CHARGED_OFF ex_PREPAY ex_unlisted_loan new_Amortization =
    (set_prepay_speed (Some (0%float :: replicate 18 0.02%float))
       new_Amortization,
     Raise (KeyError "18-Z9 cannot be found in the Charge Off table")) /\
  exists ps,
    set_prepay_speed (Some (0%float :: replicate 18 0.02%float))
      (new_Amortization (A:=float))
    = set_prepay_speed (Some ps) new_Amortization.
Proof.
  apply (calc_cashflows_unknown_key ex_CHARGED_OFF ex_PREPAY ex_unlisted_loan
           new_Amortization
           (set_prepay_speed (Some (0%float :: replicate 18 0.02%float))
              new_Amortization)).
  - vm_compute. reflexivity.
  - left. reflexivity.
  - vm_compute. reflexivity.
Defined.

(** ** The balance at the final period *)

Section FinalPeriod.
Local Open Scope Q_scope.

(** The level payment brings the balance to zero at the term. *)
Lemma fv_at_term rate n P :
  0 <= rate -> (1 <= n)%nat ->
  npf_fv rate n (npf_pmt rate n (- P)) (- P) == 0.
Proof.
  intros Hr Hn. destruct (rate_zero_or_pos rate Hr) as [E|Hpos].
  - rewrite (fv_closed_zero rate n _ _ E Hn).
    assert (Hn' : 0 < inject_Z (Z.of_nat n)).
    { change 0 with (inject_Z 0). rewrite <- Zlt_Qlt. lia. }
    field. lra.
  - rewrite (fv_closed_pos rate n _ _ Hpos Hn).
    pose proof (Qpow_nat_lt (1 + rate) 0 n ltac:(lra) ltac:(lia)) as HX.
    simpl in HX. field. lra.
Qed.

(** The balance left at the final period, in exact arithmetic.  The final
    scheduled principal is the whole scheduled balance, so principal and
    default take the whole realized balance, and what the prepayment adds
    on top is left as a negative balance: the final scheduled interest
    times the final prepay speed times the prepay multiplier. *)
Theorem final_balance_closed_form
    (loan : Loan Q) (st0 : Amortization Q) (dr ps : list Q) :
  (1 <= term loan)%nat -> 0 < invested loan -> 0 <= coupon loan ->
  default_rate st0 = Some dr -> prepay_speed st0 = Some ps ->
  (term loan <= length dr)%nat -> (term loan + 1 <= length ps)%nat ->
  exists b si p,
    elem (balance (run_recurrence loan st0).1) (term loan) = Some b /\
    elem (scheduled_interest (run_recurrence loan st0).1) (term loan) = Some si /\
    ps !! term loan = Some p /\
    b == - (si * p * _prepay_multiplier st0).
Proof.
  intros Hn HP Hc Hdr Hps Ldr Lps.
  destruct (run_recurrence_periods loan st0 dr ps Hdr Hps Ldr Lps)
    as (Hsame & _ & Hb0 & Hrec).
  destruct Hsame as (_ & _ & Esp & Esi & Esb & Eps & Edr & _ & Epm).
  destruct (scheduled_series_closed loan st0)
    as (sbl & Hsb & Hsp & Hsi & Hsb0 & Hclosed).
  cbn zeta in Hclosed.
  pose proof (periodic_rate_nonneg loan Hc) as Hr.
  destruct (calc_scheduled_cashflow_spec loan st0) as (sbl' & E & _).
  assert (Eps' : prepay_speed (run_recurrence loan st0).1 = Some ps).
  { rewrite Eps, E. cbn [fst]. proj_simpl. exact Hps. }
  assert (Epm' : _prepay_multiplier (run_recurrence loan st0).1
                 = _prepay_multiplier st0).
  { rewrite Epm, E. cbn [fst]. proj_simpl. reflexivity. }
  set (fin := (run_recurrence loan st0).1) in *.
  set (rate := periodic_rate loan) in *. set (n := term loan) in *.
  set (P := invested loan) in *.
  destruct (Hrec n) as (b1&r1&si_i&sb_1&sp_i&ps_i&d_i&pre_i&pr_i&R); [lia|].
  destruct R as (R1&R2&R3&R4&R5&R6&R7&R8&R9&R10&R11&R12&R13&R14).
  rewrite Esb, Hsb in R4. simpl in R4.
  destruct (Hclosed (n - 1)%nat) as (s0 & Hs0 & Es0); [lia|].
  rewrite Hs0 in R4. injection R4 as <-.
  assert (Hspos : 0 < s0).
  { rewrite Es0. apply fv_pos; [exact Hr | lia | exact HP]. }
  rewrite Eps' in R6. simpl in R6.
  pose proof R5 as R5'. rewrite Esp, Hsp in R5'.
  cbv beta iota delta [elem] in R5'.
  rewrite lookup_cons_fmap_seq in R5' by lia. cbv beta in R5'.
  apply (inj Some) in R5'.
  assert (Hlast : sp_i == s0).
  { subst sp_i. rewrite npf_ppmt_Q.
    pose proof (fv_step rate (n - 1) (npf_pmt rate n (- P)) (- P)) as Hst.
    replace (S (n - 1)) with n in Hst by lia.
    rewrite (fv_at_term rate n P Hr Hn) in Hst.
    change (@neg Q Q_arith) with Qopp.
    change (@sub Q Q_arith) with Qminus. change (@mul Q Q_arith) with Qmult.
    rewrite Es0. lra. }
  exists (b1 - pr_i - d_i)%ar, si_i, ps_i.
  split; [exact R13|]. split; [exact R3|]. split; [exact R6|].
  subst pr_i pre_i d_i. rewrite Epm'.
  clear R5'.
  change (@add Q Q_arith) with Qplus. change (@sub Q Q_arith) with Qminus.
  change (@mul Q Q_arith) with Qmult. change (@div Q Q_arith) with Qdiv.
  rewrite Hlast. field. lra.
Qed.
End FinalPeriod.

Lemma final_balance_closed_form_witness :
  exists b si p,
    elem (balance (run_recurrence ex_loan_Q ex_st0_Q).1) (term ex_loan_Q)
      = Some b /\
    elem (scheduled_interest (run_recurrence ex_loan_Q ex_st0_Q).1)
         (term ex_loan_Q) = Some si /\
    (0%Q :: replicate 3 (2 # 100)%Q) !! term ex_loan_Q = Some p /\
    (b == - (si * p * _prepay_multiplier ex_st0_Q))%Q.
Proof.
  apply (final_balance_closed_form ex_loan_Q ex_st0_Q
           (replicate 3 (1 # 100)%Q) (0%Q :: replicate 3 (2 # 100)%Q)).
  - simpl. lia.
  - reflexivity.
  - unfold Qle. simpl. lia.
  - reflexivity.
  - reflexivity.
  - simpl. lia.
  - simpl. lia.
Defined.

(** ** The yield of a loan bought at par *)

Section TotalCashflowEntries.
Context {A : Type} `{Arith A}.
Local Open Scope arith_scope.

(** The total cash flow a successful run leaves, entry by entry: the
    earnout entry is zero except at the two earnout periods. *)
Lemma total_cf_entries (loan : Loan A) (st0 st2 : Amortization A) :
  run_recurrence loan st0 = (st2, Ok tt) ->
  exists tcf,
    total_cf st2 = Some tcf /\ length tcf = (term loan + 1)%nat /\
    tcf !! 0%nat = Some (- invested loan * (of_Z 1 + premium loan)) /\
    forall i, (1 <= i <= term loan)%nat ->
      exists p int d b1 e,
        elem (principle st2) i = Some p /\
        elem (interest st2) i = Some int /\
        elem (default st2) i = Some d /\
        elem (balance st2) (i - 1) = Some b1 /\
        (e = of_Z 0 \/ e = earnout_amount loan) /\
        tcf !! i =
          Some (p + int + d * recovery_rate loan
                - (b1 - d) * servicing_fee loan /
                  of_Z (FREQ_PERIOD_MAP (amort_freq loan))
                - e).
Proof.
  unfold run_recurrence.
  destruct (calc_scheduled_cashflow_spec loan st0) as (sb & -> & Hlen & Hsb0 & _).
  cbn [fst]. intros Hrun.
  apply adjust_cashflow_inv in Hrun
    as (cnt & bal & dflt & pre & pr & int & sb0 & Hrun).
  cbn zeta in Hrun. proj_simpl_in Hrun.
  destruct Hrun as (Hcnt & H18 & _ & _ & Hbal & Hdflt & Hpre & Hpr & Hint &
                    Lbal & Ldflt & Lpre & Lpr & Lint & _ & _ & _ & _ & _ & _ &
                    Hrec & Hsrv & Hear & Htot).
  injection Hcnt as <-. rewrite length_seq in *.
  fold (earnout_amount loan) in *.
  set (fee := earnout_amount loan) in *.
  set (npy := of_Z (FREQ_PERIOD_MAP (amort_freq loan))) in *.
  set (rec := (fun d => d * recovery_rate loan) <$> dflt) in *.
  set (srv := of_Z 0 :: _) in *.
  set (ear := <[18:=fee]> (<[12:=fee]> (zeros (term loan + 1)))) in *.
  assert (Lrec : length rec = (term loan + 1)%nat)
    by (subst rec; rewrite length_fmap; exact Ldflt).
  assert (Lear : length ear = (term loan + 1)%nat)
    by (subst ear; rewrite !length_insert, length_zeros; reflexivity).
  assert (Lsrv : length srv = (term loan + 1)%nat).
  { subst srv. simpl. rewrite length_fmap, length_zip_with, length_take,
      length_drop. lia. }
  eexists. split; [exact Htot|].
  split.
  { rewrite length_insert, !length_zip_with. lia. }
  split.
  { apply list_lookup_insert_eq. rewrite !length_zip_with. lia. }
  intros i Hi.
  rewrite Hpr, Hint, Hdflt, Hbal. simpl elem.
  destruct (lookup_lt_is_Some_2 pr i) as [p Hp]; [lia|].
  destruct (lookup_lt_is_Some_2 int i) as [n Hn]; [lia|].
  destruct (lookup_lt_is_Some_2 dflt i) as [d Hd]; [lia|].
  destruct (lookup_lt_is_Some_2 bal (i - 1)) as [b1 Hb1]; [lia|].
  assert (He : exists e, ear !! i = Some e /\ (e = of_Z 0 \/ e = fee)).
  { subst ear. destruct (decide (i = 18)) as [->|N18].
    - exists fee. split; [|right; reflexivity].
      apply list_lookup_insert_eq. rewrite length_insert, length_zeros. lia.
    - rewrite list_lookup_insert_ne by lia.
      destruct (decide (i = 12)) as [->|N12].
      + exists fee. split; [|right; reflexivity].
        apply list_lookup_insert_eq. rewrite length_zeros. lia.
      + rewrite list_lookup_insert_ne by lia.
        exists (of_Z 0). split; [|left; reflexivity].
        apply lookup_zeros. lia. }
  destruct He as (e & He & Hcase).
  assert (Hr : rec !! i = Some (d * recovery_rate loan))
    by (subst rec; rewrite list_lookup_fmap, Hd; reflexivity).
  assert (Hs : srv !! i = Some ((b1 - d) * servicing_fee loan / npy)).
  { subst srv. destruct i as [|i]; [lia|]. simpl.
    rewrite list_lookup_fmap, lookup_zip_with, lookup_take_lt by lia.
    rewrite lookup_drop. simpl in Hb1. rewrite Nat.sub_0_r in Hb1.
    rewrite Hb1. simpl. rewrite Hd. reflexivity. }
  exists p, n, d, b1, e.
  repeat split; try assumption.
  rewrite list_lookup_insert_ne by lia.
  rewrite !lookup_zip_with, Hp, Hn, Hr, Hs, He. reflexivity.
Qed.
End TotalCashflowEntries.

Section ParLoan.
Local Open Scope Q_scope.

(** A loan of at least 18 periods bought at par (zero premium), with a
    coupon that is not negative, free of fees and of defaults, on an object
    that holds at least [term] default rates and [term + 1] prepay speeds,
    in exact arithmetic: the adjustment returns and, whatever the
    prepayments, the net present value of its total cash flow at the
    periodic coupon rate is what is left of the balance at the final
    period, discounted, with the opposite sign.  So whenever the final
    balance is zero, the periodic coupon rate is a root of the net present
    value that [irr] solves for. *)
Theorem par_loan_npv (loan : Loan Q) (st0 : Amortization Q) (dr ps : list Q) :
  (18 <= term loan)%nat -> 0 <= coupon loan ->
  default_rate st0 = Some dr -> prepay_speed st0 = Some ps ->
  (term loan <= length dr)%nat -> (term loan + 1 <= length ps)%nat ->
  (forall k r, dr !! k = Some r -> r == 0) ->
  premium loan == 0 -> servicing_fee loan == 0 -> earnout_fee loan == 0 ->
  exists tcf b,
    (run_recurrence loan st0).2 = Ok tt /\
    total_cf (run_recurrence loan st0).1 = Some tcf /\
    elem (balance (run_recurrence loan st0).1) (term loan) = Some b /\
    npv tcf (periodic_rate loan)
    == - b / Qpow_nat (1 + periodic_rate loan) (term loan).
Proof.
  intros H18 Hc Hdr Hps Ldr Lps Zdr Zprem Zsf Zef.
  pose proof (periodic_rate_nonneg loan Hc) as Hr.
  destruct (run_recurrence_periods loan st0 dr ps Hdr Hps Ldr Lps)
    as (Hsame & _ & Hb0 & Hrec).
  destruct Hsame as (_ & _ & _ & _ & _ & _ & Edr & _ & _).
  destruct (calc_scheduled_cashflow_spec loan st0) as (sbl & E & _).
  assert (Edr' : default_rate (run_recurrence loan st0).1 = Some dr).
  { rewrite Edr, E. cbn [fst]. proj_simpl. exact Hdr. }
  assert (Hok : (run_recurrence loan st0).2 = Ok tt).
  { unfold run_recurrence.
    apply (adjust_cashflow_total loan _ (seq 0 (term loan + 1))).
    - rewrite E. reflexivity.
    - rewrite length_seq. lia.
    - rewrite length_seq.
      apply (scheduled_inputs_cover loan st0 dr ps); assumption. }
  destruct (run_recurrence loan st0) as [st2 r2] eqn:Hrun.
  cbn [fst snd] in *. subst r2.
  destruct (total_cf_entries loan st0 st2 Hrun) as (tcf & Htcf & Ltcf & H0 & Hent).
  set (rate := periodic_rate loan) in *. set (n := term loan) in *.
  set (q := 1 + rate).
  set (T := zip_with (fun c t => c / Qpow_nat q t) tcf (seq 0 (length tcf))).
  assert (Hfee : earnout_amount loan == 0).
  { unfold earnout_amount. change (@mul Q Q_arith) with Qmult.
    change (@div Q Q_arith) with Qdiv. rewrite Zef.
    unfold Qdiv. ring. }
  assert (Hq : forall k, 0 < Qpow_nat q k).
  { intros k. pose proof (Qpow_nat_ge1 q k ltac:(subst q; lra)). lra. }
  assert (HT : forall i c, tcf !! i = Some c ->
                 T !! i = Some (c / Qpow_nat q i)).
  { intros i c Hc'. subst T. rewrite lookup_zip_with, Hc'. simpl.
    rewrite lookup_seq_lt by (apply lookup_lt_Some in Hc'; exact Hc').
    reflexivity. }
  assert (Hpart : forall k, (k <= n)%nat ->
            exists b, elem (balance st2) k = Some b /\
                      Qsum (take (S k) T) == - b / Qpow_nat q k).
  { induction k as [|k IH]; intros Hk.
    - exists (invested loan). split; [exact Hb0|].
      rewrite (Qsum_take_S T 0 _ (HT _ _ H0)). simpl take.
      unfold Qsum. simpl.
      change (@neg Q Q_arith) with Qopp. change (@add Q Q_arith) with Qplus.
      change (@mul Q Q_arith) with Qmult. change (@of_Z Q Q_arith 1%Z) with 1.
      rewrite Zprem. field.
    - destruct IH as (b & Hb & Esum); [lia|].
      destruct (Hent (S k)) as (p & int & d & b1 & e & Hp & Hint & Hd & Hb1 &
                                He & Hc'); [lia|].
      destruct (Hrec (S k)) as (b1'&r1&si_i&sb_1&sp_i&ps_i&d_i&pre_i&pr_i&R);
        [lia|].
      destruct R as (R1&R2&R3&R4&R5&R6&R7&R8&R9&R10&R11&R12&R13&R14).
      replace (S k - 1)%nat with k in * by lia.
      rewrite Hb in Hb1. injection Hb1 as <-.
      rewrite Hb in R1. injection R1 as <-.
      rewrite Hd in R7. injection R7 as <-.
      rewrite Hp in R11. injection R11 as <-.
      rewrite Hint in R14. injection R14 as R14.
      rewrite Edr' in R2. simpl in R2. apply Zdr in R2.
      exists (b - p - d)%ar. split; [exact R13|].
      rewrite (Qsum_take_S T (S k) _ (HT _ _ Hc')), Esum.
      assert (Ee : e == 0) by (destruct He as [-> | ->]; [reflexivity | exact Hfee]).
      assert (Ed : d == 0).
      { rewrite R8. change (@mul Q Q_arith) with Qmult. rewrite R2. ring. }
      clear R12 R10 R8. subst int.
      change (@add Q Q_arith) with Qplus. change (@sub Q Q_arith) with Qminus.
      change (@mul Q Q_arith) with Qmult. change (@div Q Q_arith) with Qdiv.
      change (@neg Q Q_arith) with Qopp.
      pose proof (Hq k) as Hqk. simpl Qpow_nat.
      assert (Hnpy : 0 < of_Z (FREQ_PERIOD_MAP (amort_freq loan)))
        by (destruct (amort_freq loan); reflexivity).
      set (npy := @of_Z Q Q_arith (FREQ_PERIOD_MAP (amort_freq loan))) in *.
      clearbody npy.
      rewrite Ee, Ed, Zsf. fold rate.
      set (X := Qpow_nat q k) in *. clearbody X.
      subst q. field. repeat split; lra. }
  destruct (Hpart n) as (b & Hb & Esum); [lia|].
  exists tcf, b. split; [reflexivity|]. split; [exact Htcf|]. split; [exact Hb|].
  rewrite npv_Q. fold q. fold T.
  assert (Htake : take (S n) T = T).
  { apply take_ge. subst T. rewrite length_zip_with, length_seq. lia. }
  rewrite Htake in Esum. exact Esum.
Qed.
End ParLoan.

Lemma par_loan_npv_witness :
  exists tcf b,
    (run_recurrence ex_par_loan_Q ex_par_st0_Q).2 = Ok tt /\
    total_cf (run_recurrence ex_par_loan_Q ex_par_st0_Q).1 = Some tcf /\
    elem (balance (run_recurrence ex_par_loan_Q ex_par_st0_Q).1)
         (term ex_par_loan_Q) = Some b /\
    (npv tcf (periodic_rate ex_par_loan_Q)
     == - b / Qpow_nat (1 + periodic_rate ex_par_loan_Q) (term ex_par_loan_Q))%Q.
Proof.
  apply (par_loan_npv ex_par_loan_Q ex_par_st0_Q
           (replicate 18 0%Q) (0%Q :: replicate 17 (2 # 100)%Q ++ [0%Q])).
  - simpl. lia.
  - unfold Qle. simpl. lia.
  - reflexivity.
  - reflexivity.
  - simpl. lia.
  - simpl. lia.
  - intros k r Hk. apply lookup_replicate in Hk as [-> _]. reflexivity.
  - reflexivity.
  - reflexivity.
  - reflexivity.
Defined.

(** ** The default and prepay multipliers *)

Section Multipliers.
Local Open Scope Q_scope.

(** What the two multipliers mean, in exact arithmetic: running the
    schedule and the adjustment with a default multiplier [m] and a prepay
    multiplier [p] gives, in every period, the balance, default, prepay,
    principal and interest that multipliers of 1 give on default rates
    scaled by [m] and prepay speeds scaled by [p]. *)
Theorem multipliers_scale_rates
    (loan : Loan Q) (st0 : Amortization Q) (dr ps : list Q) (m p : Q) :
  default_rate st0 = Some dr -> prepay_speed st0 = Some ps ->
  (term loan <= length dr)%nat -> (term loan + 1 <= length ps)%nat ->
  let stA := set_prepay_multiplier p (set_default_multiplier m st0) in
  let stB := set_prepay_speed (Some (Qmult p <$> ps))
               (set_default_rate (Some (Qmult m <$> dr))
                  (set_prepay_multiplier 1 (set_default_multiplier 1 st0))) in
  forall i, (1 <= i <= term loan)%nat ->
    exists b d pre pr int b' d' pre' pr' int',
      elem (balance (run_recurrence loan stA).1) i = Some b /\
      elem (default (run_recurrence loan stA).1) i = Some d /\
      elem (prepay (run_recurrence loan stA).1) i = Some pre /\
      elem (principle (run_recurrence loan stA).1) i = Some pr /\
      elem (interest (run_recurrence loan stA).1) i = Some int /\
      elem (balance (run_recurrence loan stB).1) i = Some b' /\
      elem (default (run_recurrence loan stB).1) i = Some d' /\
      elem (prepay (run_recurrence loan stB).1) i = Some pre' /\
      elem (principle (run_recurrence loan stB).1) i = Some pr' /\
      elem (interest (run_recurrence loan stB).1) i = Some int' /\
      b == b' /\ d == d' /\ pre == pre' /\ pr == pr' /\ int == int'.
Proof.
  intros Hdr Hps Ldr Lps stA stB.
  assert (HdrA : default_rate stA = Some dr) by exact Hdr.
  assert (HpsA : prepay_speed stA = Some ps) by exact Hps.
  assert (HdrB : default_rate stB = Some (Qmult m <$> dr)) by reflexivity.
  assert (HpsB : prepay_speed stB = Some (Qmult p <$> ps)) by reflexivity.
  destruct (run_recurrence_periods loan stA dr ps HdrA HpsA Ldr Lps)
    as (HsameA & _ & Hb0A & HrecA).
  destruct (run_recurrence_periods loan stB _ _ HdrB HpsB
              ltac:(rewrite length_fmap; exact Ldr)
              ltac:(rewrite length_fmap; exact Lps))
    as (HsameB & _ & Hb0B & HrecB).
  destruct HsameA as (_ & _ & EspA & EsiA & EsbA & EpsA & EdrA & EdmA & EpmA).
  destruct HsameB as (_ & _ & EspB & EsiB & EsbB & EpsB & EdrB & EdmB & EpmB).
  destruct (scheduled_series_closed loan stA)
    as (sbA & HsbA & HspA & HsiA & _ & HclosedA).
  destruct (scheduled_series_closed loan stB)
    as (sbB & HsbB & HspB & HsiB & _ & HclosedB).
  cbn zeta in HclosedA, HclosedB.
  destruct (calc_scheduled_cashflow_spec loan stA) as (sA & EA & _).
  destruct (calc_scheduled_cashflow_spec loan stB) as (sB & EB & _).
  rewrite EA in EpsA, EdrA, EdmA, EpmA. rewrite EB in EpsB, EdrB, EdmB, EpmB.
  cbn [fst] in EpsA, EdrA, EdmA, EpmA, EpsB, EdrB, EdmB, EpmB.
  proj_simpl_in EpsA. proj_simpl_in EdrA. proj_simpl_in EdmA. proj_simpl_in EpmA.
  proj_simpl_in EpsB. proj_simpl_in EdrB. proj_simpl_in EdmB. proj_simpl_in EpmB.
  subst stA stB. proj_simpl_in EpsA. proj_simpl_in EdrA. proj_simpl_in EdmA.
  proj_simpl_in EpmA. proj_simpl_in EpsB. proj_simpl_in EdrB.
  proj_simpl_in EdmB. proj_simpl_in EpmB.
  rewrite Hps in EpsA. rewrite Hdr in EdrA.
  match type of Hb0A with elem (balance ?f) _ = _ => set (finA := f) in * end.
  match type of Hb0B with elem (balance ?f) _ = _ => set (finB := f) in * end.
  set (rate := periodic_rate loan) in *. set (n := term loan) in *.
  assert (Hstep : forall i, (1 <= i <= n)%nat ->
            forall b1 b1',
              elem (balance finA) (i - 1) = Some b1 ->
              elem (balance finB) (i - 1) = Some b1' -> b1 == b1' ->
              exists b d pre pr int b' d' pre' pr' int',
                elem (balance finA) i = Some b /\
                elem (default finA) i = Some d /\
                elem (prepay finA) i = Some pre /\
                elem (principle finA) i = Some pr /\
                elem (interest finA) i = Some int /\
                elem (balance finB) i = Some b' /\
                elem (default finB) i = Some d' /\
                elem (prepay finB) i = Some pre' /\
                elem (principle finB) i = Some pr' /\
                elem (interest finB) i = Some int' /\
                b == b' /\ d == d' /\ pre == pre' /\ pr == pr' /\ int == int').
  { intros i Hi b1 b1' Hb1 Hb1' Eb.
    destruct (HrecA i Hi) as (a1&r1&si_i&sb_1&sp_i&ps_i&d_i&pre_i&pr_i&R).
    destruct R as (R1&R2&R3&R4&R5&R6&R7&R8&R9&R10&R11&R12&R13&R14).
    destruct (HrecB i Hi) as (a1'&r1'&si_i'&sb_1'&sp_i'&ps_i'&d_i'&pre_i'&pr_i'&S).
    destruct S as (S1&S2&S3&S4&S5&S6&S7&S8&S9&S10&S11&S12&S13&S14).
    rewrite Hb1 in R1. injection R1 as <-.
    rewrite Hb1' in S1. injection S1 as <-.
    rewrite EdrA in R2. rewrite EdrB in S2. simpl in R2, S2.
    rewrite list_lookup_fmap, R2 in S2. simpl in S2. injection S2 as <-.
    rewrite EpsA in R6. rewrite EpsB in S6. simpl in R6, S6.
    rewrite list_lookup_fmap, R6 in S6. simpl in S6. injection S6 as <-.
    rewrite EsiA, HsiA in R3. rewrite EsiB, HsiB in S3.
    rewrite R3 in S3. injection S3 as <-.
    rewrite EspA, HspA in R5. rewrite EspB, HspB in S5.
    rewrite R5 in S5. injection S5 as <-.
    rewrite EsbA, HsbA in R4. rewrite EsbB, HsbB in S4. simpl in R4, S4.
    destruct (HclosedA (i - 1)%nat) as (sa & Hsa & Esa); [lia|].
    destruct (HclosedB (i - 1)%nat) as (sb & Hsb & Esb); [lia|].
    rewrite Hsa in R4. injection R4 as <-.
    rewrite Hsb in S4. injection S4 as <-.
    assert (Es : sa == sb) by (rewrite Esa, Esb; reflexivity).
    rewrite EdmA in R8. rewrite EpmA in R10.
    rewrite EdmB in S8. rewrite EpmB in S10.
    clear R3 R5 HsiA HsiB HspA HspB.
    exists (b1 - pr_i - d_i)%ar, d_i, pre_i, pr_i, ((b1 - d_i) * rate)%ar,
           (b1' - pr_i' - d_i')%ar, d_i', pre_i', pr_i', ((b1' - d_i') * rate)%ar.
    do 10 (split; [assumption|]).
    change (@add Q Q_arith) with Qplus in *.
    change (@sub Q Q_arith) with Qminus in *.
    change (@mul Q Q_arith) with Qmult in *.
    change (@div Q Q_arith) with Qdiv in *.
    assert (Ed : d_i == d_i').
    { rewrite R8, S8, Eb. ring. }
    assert (Epre : pre_i == pre_i').
    { rewrite R10, S10, Eb, Es. ring. }
    assert (Epr : pr_i == pr_i').
    { rewrite R12, S12, Eb, Es, Ed, Epre. reflexivity. }
    rewrite Eb, Ed, Epr. repeat split; try assumption; reflexivity. }
  assert (Hbal : forall i, (i <= n)%nat ->
            exists b b', elem (balance finA) i = Some b /\
                         elem (balance finB) i = Some b' /\ b == b').
  { induction i as [|i IH]; intros Hi.
    - exists (invested loan), (invested loan).
      split; [exact Hb0A|]. split; [exact Hb0B|]. reflexivity.
    - destruct IH as (b1 & b1' & Hb1 & Hb1' & Eb); [lia|].
      destruct (Hstep (S i) ltac:(lia) b1 b1') as
        (b&d&pre&pr&int&b'&d'&pre'&pr'&int'&X);
        try (replace (S i - 1)%nat with i by lia; assumption).
      exists b, b'. tauto. }
  intros i Hi.
  destruct (Hbal (i - 1)%nat) as (b1 & b1' & Hb1 & Hb1' & Eb); [lia|].
  exact (Hstep i Hi b1 b1' Hb1 Hb1' Eb).
Qed.
End Multipliers.

Lemma multipliers_scale_rates_witness :
  exists b d pre pr int b' d' pre' pr' int',
    elem (balance (run_recurrence ex_loan_Q ex_stressed_Q).1) 2 = Some b /\
    elem (default (run_recurrence ex_loan_Q ex_stressed_Q).1) 2 = Some d /\
    elem (prepay (run_recurrence ex_loan_Q ex_stressed_Q).1) 2 = Some pre /\
    elem (principle (run_recurrence ex_loan_Q ex_stressed_Q).1) 2 = Some pr /\
    elem (interest (run_recurrence ex_loan_Q ex_stressed_Q).1) 2 = Some int /\
    elem (balance (run_recurrence ex_loan_Q ex_scaled_Q).1) 2 = Some b' /\
    elem (default (run_recurrence ex_loan_Q ex_scaled_Q).1) 2 = Some d' /\
    elem (prepay (run_recurrence ex_loan_Q ex_scaled_Q).1) 2 = Some pre' /\
    elem (principle (run_recurrence ex_loan_Q ex_scaled_Q).1) 2 = Some pr' /\
    elem (interest (run_recurrence ex_loan_Q ex_scaled_Q).1) 2 = Some int' /\
    (b == b')%Q /\ (d == d')%Q /\ (pre == pre')%Q /\ (pr == pr')%Q /\
    (int == int')%Q.
Proof.
  apply (multipliers_scale_rates ex_loan_Q ex_st0_Q
           (replicate 3 (1 # 100)%Q) (0%Q :: replicate 3 (2 # 100)%Q) 2%Q 3%Q).
  - reflexivity.
  - reflexivity.
  - simpl. lia.
  - simpl. lia.
  - simpl. lia.
Defined.

(** ** The object the orchestration starts from *)

Section Overwrites.
Context {A : Type} `{Arith A}.
Variables CHARGED_OFF PREPAY : table A.

(** The three lookups store what they find whatever the object held. *)
Lemma fetch_prepay_speed_any nper (st st1 : Amortization A) :
  fetch_prepay_speed PREPAY nper st = (st1, Ok tt) ->
  exists ps, length ps = nper + 1 /\
    forall s, fetch_prepay_speed PREPAY nper s
              = (set_prepay_speed (Some ps) s, Ok tt).
Proof.
  unfold fetch_prepay_speed.
  destruct (negb _); [discriminate|].
  rewrite bind_assign.
  destruct (column _ PREPAY) as [col|]; [|discriminate].
  destruct (Nat.eqb_spec (length (List.filter (fun x => negb (is_nan x)) col)) nper)
    as [E|E].
  - intros _. eexists. split; [|intros s; rewrite bind_assign; reflexivity].
    simpl. lia.
  - destruct (List.filter _ col) as [|v [|]]; try discriminate.
    intros _. eexists. split; [|intros s; rewrite bind_assign; reflexivity].
    simpl. rewrite length_replicate. lia.
Qed.

Lemma fetch_default_rate_any sel (st st1 : Amortization A) :
  fetch_default_rate CHARGED_OFF sel st = (st1, Ok tt) ->
  exists dr, forall s, fetch_default_rate CHARGED_OFF sel s
                       = (set_default_rate (Some dr) s, Ok tt).
Proof.
  unfold fetch_default_rate. destruct sel as [c|b|s0|]; [| | |discriminate].
  - destruct (c >=? _)%Z; [discriminate|].
    unfold bind, lift.
    destruct (iloc_column c CHARGED_OFF) as [col|]; [|discriminate].
    intros _. exists col. reflexivity.
  - destruct (_ >=? _)%Z; discriminate.
  - destruct (negb _); [discriminate|].
    destruct (column _ _) as [col|]; [|discriminate].
    intros _. exists col. reflexivity.
Qed.

Lemma payment_date_any start periods f (st st1 : Amortization A) :
  payment_date start periods f st = (st1, Ok tt) ->
  exists dates, length dates = periods + 1 /\
    forall s : Amortization A, payment_date start periods f s
              = (set_pmt_date (Some dates) s, Ok tt).
Proof.
  intros Hrun. unfold payment_date in Hrun.
  unfold bind at 1, lift at 1 in Hrun.
  destruct (date_range start (periods + 1) f) as [raw|] eqn:Er;
    [|discriminate].
  pose proof (length_date_range _ _ _ _ Er) as Lraw.
  rewrite bind_assign in Hrun.
  unfold bind at 1, lift at 1 in Hrun.
  destruct (getitem raw 0) as [d0|] eqn:Eg; [|discriminate].
  destruct (negb (day start =? day d0)) eqn:En.
  - unfold bind, lift in Hrun.
    destruct (result_mapM (replace_day (day start)) raw) as [fixed|] eqn:E;
      [|discriminate].
    exists fixed. split.
    + rewrite (result_mapM_length _ _ _ E). exact Lraw.
    + intros s. unfold payment_date.
      unfold bind at 1, lift at 1. rewrite Er, bind_assign.
      unfold bind, lift. rewrite Eg, En, E. reflexivity.
  - exists raw. split; [exact Lraw|].
    intros s. unfold payment_date.
    unfold bind at 1, lift at 1. rewrite Er, bind_assign.
    unfold bind, lift. rewrite Eg, En. reflexivity.
Qed.

(** The scheduled balance does not depend on the object the schedule is
    computed on. *)
Lemma scheduled_balance_unique (loan : Loan A) (st st' : Amortization A) :
  scheduled_balance (calc_scheduled_cashflow loan st).1
  = scheduled_balance (calc_scheduled_cashflow loan st').1.
Proof.
  destruct (calc_scheduled_cashflow_spec loan st) as (sb & -> & L & H0 & Hs).
  destruct (calc_scheduled_cashflow_spec loan st') as (sb' & -> & L' & H0' & Hs').
  cbn [fst]. proj_simpl. f_equal. cbn zeta in Hs, Hs'.
  assert (Hi : forall i, i <= term loan -> sb !! i = sb' !! i).
  { induction i as [|i IH]; intros Hi.
    - rewrite H0, H0'. reflexivity.
    - destruct (Hs (S i)) as (b & Hb & ->); [lia|].
      destruct (Hs' (S i)) as (b' & Hb' & ->); [lia|].
      replace (S i - 1) with i in * by lia.
      rewrite IH, Hb' in Hb by lia. injection Hb as ->. reflexivity. }
  apply list_eq. intros i.
  destruct (decide (i <= term loan)) as [Hle|Hgt]; [apply Hi; exact Hle|].
  rewrite !lookup_ge_None_2 by lia. reflexivity.
Qed.

(** One period of the recurrence is determined by the inputs and the
    balance before it. *)
Lemma recurrence_at_unique rate (st st' : Amortization A) i :
  recurrence_at rate st i -> recurrence_at rate st' i ->
  same_inputs st st' ->
  elem (balance st) (i - 1) = elem (balance st') (i - 1) ->
  elem (balance st) i = elem (balance st') i /\
  elem (default st) i = elem (default st') i /\
  elem (prepay st) i = elem (prepay st') i /\
  elem (principle st) i = elem (principle st') i /\
  elem (interest st) i = elem (interest st') i.
Proof.
  intros (b1&r1&si_i&sb_1&sp_i&ps_i&d_i&pre_i&pr_i&R)
         (b1'&r1'&si_i'&sb_1'&sp_i'&ps_i'&d_i'&pre_i'&pr_i'&S)
         (_ & _ & Esp & Esi & Esb & Eps & Edr & Edm & Epm) Hb.
  destruct R as (R1&R2&R3&R4&R5&R6&R7&R8&R9&R10&R11&R12&R13&R14).
  destruct S as (S1&S2&S3&S4&S5&S6&S7&S8&S9&S10&S11&S12&S13&S14).
  rewrite R1, S1 in Hb. injection Hb as ->.
  rewrite Edr, R2 in S2. injection S2 as <-.
  rewrite Esi, R3 in S3. injection S3 as <-.
  rewrite Esb, R4 in S4. injection S4 as <-.
  rewrite Esp, R5 in S5. injection S5 as <-.
  rewrite Eps, R6 in S6. injection S6 as <-.
  rewrite Edm in S8. rewrite Epm in S10.
  assert (d_i' = d_i) as -> by congruence.
  assert (pre_i' = pre_i) as -> by congruence.
  assert (pr_i' = pr_i) as -> by congruence.
  rewrite R7, S7, R9, S9, R11, S11, R13, S13, R14, S14. auto.
Qed.

Lemma Amortization_ext (s t : Amortization A) :
  pmt_cnt s = pmt_cnt t -> pmt_date s = pmt_date t ->
  scheduled_principal s = scheduled_principal t ->
  scheduled_interest s = scheduled_interest t ->
  scheduled_balance s = scheduled_balance t ->
  prepay_speed s = prepay_speed t -> default_rate s = default_rate t ->
  recovery s = recovery t -> servicing_cf s = servicing_cf t ->
  earout_cf s = earout_cf t -> balance s = balance t ->
  principle s = principle t -> default s = default t ->
  prepay s = prepay t -> interest s = interest t ->
  total_cf s = total_cf t ->
  _default_multiplier s = _default_multiplier t ->
  _prepay_multiplier s = _prepay_multiplier t ->
  s = t.
Proof.
  destruct s, t. simpl. intros. subst. reflexivity.
Qed.

(** Two runs of the adjustment method that return, on objects that agree
    on the inputs of the recurrence, leave the same object. *)
Lemma adjust_unique (loan : Loan A) (st4 st4' st5 st5' : Amortization A) :
  same_inputs st4 st4' ->
  calc_default_prepay_adjust_cashflow loan st4 = (st5, Ok tt) ->
  calc_default_prepay_adjust_cashflow loan st4' = (st5', Ok tt) ->
  st5' = st5.
Proof.
  intros Hin H5 H5'.
  apply adjust_cashflow_inv in H5
    as (cnt & bal & dflt & pre & pr & int & sb0 & H5).
  apply adjust_cashflow_inv in H5'
    as (cnt' & bal' & dflt' & pre' & pr' & int' & sb0' & H5').
  cbn zeta in H5, H5'.
  destruct H5 as (Hcnt & H18 & Hsame & Hrec & Hbal & Hdflt & Hpre & Hpr & Hint &
                  Lbal & Ldflt & Lpre & Lpr & Lint & Hs0 & Hb0 & Hd0 & Hp0 &
                  Hr0 & Hi0 & Hrecov & Hsrv & Hear & Htot).
  destruct H5' as (Hcnt' & _ & Hsame' & Hrec' & Hbal' & Hdflt' & Hpre' & Hpr' &
                   Hint' & Lbal' & Ldflt' & Lpre' & Lpr' & Lint' & Hs0' & Hb0' &
                   Hd0' & Hp0' & Hr0' & Hi0' & Hrecov' & Hsrv' & Hear' & Htot').
  pose proof Hin as (Ecnt & Edates & Esp & Esi & Esb & Eps & Edr & Edm & Epm).
  rewrite Ecnt, Hcnt in Hcnt'. injection Hcnt' as <-.
  rewrite Esb, Hs0 in Hs0'. injection Hs0' as <-.
  assert (Hfin : same_inputs st5 st5').
  { pose proof Hsame as (A1&A2&A3&A4&A5&A6&A7&A8&A9).
    pose proof Hsame' as (B1&B2&B3&B4&B5&B6&B7&B8&B9).
    unfold same_inputs. repeat split; congruence. }
  set (nper := length cnt) in *.
  assert (Hall : forall i, i < nper ->
            bal !! i = bal' !! i /\ dflt !! i = dflt' !! i /\
            pre !! i = pre' !! i /\ pr !! i = pr' !! i /\
            int !! i = int' !! i).
  { induction i as [|i IH]; intros Hi.
    - rewrite Hb0, Hb0', Hd0, Hd0', Hp0, Hp0', Hr0, Hr0', Hi0, Hi0'. auto.
    - destruct IH as (IHb & _); [lia|].
      destruct (recurrence_at_unique _ st5 st5' (S i)
                  (Hrec (S i) ltac:(lia)) (Hrec' (S i) ltac:(lia)) Hfin)
        as (X1 & X2 & X3 & X4 & X5).
      + replace (S i - 1) with i by lia.
        rewrite Hbal, Hbal'. exact IHb.
      + rewrite Hbal, Hbal' in X1. rewrite Hdflt, Hdflt' in X2.
        rewrite Hpre, Hpre' in X3. rewrite Hpr, Hpr' in X4.
        rewrite Hint, Hint' in X5. auto. }
  assert (Elist : forall l l' : list A,
            length l = nper -> length l' = nper ->
            (forall i, i < nper -> l !! i = l' !! i) -> l' = l).
  { intros l l' L L' Hi. apply list_eq. intros i.
    destruct (decide (i < nper)) as [Hlt|Hge]; [symmetry; apply Hi; exact Hlt|].
    rewrite !lookup_ge_None_2 by lia. reflexivity. }
  assert (bal' = bal) as -> by (apply Elist; try assumption; intros i Hi; apply Hall, Hi).
  assert (dflt' = dflt) as -> by (apply Elist; try assumption; intros i Hi; apply Hall, Hi).
  assert (pre' = pre) as -> by (apply Elist; try assumption; intros i Hi; apply Hall, Hi).
  assert (pr' = pr) as -> by (apply Elist; try assumption; intros i Hi; apply Hall, Hi).
  assert (int' = int) as -> by (apply Elist; try assumption; intros i Hi; apply Hall, Hi).
  destruct Hfin as (F1&F2&F3&F4&F5&F6&F7&F8&F9).
  apply Amortization_ext; congruence.
Qed.

(** The object does not matter: when [calc_cashflows] returns on one
    object, it returns on any object holding the same two multipliers, and
    leaves the same object and the same frame. *)
Lemma calc_cashflows_indep (loan : Loan A) (st st' st1 : Amortization A) df :
  calc_cashflows CHARGED_OFF PREPAY loan st = (st1, Ok df) ->
  _default_multiplier st' = _default_multiplier st ->
  _prepay_multiplier st' = _prepay_multiplier st ->
  calc_cashflows CHARGED_OFF PREPAY loan st' = (st1, Ok df).
Proof.
  unfold calc_cashflows. intros Hrun Edm Epm.
  apply bind_ok in Hrun as (s1 & [] & H1 & Hrun).
  apply bind_ok in Hrun as (s2 & [] & H2 & Hrun).
  apply bind_ok in Hrun as (s3 & [] & H3 & Hrun).
  apply bind_ok in Hrun as (s4 & [] & H4 & Hrun).
  apply bind_ok in Hrun as (s5 & [] & H5 & Hrun).
  destruct (fetch_prepay_speed_any _ _ _ H1) as (ps & Lps & Hps).
  destruct (fetch_default_rate_any _ _ _ H2) as (dr & Hdr).
  destruct (payment_date_any _ _ _ _ _ H3) as (dates & Ldates & Hdates).
  rewrite Hps in H1. injection H1 as <-.
  rewrite Hdr in H2. injection H2 as <-.
  rewrite Hdates in H3. injection H3 as <-.
  rewrite (bind_intro _ _ _ _ _ (Hps st')).
  rewrite (bind_intro _ _ _ _ _ (Hdr _)).
  rewrite (bind_intro _ _ _ _ _ (Hdates _)).
  set (st3 := set_pmt_date (Some dates)
                (set_default_rate (Some dr) (set_prepay_speed (Some ps) st))) in *.
  set (st3' := set_pmt_date (Some dates)
                 (set_default_rate (Some dr) (set_prepay_speed (Some ps) st'))).
  pose proof (scheduled_balance_unique loan st3 st3') as Esb.
  destruct (calc_scheduled_cashflow_spec loan st3') as (sb' & E4' & Lsb' & _).
  rewrite (bind_intro _ _ _ _ _ E4').
  destruct (calc_scheduled_cashflow_spec loan st3) as (sb & E4 & Lsb & _).
  rewrite E4 in H4. injection H4 as <-.
  rewrite E4, E4' in Esb. cbn [fst] in Esb. proj_simpl_in Esb.
  injection Esb as <-.
  pose proof (to_dataframe_ok _ _ _ Hrun) as (-> & dates' & dr' & Hd' & Hdr' & Lle & _).
  pose proof (adjust_cashflow_inv _ _ _ H5) as
    (cnt & bal & dflt & pre & pr & int & sb0 & Hinv).
  cbn zeta in Hinv. destruct Hinv as (Hcnt & H18 & Hsame & _).
  proj_simpl_in Hcnt. injection Hcnt as <-. rewrite length_seq in H18.
  destruct Hsame as (_ & Sdates & _ & _ & _ & _ & Sdr & _ & _).
  proj_simpl_in Sdates. proj_simpl_in Sdr.
  rewrite Sdates in Hd'. injection Hd' as <-.
  rewrite Sdr in Hdr'. injection Hdr' as <-.
  match goal with
  | |- bind _ _ ?s4' = _ =>
      assert (Hok : (calc_default_prepay_adjust_cashflow loan s4').2 = Ok tt)
  end.
  { apply (adjust_cashflow_total loan _ (seq 0 (term loan + 1))).
    - reflexivity.
    - rewrite length_seq. lia.
    - rewrite length_seq.
      pose proof (scheduled_inputs_cover loan st3' dr ps eq_refl eq_refl
                    ltac:(lia) ltac:(lia)) as Hin.
      rewrite E4' in Hin. exact Hin. }
  match type of Hok with
  | (?c ?s4').2 = _ => destruct (c s4') as [s5' r5] eqn:H5'
  end.
  cbn [snd] in Hok. subst r5.
  rewrite (bind_intro _ _ _ _ _ H5').
  assert (s5' = s5) as ->.
  { eapply adjust_unique; [|exact H5|exact H5'].
    unfold same_inputs. proj_simpl. subst st3 st3'. proj_simpl.
    repeat split; assumption. }
  exact Hrun.
Qed.

(** Every attribute is overwritten: when [calc_cashflows] returns, the
    object left and the frame returned depend on the object it started
    from through the two multipliers only, and calling it again on the
    object left returns the same frame and changes nothing. *)
Theorem calc_cashflows_overwrites
    (loan : Loan A) (st st' st1 : Amortization A) df :
  calc_cashflows CHARGED_OFF PREPAY loan st = (st1, Ok df) ->
  _default_multiplier st' = _default_multiplier st ->
  _prepay_multiplier st' = _prepay_multiplier st ->
  calc_cashflows CHARGED_OFF PREPAY loan st' = (st1, Ok df) /\
  calc_cashflows CHARGED_OFF PREPAY loan st1 = (st1, Ok df).
Proof.
  intros Hrun Edm Epm. split.
  - eapply calc_cashflows_indep; eassumption.
  - assert (Hm : _default_multiplier st1 = _default_multiplier st /\
                 _prepay_multiplier st1 = _prepay_multiplier st).
    { pose proof Hrun as Hrun'. unfold calc_cashflows in Hrun'.
      apply bind_ok in Hrun' as (s1 & [] & H1 & Hrun').
      apply bind_ok in Hrun' as (s2 & [] & H2 & Hrun').
      apply bind_ok in Hrun' as (s3 & [] & H3 & Hrun').
      apply bind_ok in Hrun' as (s4 & [] & H4 & Hrun').
      apply bind_ok in Hrun' as (s5 & [] & H5 & Hrun').
      apply fetch_prepay_speed_ok in H1 as (ps & -> & _).
      apply fetch_default_rate_ok in H2 as (dr & -> & _).
      apply payment_date_ok in H3 as (dates & -> & _).
      destruct (calc_scheduled_cashflow_spec loan
                  (set_pmt_date (Some dates)
                     (set_default_rate (Some dr)
                        (set_prepay_speed (Some ps) st))))
        as (sb & E4 & _).
      rewrite E4 in H4. injection H4 as <-.
      apply adjust_cashflow_inv in H5
        as (cnt & bal & dflt & pre & pr & int & sb0 & Hinv).
      cbn zeta in Hinv. destruct Hinv as (_ & _ & Hsame & _).
      destruct Hsame as (_ & _ & _ & _ & _ & _ & _ & Sdm & Spm).
      proj_simpl_in Sdm. proj_simpl_in Spm.
      apply to_dataframe_ok in Hrun' as (-> & _).
      split; assumption. }
    destruct Hm as [Hm1 Hm2].
    eapply calc_cashflows_indep; eassumption.
Qed.
End Overwrites.

Lemma calc_cashflows_overwrites_witness :
  calc_cashflows ex_CHARGED_OFF ex_PREPAY ex_loan ex_used_st
    = (ex_run.1, Ok ex_df) /\
  calc_cashflows ex_CHARGED_OFF ex_PREPAY ex_loan ex_run.1
    = (ex_run.1, Ok ex_df).
Proof.
  apply (calc_cashflows_overwrites ex_CHARGED_OFF ex_PREPAY ex_loan
           new_Amortization ex_used_st ex_run.1 ex_df).
  - vm_compute. reflexivity.
  - reflexivity.
  - reflexivity.
Defined.

(** ** Tables of the wrong shape *)

Section OrchestrationFailures.
Context {A : Type} `{Arith A}.
Variables CHARGED_OFF PREPAY : table A.

(** A default-rate series shorter than the other series makes the frame
    ragged. *)
Lemma to_dataframe_short (st : Amortization A) n dr :
  series_lengths n st -> default_rate st = Some dr -> length dr < n ->
  to_dataframe st =
    (st, Raise (ValueError "All arrays must be of the same length")).
Proof.
  intros Hlen Hdr Ldr. unfold series_lengths in Hlen.
  destruct Hlen as (L1&L2&L3&L4&L5&L6&L7&L8&L9&L10&L11&L12&L13&L14&L15).
  apply length_fmap_Some in L1 as (cnt & E1 & L1).
  apply length_fmap_Some in L2 as (dates & E2 & L2).
  apply length_fmap_Some in L3 as (sp & E3 & L3).
  apply length_fmap_Some in L4 as (si & E4 & L4).
  apply length_fmap_Some in L5 as (sb & E5 & L5).
  apply length_fmap_Some in L6 as (ps & E6 & L6).
  apply length_fmap_Some in L7 as (rec & E7 & L7).
  apply length_fmap_Some in L8 as (srv & E8 & L8).
  apply length_fmap_Some in L9 as (ear & E9 & L9).
  apply length_fmap_Some in L10 as (bal & E10 & L10).
  apply length_fmap_Some in L11 as (pr & E11 & L11).
  apply length_fmap_Some in L12 as (dflt & E12 & L12).
  apply length_fmap_Some in L13 as (pre & E13 & L13).
  apply length_fmap_Some in L14 as (int & E14 & L14).
  apply length_fmap_Some in L15 as (tcf & E15 & L15).
  unfold to_dataframe.
  rewrite E1, E2, E3, E4, E5, E6, E7, E8, E9, E10, E11, E12, E13, E14, E15, Hdr.
  cbn [col_nat col_float forallb snd col_fits col_length].
  rewrite length_take, !length_seq, L1, L2, L3, L4, L5, L6, L7, L8, L9, L10,
    L11, L12, L13, L14, L15.
  replace (n `min` length dr) with (length dr) by lia.
  rewrite Nat.eqb_refl.
  destruct (Nat.eqb_spec (length dr) n); [lia|]. reflexivity.
Qed.

(** One row too few in the charge-off table, for an issue date and a
    schedule within the range of a [Timestamp].  The recurrence reads the
    default rates of periods [0 .. term - 1] only, so a column of exactly
    [term] rows lets every series be computed; the frame however takes
    [term + 1] rows of every series, and [calc_cashflows] raises at the
    very end. *)
Theorem calc_cashflows_short_charge_off_column
    (loan : Loan A) (st : Amortization A) (pcol dr : list A) (step : nat) :
  column (LInt (Z.of_nat (term loan))) PREPAY = Some pcol ->
  length (List.filter (fun x => negb (is_nan x)) pcol) = term loan \/
  length (List.filter (fun x => negb (is_nan x)) pcol) = 1 ->
  charge_off_col_num loan = None ->
  column (LStr (charge_off_lookup_key loan)) CHARGED_OFF = Some dr ->
  length dr = term loan ->
  freq_months (amort_freq loan) = Some step ->
  1 <= month (issue_date loan) <= 12 -> 1 <= day (issue_date loan) <= 28 ->
  in_bounds (issue_date loan) = true ->
  in_bounds (month_end_after (issue_date loan) (step * term loan)) = true ->
  18 <= term loan ->
  exists st',
    calc_cashflows CHARGED_OFF PREPAY loan st =
      (st', Raise (ValueError "All arrays must be of the same length")) /\
    series_lengths (term loan + 1) st' /\
    default_rate st' = Some dr.
Proof.
  intros Hpcol Hplen Hnum Hdr Ldr Hf Hm Hd Hs He H18.
  unfold calc_cashflows.
  destruct (fetch_prepay_speed_total PREPAY (term loan) st pcol Hpcol Hplen)
    as (ps & E1 & Lps).
  rewrite (bind_intro _ _ _ _ _ E1).
  assert (E2 : fetch_default_rate CHARGED_OFF (default_rate_selector loan)
                 (set_prepay_speed (Some ps) st)
               = (set_default_rate (Some dr) (set_prepay_speed (Some ps) st),
                  Ok tt)).
  { unfold default_rate_selector, fetch_default_rate. rewrite Hnum.
    rewrite (has_column_of_column _ _ _ Hdr). cbn [negb]. rewrite Hdr.
    reflexivity. }
  rewrite (bind_intro _ _ _ _ _ E2).
  destruct (payment_date_total (issue_date loan) (term loan) (amort_freq loan)
              step (set_default_rate (Some dr) (set_prepay_speed (Some ps) st))
              Hf Hm Hd Hs He) as (dates & E3 & Ldates).
  rewrite (bind_intro _ _ _ _ _ E3).
  set (st3 := set_pmt_date (Some dates)
                (set_default_rate (Some dr) (set_prepay_speed (Some ps) st))).
  destruct (calc_scheduled_cashflow_spec loan st3) as (sb & E4 & Lsb & _).
  rewrite (bind_intro _ _ _ _ _ E4).
  assert (Hin : inputs_cover (term loan + 1) (calc_scheduled_cashflow loan st3).1).
  { apply (scheduled_inputs_cover loan st3 dr ps); try reflexivity; lia. }
  assert (E5 : (run_recurrence loan st3).2 = Ok tt).
  { unfold run_recurrence.
    apply (adjust_cashflow_total loan _ (seq 0 (term loan + 1))).
    - rewrite E4. reflexivity.
    - rewrite length_seq. lia.
    - rewrite length_seq. exact Hin. }
  destruct (run_recurrence loan st3) as [st5 r5] eqn:Hrun.
  cbn [snd] in E5. subst r5.
  unfold run_recurrence in Hrun. rewrite E4 in Hrun. cbn [fst] in Hrun.
  rewrite (bind_intro _ _ _ _ _ Hrun).
  assert (Hrun' : run_recurrence loan st3 = (st5, Ok tt)).
  { unfold run_recurrence. rewrite E4. exact Hrun. }
  destruct (series_after_adjustment loan st3 st5 dates ps)
    as (Hlen & Hcnt & Hdr5); try reflexivity; try assumption.
  exists st5. split; [|split; [exact Hlen | rewrite Hdr5; reflexivity]].
  apply (to_dataframe_short st5 (term loan + 1) dr Hlen);
    [rewrite Hdr5; reflexivity | lia].
Qed.

(** A prepayment column of the wrong length: when the column under the
    term holds neither as many values as the term nor a single one,
    [calc_cashflows] raises at its first step, and the object is left with
    prepay speeds that are all zero, whatever they were before. *)
Theorem calc_cashflows_prepay_mismatch
    (loan : Loan A) (st : Amortization A) (pcol : list A) :
  column (LInt (Z.of_nat (term loan))) PREPAY = Some pcol ->
  length (List.filter (fun x => negb (is_nan x)) pcol) <> term loan ->
  length (List.filter (fun x => negb (is_nan x)) pcol) <> 1 ->
  calc_cashflows CHARGED_OFF PREPAY loan st =
    (set_prepay_speed (Some (zeros (term loan + 1))) st,
     Raise (ValueError "could not broadcast input array")).
Proof.
  intros Hcol Hn H1. unfold calc_cashflows. apply bind_raise.
  unfold fetch_prepay_speed.
  rewrite (has_column_of_column _ _ _ Hcol). cbn [negb].
  rewrite bind_assign, Hcol.
  destruct (Nat.eqb_spec (length (List.filter (fun x => negb (is_nan x)) pcol))
              (term loan)) as [E|E]; [contradiction|].
  destruct (List.filter _ pcol) as [|v [|]]; simpl in *; try reflexivity.
  contradiction.
Qed.
End OrchestrationFailures.

Lemma calc_cashflows_short_charge_off_column_witness :
  exists st',
    calc_cashflows ex_short_CHARGED_OFF ex_PREPAY ex_loan new_Amortization =
      (st', Raise (ValueError "All arrays must be of the same length")) /\
    series_lengths (term ex_loan + 1) st' /\
    default_rate st' = Some (replicate 18 0.01%float).
Proof.
  apply (calc_cashflows_short_charge_off_column ex_short_CHARGED_OFF ex_PREPAY
           ex_loan new_Amortization
           (replicate 18 0.02%float ++ replicate 6 nan)
           (replicate 18 0.01%float) 1).
  - reflexivity.
  - left. vm_compute. reflexivity.
  - reflexivity.
  - vm_compute. reflexivity.
  - vm_compute. reflexivity.
  - reflexivity.
  - simpl. lia.
  - simpl. lia.
  - reflexivity.
  - reflexivity.
  - simpl. lia.
Defined.

Lemma calc_cashflows_prepay_mismatch_witness :
  calc_cashflows ex_CHARGED_OFF ex_ragged_PREPAY ex_loan new_Amortization =
    (set_prepay_speed (Some (zeros (term ex_loan + 1))) new_Amortization,
     Raise (ValueError "could not broadcast input array")).
Proof.
  apply (calc_cashflows_prepay_mismatch ex_CHARGED_OFF ex_ragged_PREPAY
           ex_loan new_Amortization
           (replicate 10 0.02%float ++ replicate 14 nan)).
  - reflexivity.
  - vm_compute. lia.
  - vm_compute. lia.
Defined.

(** ** What the methods leave untouched *)

Section Untouched.
Context {A : Type} `{Arith A}.
Variables CHARGED_OFF PREPAY : table A.

Lemma same_multipliers_refl (st : Amortization A) : same_multipliers st st.
Proof. split; reflexivity. Qed.

Lemma same_multipliers_trans (s1 s2 s3 : Amortization A) :
  same_multipliers s1 s2 -> same_multipliers s2 s3 -> same_multipliers s1 s3.
Proof. intros [? ?] [? ?]. split; congruence. Qed.

Ltac keep_multipliers :=
  keeps (same_multipliers (A:=A)) same_multipliers_refl same_multipliers_trans.

Lemma payment_date_keeps_multipliers start periods f :
  preserves same_multipliers (payment_date (A:=A) start periods f).
Proof.
  unfold payment_date. keep_multipliers.
  destruct (negb _); keep_multipliers.
Qed.

Lemma fetch_prepay_speed_keeps_multipliers nper :
  preserves same_multipliers (fetch_prepay_speed PREPAY nper).
Proof.
  unfold fetch_prepay_speed. destruct (negb _); keep_multipliers.
  destruct (column _ _) as [col|]; keep_multipliers.
  destruct (_ =? _); keep_multipliers.
  destruct (List.filter _ col) as [|w [|]]; keep_multipliers.
Qed.

Lemma fetch_default_rate_keeps_multipliers sel :
  preserves same_multipliers (fetch_default_rate CHARGED_OFF sel).
Proof.
  unfold fetch_default_rate. destruct sel as [c|b|s|]; keep_multipliers.
  - destruct (_ >=? _)%Z; keep_multipliers.
  - destruct (_ >=? _)%Z; keep_multipliers.
  - destruct (negb _); keep_multipliers.
    destruct (column _ _); keep_multipliers.
Qed.

Lemma calc_scheduled_cashflow_keeps_multipliers loan :
  preserves same_multipliers (calc_scheduled_cashflow (A:=A) loan).
Proof. unfold calc_scheduled_cashflow. keep_multipliers. Qed.

Lemma adjust_cashflow_keeps_multipliers loan :
  preserves same_multipliers (calc_default_prepay_adjust_cashflow (A:=A) loan).
Proof.
  intros st. unfold calc_default_prepay_adjust_cashflow.
  destruct (pmt_cnt st) as [cnt|]; [|apply same_multipliers_refl].
  match goal with
  | |- same_multipliers st (?c st).1 =>
      enough (Hc : preserves same_multipliers c) by apply Hc
  end.
  keep_multipliers.
Qed.

Lemma to_dataframe_keeps_multipliers :
  preserves same_multipliers (to_dataframe (A:=A)).
Proof.
  intros st. unfold to_dataframe.
  destruct (pmt_date st); [|apply same_multipliers_refl].
  destruct (default_rate st); [|apply same_multipliers_refl].
  destruct (forallb _ _); apply same_multipliers_refl.
Qed.

(** No method resets the multipliers: whether [calc_cashflows] returns or
    raises, and wherever it raises, the object it leaves holds the default
    multiplier and the prepay multiplier it started with. *)
Theorem calc_cashflows_keeps_multipliers (loan : Loan A) (st : Amortization A) :
  _default_multiplier (calc_cashflows CHARGED_OFF PREPAY loan st).1
    = _default_multiplier st /\
  _prepay_multiplier (calc_cashflows CHARGED_OFF PREPAY loan st).1
    = _prepay_multiplier st.
Proof.
  enough (Hc : preserves same_multipliers
                 (calc_cashflows CHARGED_OFF PREPAY loan)) by apply Hc.
  unfold calc_cashflows.
  apply (preserves_bind same_multipliers same_multipliers_trans);
    [apply fetch_prepay_speed_keeps_multipliers | intros _].
  apply (preserves_bind same_multipliers same_multipliers_trans);
    [apply fetch_default_rate_keeps_multipliers | intros _].
  apply (preserves_bind same_multipliers same_multipliers_trans);
    [apply payment_date_keeps_multipliers | intros _].
  apply (preserves_bind same_multipliers same_multipliers_trans);
    [apply calc_scheduled_cashflow_keeps_multipliers | intros _].
  apply (preserves_bind same_multipliers same_multipliers_trans);
    [apply adjust_cashflow_keeps_multipliers | intros _].
  apply to_dataframe_keeps_multipliers.
Qed.
End Untouched.

Section ShortRates.
Context {A : Type} `{Arith A}.
Local Open Scope arith_scope.

Lemma same_cash_flows_refl (st : Amortization A) : same_cash_flows st st.
Proof. repeat split. Qed.

Lemma same_cash_flows_trans (s1 s2 s3 : Amortization A) :
  same_cash_flows s1 s2 -> same_cash_flows s2 s3 -> same_cash_flows s1 s3.
Proof.
  intros (?&?&?&?) (?&?&?&?). unfold same_cash_flows. repeat split; congruence.
Qed.

Lemma adjust_loop_keeps_cash_flows rate l :
  preserves same_cash_flows (for_each (A:=A) l (adjust_period rate)).
Proof.
  keeps (same_cash_flows (A:=A)) same_cash_flows_refl same_cash_flows_trans.
Qed.

(** A pass whose operands are in range returns, on series that may be
    longer than the inputs reach. *)
Lemma adjust_period_runs rate m n i (st : Amortization A) :
  (1 <= i < m)%nat -> (m <= n)%nat -> inputs_cover m st -> flows_length n st ->
  exists st', adjust_period rate i st = (st', Ok tt).
Proof.
  intros Hi Hmn (dr&si&sb&sp&ps&Hdr&Hsi&Hsb&Hsp&Hps&?&?&?&?&?).
  intros (L1&L2&L3&L4&L5).
  apply fmap_length_Some in L1 as (bal & Hbal & ?).
  apply fmap_length_Some in L2 as (dflt & Hdflt & ?).
  apply fmap_length_Some in L3 as (pre & Hpre & ?).
  apply fmap_length_Some in L4 as (pr & Hpr & ?).
  apply fmap_length_Some in L5 as (int & Hint & ?).
  enough (E : (adjust_period rate i st).2 = Ok tt)
    by (destruct (adjust_period rate i st) as [s' r]; simpl in E; subst r;
        eauto).
  unfold adjust_period.
  run_rd. run_rd. rewrite bind_field. run_setitem.
  run_rd. run_rd. run_rd. run_rd. run_rd. run_rd. rewrite bind_field.
  run_setitem.
  run_rd. run_rd. run_rd. run_rd. run_rd. run_setitem.
  run_rd. run_rd. run_rd. run_setitem.
  run_rd. run_rd. run_setitem.
Qed.

(** The pass of the first period without a default rate raises, before
    it has written anything. *)
Lemma adjust_period_raises rate n i (st : Amortization A) dr :
  (1 <= i < n)%nat -> flows_length n st ->
  default_rate st = Some dr -> (length dr <= i - 1)%nat ->
  adjust_period rate i st = (st, Raise (IndexError "index is out of bounds")).
Proof.
  intros Hi (L1 & _) Hdr Ldr.
  apply fmap_length_Some in L1 as (bal & Hbal & Lbal).
  destruct (lookup_lt_is_Some_2 bal (i - 1)) as [b Hb]; [lia|].
  unfold adjust_period.
  rewrite (bind_intro (rd balance (i - 1)) _ st st b)
    by (apply rd_intro; rewrite Hbal; exact Hb).
  apply bind_raise. unfold rd, bind, attr, lift, getitem.
  rewrite Hdr, (lookup_ge_None_2 dr (i - 1)) by lia. reflexivity.
Qed.

(** A loop whose first [j] passes return and whose next pass raises. *)
Lemma for_each_stops (P : nat -> Amortization A -> Prop) body e j :
  forall n start st,
    (j < n)%nat -> P start st ->
    (forall i s, (start <= i < start + j)%nat -> P i s ->
                 exists s', body i s = (s', Ok tt) /\ P (S i) s') ->
    (forall s, P (start + j)%nat s -> body (start + j)%nat s = (s, Raise e)) ->
    exists s', for_each (seq start n) body st = (s', Raise e) /\
               P (start + j)%nat s'.
Proof.
  induction j as [|j IH]; intros n start st Hn HP Hstep Hfail.
  - destruct n as [|n]; [lia|]. simpl.
    rewrite Nat.add_0_r in *. exists st. split; [|exact HP].
    apply bind_raise. apply Hfail. exact HP.
  - destruct n as [|n]; [lia|]. simpl.
    destruct (Hstep start st) as (s & Hb & HP'); [lia | exact HP |].
    rewrite (bind_intro _ _ _ _ _ Hb).
    replace (start + S j)%nat with (S start + j)%nat in * by lia.
    apply IH; [lia | exact HP' | |exact Hfail].
    intros i s0 Hi. apply Hstep. lia.
Qed.

Lemma unwritten_at_upd j t (st st' : Amortization A) :
  flows_upd_at j st st' -> t <> j -> unwritten_at st t -> unwritten_at st' t.
Proof.
  intros (U1&U2&U3&U4&U5) Ht (Z1&Z2&Z3&Z4&Z5). unfold unwritten_at.
  rewrite (upd_at_elem j _ _ t U1 Ht), (upd_at_elem j _ _ t U2 Ht),
    (upd_at_elem j _ _ t U3 Ht), (upd_at_elem j _ _ t U4 Ht),
    (upd_at_elem j _ _ t U5 Ht). auto.
Qed.

(** Too few default rates.  With a default-rate series shorter than the
    term, the scheduled amortization followed by the adjustment method
    raises an index error inside the loop, in the pass of the first period
    without a rate: the periods that have a rate satisfy the recurrence,
    every later period of the five realized series still holds the zero it
    was allocated with, and recovery, servicing, earnout and total cash
    flow, which are assigned after the loop, are the ones the object held
    before. *)
Theorem adjustment_short_default_rates
    (loan : Loan A) (st0 : Amortization A) (dr ps : list A) :
  default_rate st0 = Some dr -> prepay_speed st0 = Some ps ->
  (length dr < term loan)%nat -> (term loan + 1 <= length ps)%nat ->
  (run_recurrence loan st0).2 = Raise (IndexError "index is out of bounds") /\
  (forall i, (1 <= i <= length dr)%nat ->
     recurrence_at (periodic_rate loan) (run_recurrence loan st0).1 i) /\
  (forall t, (length dr < t <= term loan)%nat ->
     unwritten_at (run_recurrence loan st0).1 t) /\
  recovery (run_recurrence loan st0).1 = recovery st0 /\
  servicing_cf (run_recurrence loan st0).1 = servicing_cf st0 /\
  earout_cf (run_recurrence loan st0).1 = earout_cf st0 /\
  total_cf (run_recurrence loan st0).1 = total_cf st0.
Proof.
  intros Hdr Hps Ldr Lps. unfold run_recurrence.
  destruct (calc_scheduled_cashflow_spec loan st0) as (sb & E & Lsb & Hsb0 & _).
  rewrite E. cbn [fst].
  unfold calc_default_prepay_adjust_cashflow. proj_simpl.
  rewrite !bind_assign. rewrite length_seq.
  erewrite (bind_intro (rd scheduled_balance 0))
    by (apply rd_intro; proj_simpl; exact Hsb0).
  erewrite (bind_intro (setitem balance set_balance 0 (invested loan)))
    by (apply setitem_intro; [proj_simpl; reflexivity | rewrite length_zeros; lia]).
  fold (periodic_rate loan).
  match goal with
  | |- context [bind (for_each _ (adjust_period ?rate)) _ ?st] =>
      set (r := rate); set (pre := st)
  end.
  pose (P := fun (k : nat) (s : Amortization A) =>
               inputs_cover (length dr + 1) s /\
               flows_length (term loan + 1) s /\
               default_rate s = Some dr /\
               (forall t, (1 <= t < k)%nat -> recurrence_at r s t) /\
               (forall t, (k <= t <= term loan)%nat -> unwritten_at s t)).
  destruct (for_each_stops P (adjust_period r)
              (IndexError "index is out of bounds") (length dr)
              (term loan + 1 - 1) 1 pre) as (s' & Hloop & HP).
  - lia.
  - subst P pre. cbv beta. split; [|split; [|split; [|split]]].
    + unfold inputs_cover. proj_simpl.
      exists dr. eexists. exists sb. eexists. exists ps.
      repeat split; try eassumption; try reflexivity;
        simpl; rewrite ?length_fmap, ?length_seq; lia.
    + unfold flows_length. proj_simpl. simpl.
      rewrite ?length_insert, ?length_zeros. repeat split.
    + proj_simpl. exact Hdr.
    + intros t Ht. lia.
    + intros t Ht. unfold unwritten_at. proj_simpl. simpl.
      rewrite list_lookup_insert_ne by lia.
      rewrite !lookup_zeros by lia. auto.
  - intros i s Hi (I1 & I2 & I3 & I4 & I5).
    destruct (adjust_period_runs r (length dr + 1) (term loan + 1) i s)
      as (s1 & Hs1); [lia | lia | assumption | assumption |].
    exists s1. split; [exact Hs1|].
    apply adjust_period_spec in Hs1 as (R & S1 & S2); [|lia].
    split; [eapply inputs_cover_same; eassumption|].
    split; [eapply flows_length_upd; eassumption|].
    split; [destruct S1 as (_&_&_&_&_&_&Edr&_); rewrite Edr; exact I3|].
    split.
    + intros t Ht. destruct (decide (t = i)) as [->|Hne]; [exact R|].
      eapply recurrence_at_frame; [eassumption..| |apply I4]; lia.
    + intros t Ht. eapply unwritten_at_upd; [exact S2 | lia | apply I5; lia].
  - intros s (I1 & I2 & I3 & _).
    apply (adjust_period_raises r (term loan + 1) _ s dr);
      [lia | assumption | assumption | lia].
  - rewrite (bind_raise _ _ _ _ _ Hloop). cbn [fst snd].
    destruct HP as (_ & _ & _ & H4 & H5).
    split; [reflexivity|].
    split; [intros i Hi; apply H4; lia|].
    split; [intros t Ht; apply H5; lia|].
    pose proof (adjust_loop_keeps_cash_flows r (seq 1 (term loan + 1 - 1)) pre)
      as Hk.
    rewrite Hloop in Hk. cbn [fst] in Hk.
    destruct Hk as (K1 & K2 & K3 & K4).
    rewrite K1, K2, K3, K4. subst pre. proj_simpl. auto.
Qed.
End ShortRates.

(** The worked loan of eighteen periods, which reaches both earnout
    periods, on an object with two default rates: the loop stops at
    period 3, and the object still has no recovery series. *)
Lemma adjustment_short_default_rates_witness :
  (run_recurrence ex_loan ex_few_rates_st0).2
    = Raise (IndexError "index is out of bounds") /\
  (forall i, (1 <= i <= length (replicate 2 0.01%float))%nat ->
     recurrence_at (periodic_rate ex_loan)
                   (run_recurrence ex_loan ex_few_rates_st0).1 i) /\
  (forall t, (length (replicate 2 0.01%float) < t <= term ex_loan)%nat ->
     unwritten_at (run_recurrence ex_loan ex_few_rates_st0).1 t) /\
  recovery (run_recurrence ex_loan ex_few_rates_st0).1
    = recovery ex_few_rates_st0 /\
  servicing_cf (run_recurrence ex_loan ex_few_rates_st0).1
    = servicing_cf ex_few_rates_st0 /\
  earout_cf (run_recurrence ex_loan ex_few_rates_st0).1
    = earout_cf ex_few_rates_st0 /\
  total_cf (run_recurrence ex_loan ex_few_rates_st0).1
    = total_cf ex_few_rates_st0.
Proof.
  apply (adjustment_short_default_rates ex_loan ex_few_rates_st0
           (replicate 2 0.01%float) (0%float :: replicate 18 0.02%float)).
  - reflexivity.
  - reflexivity.
  - simpl. lia.
  - simpl. lia.
Defined.
